(** * SwiftShot: the interactive capture-target selector

    A shallow embedding of the selector subsystem of SwiftShot
    (overlay.py, window_picker.py, utils.py, the cropping of capture.py
    and the overlay plumbing of app.py) and the properties its
    specification states about it.

    Conventions.
    - Python objects mutated through [self] become records; a method
      becomes a function from the record to the new record together with
      what it returns and the list of side effects it performed, in
      program order.
    - Qt value classes ([QPoint], [QRect], [QRectF]) are modelled after
      Qt 5 (the code imports PyQt5): a [QRect] stores its two corners
      [x1,y1,x2,y2] and its width is [x2 - x1 + 1].  Their coordinates
      are C ints; pixel coordinates stay far from the 32-bit range, so
      they are [Z] here.
    - Calls into the host (user32, dwmapi, the monotonic clock, the
      screen list) are oracles passed as arguments. *)

From Stdlib Require Import ZArith QArith Qcanon Lia Lqa List Bool Ascii String Sorted.
From Stdlib Require Import PrimFloat Uint63.
From stdpp Require Import gmap list.
Import ListNotations.
Local Open Scope Z_scope.

(* ===================================================================== *)
(** * Part I: the code *)
(* ===================================================================== *)

(** ** Qt value classes *)

Module QPoint.
Record t : Set := mk { x : Z; y : Z }.

(** [QPoint()] *)
Definition null : t := mk 0 0.

Definition eq_dec (p q : t) : {p = q} + {p <> q}.
Proof. decide equality; apply Z.eq_dec. Defined.
End QPoint.

Module QRect.
(** Qt 5 stores the left, top, right and bottom pixel, all inclusive. *)
Record t : Set := mk { x1 : Z; y1 : Z; x2 : Z; y2 : Z }.

(** [QRect()] *)
Definition null : t := mk 0 0 (-1) (-1).
(** [QRect(x, y, w, h)] *)
Definition xywh (x y w h : Z) : t := mk x y (x + w - 1) (y + h - 1).
(** [QRect(topLeft, bottomRight)] *)
Definition corners (tl br : QPoint.t) : t :=
  mk (QPoint.x tl) (QPoint.y tl) (QPoint.x br) (QPoint.y br).

Definition x (r : t) : Z := x1 r.
Definition y (r : t) : Z := y1 r.
Definition left (r : t) : Z := x1 r.
Definition top (r : t) : Z := y1 r.
Definition right (r : t) : Z := x2 r.
Definition bottom (r : t) : Z := y2 r.
Definition width (r : t) : Z := x2 r - x1 r + 1.
Definition height (r : t) : Z := y2 r - y1 r + 1.

Definition isNull (r : t) : bool :=
  (x2 r =? x1 r - 1) && (y2 r =? y1 r - 1).
Definition isEmpty (r : t) : bool :=
  (x1 r >? x2 r) || (y1 r >? y2 r).

(** [normalized()]: a corner pair is swapped when the width is negative,
    that is when [x2 < x1 - 1]. *)
Definition normalized (r : t) : t :=
  let '(nx1, nx2) := if x2 r <? x1 r - 1 then (x2 r, x1 r) else (x1 r, x2 r) in
  let '(ny1, ny2) := if y2 r <? y1 r - 1 then (y2 r, y1 r) else (y1 r, y2 r) in
  mk nx1 ny1 nx2 ny2.

(** [contains(x, y)] *)
Definition contains (r : t) (px py : Z) : bool :=
  let '(l, rr) := if x2 r <? x1 r - 1 then (x2 r, x1 r) else (x1 r, x2 r) in
  if (px <? l) || (px >? rr) then false else
  let '(tp, b) := if y2 r <? y1 r - 1 then (y2 r, y1 r) else (y1 r, y2 r) in
  if (py <? tp) || (py >? b) then false else true.

(** [united(r2)], the bounding rectangle ([operator|]). *)
Definition united (r1 r2 : t) : t :=
  if isNull r1 then r2 else
  if isNull r2 then r1 else
  let '(l1, rr1) := if x2 r1 - x1 r1 + 1 <? 0 then (x2 r1, x1 r1) else (x1 r1, x2 r1) in
  let '(l2, rr2) := if x2 r2 - x1 r2 + 1 <? 0 then (x2 r2, x1 r2) else (x1 r2, x2 r2) in
  let '(t1, b1) := if y2 r1 - y1 r1 + 1 <? 0 then (y2 r1, y1 r1) else (y1 r1, y2 r1) in
  let '(t2, b2) := if y2 r2 - y1 r2 + 1 <? 0 then (y2 r2, y1 r2) else (y1 r2, y2 r2) in
  mk (Z.min l1 l2) (Z.min t1 t2) (Z.max rr1 rr2) (Z.max b1 b2).

(** [translated(dx, dy)] *)
Definition translated (r : t) (dx dy : Z) : t :=
  mk (x1 r + dx) (y1 r + dy) (x2 r + dx) (y2 r + dy).

(** Arithmetic on C [int]s: a result outside the 32-bit range wraps
    around.  Where a rectangle may be anywhere in that range ([intersected]
    and the size test of [crop_image]) the sums and differences that Qt
    computes are wrapped. *)
Definition int32 (z : Z) : Z := (z + 2147483648) mod 4294967296 - 2147483648.

Definition width32 (r : t) : Z := int32 (x2 r - x1 r + 1).
Definition height32 (r : t) : Z := int32 (y2 r - y1 r + 1).
Definition isNull32 (r : t) : bool :=
  (x2 r =? int32 (x1 r - 1)) && (y2 r =? int32 (y1 r - 1)).

(** [intersected(r2)] ([operator&]). *)
Definition intersected (r1 r2 : t) : t :=
  if isNull32 r1 || isNull32 r2 then null else
  let '(l1, rr1) := if width32 r1 <? 0 then (x2 r1, x1 r1) else (x1 r1, x2 r1) in
  let '(l2, rr2) := if width32 r2 <? 0 then (x2 r2, x1 r2) else (x1 r2, x2 r2) in
  if (l1 >? rr2) || (l2 >? rr1) then null else
  let '(t1, b1) := if height32 r1 <? 0 then (y2 r1, y1 r1) else (y1 r1, y2 r1) in
  let '(t2, b2) := if height32 r2 <? 0 then (y2 r2, y1 r2) else (y1 r2, y2 r2) in
  if (t1 >? b2) || (t2 >? b1) then null else
  mk (Z.max l1 l2) (Z.max t1 t2) (Z.min rr1 rr2) (Z.min b1 b2).

Definition eq_dec (r s : t) : {r = s} + {r <> s}.
Proof. decide equality; apply Z.eq_dec. Defined.
End QRect.

(** A [QPixmap] object, by identity: the [n]-th pixmap grabbed by
    [CaptureManager.capture_fullscreen()] in this process. *)
Definition QPixmap : Set := nat.

(** ** The host: user32 / dwmapi *)

Definition HWND : Set := Z.

(** [wintypes.RECT] *)
Record RECT : Set := mkRECT { left : Z; top : Z; right : Z; bottom : Z }.

(** The Win32 calls the selector makes.  A call that fills a [RECT]
    through a pointer returns [None] when it fails (then the caller's
    zero-initialised [RECT] is left as it is).  [GetWindow_chain p] is the
    sequence of handles obtained by [GetWindow(p, GW_CHILD)] followed by
    repeated [GetWindow(_, GW_HWNDNEXT)]. *)
Record Win32 : Type := mkWin32 {
  EnumWindows : list HWND;
  IsWindowVisible : HWND -> bool;
  GetWindowTextLengthW : HWND -> Z;
  DwmGetWindowAttribute : HWND -> option RECT;
  GetWindowRect : HWND -> option RECT;
  GetWindow_chain : HWND -> list HWND
}.

(** What the process sees of its environment: [sys.platform == 'win32'],
    the Win32 calls, and [QApplication.screens()] as their geometries. *)
Record Host : Type := mkHost {
  is_win32 : bool;
  user32 : Win32;
  screens : list QRect.t
}.

(** The rectangle reported for a window: the DWM extended frame bounds,
    else [GetWindowRect], else the zero [RECT]. *)
Definition query_RECT (w : Win32) (hwnd : HWND) : RECT :=
  match DwmGetWindowAttribute w hwnd with
  | Some r => r
  | None =>
      match GetWindowRect w hwnd with
      | Some r => r
      | None => mkRECT 0 0 0 0
      end
  end.

(** ** utils.py *)

Module utils.
Definition virtual_geometry (h : Host) : QRect.t :=
  match screens h with
  | [] => QRect.xywh 0 0 1920 1080
  | s0 :: rest => fold_left QRect.united rest s0
  end.

(** The format specification [02X] applied to an integer: upper-case
    hexadecimal digits, a minus sign for a negative number, zero-padded
    after the sign to a total width of 2. *)
Definition hex_digit (d : Z) : ascii :=
  match d with
  | 0 => "0" | 1 => "1" | 2 => "2" | 3 => "3" | 4 => "4" | 5 => "5" | 6 => "6" | 7 => "7"
  | 8 => "8" | 9 => "9" | 10 => "A" | 11 => "B" | 12 => "C" | 13 => "D" | 14 => "E"
  | _ => "F"
  end%char.

Fixpoint hex_digits (fuel : nat) (n : Z) : string :=
  match fuel with
  | O => EmptyString
  | S fuel' =>
      if n <? 16 then String (hex_digit n) EmptyString
      else String.append (hex_digits fuel' (n / 16)) (String (hex_digit (n mod 16)) EmptyString)
  end.

Definition format_02X (n : Z) : string :=
  let digits := hex_digits (S (Z.to_nat (Z.log2 (Z.abs n)))) (Z.abs n) in
  if n <? 0 then String "-"%char digits
  else if Z.of_nat (String.length digits) <? 2 then String "0"%char digits
  else digits.

(** [color_to_hex(r, g, b)] *)
Definition color_to_hex (r g b : Z) : string :=
  String "#"%char
    (String.append (format_02X r) (String.append (format_02X g) (format_02X b))).

End utils.


(** ** capture.py: cropping *)

Module capture.
(** [CaptureManager.crop_image(pixmap, rect)].  A pixmap is given by its
    size, so that [pixmap.rect()] is [QRect(0, 0, w, h)]; the result is the
    rectangle handed to [pixmap.copy], that is the part of the pixmap the
    returned pixmap holds, or [None]. *)
Definition crop_image (pixmap : option (Z * Z)) (rect : option QRect.t) : option QRect.t :=
  match pixmap, rect with
  | Some (w, h), Some rect =>
      let img_rect := QRect.xywh 0 0 w h in
      let crop_rect := QRect.intersected rect img_rect in
      if (QRect.width32 crop_rect <? 1) || (QRect.height32 crop_rect <? 1) then None
      else Some crop_rect
  | _, _ => None
  end.
End capture.

(** ** The painter

    What a paint method asks of its [QPainter], as far as geometry goes:
    [drawLine(x1, y1, x2, y2)], [drawRoundedRect(x, y, w, h, ..)], and
    [drawPixmap(x, y, screenshot.copy(src).scaled(size, size, ..))], where
    [copied] is the part of the Snapshot that the copy holds. *)
Inductive PaintOp : Set :=
| drawLine (x1 y1 x2 y2 : Z)
| drawRoundedRect (x y w h : Z)
| drawMagnified (x y : Z) (copied : QRect.t) (size : Z).

(** [QPixmap.copy(rect)] of a pixmap of [w] by [h] pixels: the part of
    the pixmap that the copy holds.  Qt copies the whole pixmap for an
    empty [rect], and otherwise the intersection of the pixmap's
    rectangle with [rect]. *)
Definition QPixmap_copy (w h : Z) (rect : QRect.t) : QRect.t :=
  let r := QRect.xywh 0 0 w h in
  if QRect.isEmpty rect then r else QRect.intersected r rect.

(** [range(start, stop, step)] for a positive [step]. *)
Definition py_range (start stop step : Z) : list Z :=
  List.map (fun k => start + step * Z.of_nat k)
    (List.seq 0 (Z.to_nat ((stop - start + step - 1) / step))).


(** ** overlay.py: the Region Selector *)

Module overlay.

(** The signals of [RegionSelector]. *)
Inductive Signal : Set :=
| region_selected (r : QRect.t)
| switch_to_window
| cancelled.

(** What a handler does besides updating [self], in program order.
    [singleShot ms s] is [QTimer.singleShot(ms, lambda: s.emit(..))]: the
    signal is emitted by the event loop [ms] milliseconds later, not by
    the handler. *)
Inductive Effect : Set :=
| hide
| update
| singleShot (ms : Z) (s : Signal)
| clipboard_setText (rgb : Z * Z * Z)
| super_keyPressEvent.

Inductive MouseButton : Set := LeftButton | RightButton | MiddleButton.

Inductive Key : Set :=
| Key_Escape | Key_Space | Key_S | Key_C | Key_Return | Key_Enter
| Key_PageDown | Key_PageUp | Key_Z
| Key_Up | Key_Down | Key_Left | Key_Right
| Key_Other.

Definition MODE_RECTANGLE : string := "rectangle".
Definition MODE_FREEHAND : string := "freehand".

(** Snap distance in pixels *)
Definition SNAP_DISTANCE : Z := 8.

(** The attributes of a [RegionSelector] that its handlers read or write
    (colours, fonts and magnifier geometry only feed the painter). *)
Record RegionSelector : Type := mkRegionSelector {
  screenshot : QPixmap;
  mode : string;
  selecting : bool;
  start_pos : QPoint.t;
  end_pos : QPoint.t;
  current_pos : QPoint.t;
  freehand_points : list QPoint.t;
  _snap_enabled : bool;
  _snap_edges_h : list Z;
  _snap_edges_v : list Z;
  _snapped_x : option Z;
  _snapped_y : option Z;
  _current_color : Z * Z * Z;
  _desktop_geo : QRect.t
}.

Definition set_snapped (sx sy : option Z) (s : RegionSelector) : RegionSelector :=
  mkRegionSelector (screenshot s) (mode s) (selecting s) (start_pos s) (end_pos s)
    (current_pos s) (freehand_points s) (_snap_enabled s) (_snap_edges_h s)
    (_snap_edges_v s) sx sy (_current_color s) (_desktop_geo s).

Definition set_drag (sel : bool) (sp ep : QPoint.t) (fh : list QPoint.t)
  (s : RegionSelector) : RegionSelector :=
  mkRegionSelector (screenshot s) (mode s) sel sp ep
    (current_pos s) fh (_snap_enabled s) (_snap_edges_h s)
    (_snap_edges_v s) (_snapped_x s) (_snapped_y s) (_current_color s) (_desktop_geo s).

Definition set_current_pos (p : QPoint.t) (s : RegionSelector) : RegionSelector :=
  mkRegionSelector (screenshot s) (mode s) (selecting s) (start_pos s) (end_pos s)
    p (freehand_points s) (_snap_enabled s) (_snap_edges_h s)
    (_snap_edges_v s) (_snapped_x s) (_snapped_y s) (_current_color s) (_desktop_geo s).

Definition set_snap_enabled (b : bool) (s : RegionSelector) : RegionSelector :=
  mkRegionSelector (screenshot s) (mode s) (selecting s) (start_pos s) (end_pos s)
    (current_pos s) (freehand_points s) b (_snap_edges_h s)
    (_snap_edges_v s) (_snapped_x s) (_snapped_y s) (_current_color s) (_desktop_geo s).

(** [sorted(set(..))]: ascending, without duplicates. *)
Fixpoint sorted_insert (v : Z) (l : list Z) : list Z :=
  match l with
  | [] => [v]
  | h :: tl =>
      if v <? h then v :: l
      else if v =? h then l
      else h :: sorted_insert v tl
  end.

Definition sorted_set (l : list Z) : list Z :=
  fold_right sorted_insert [] l.

(** The callback of [_detect_snap_edges] for one window: the vertical
    edges (x values) and the horizontal edges (y values) it adds. *)
Definition window_edges (w : Win32) (geo : QRect.t) (hwnd : HWND)
  : list Z * list Z :=
  if negb (IsWindowVisible w hwnd) then ([], [])
  else if GetWindowTextLengthW w hwnd =? 0 then ([], [])
  else
    let rect := query_RECT w hwnd in
    let x := left rect - QRect.x geo in
    let y := top rect - QRect.y geo in
    let wd := right rect - left rect in
    let ht := bottom rect - top rect in
    if (wd >? 5) && (ht >? 5) then ([x; x + wd], [y; y + ht]) else ([], []).

(** [_detect_snap_edges]: the pair [(_snap_edges_v, _snap_edges_h)]. *)
Definition _detect_snap_edges (h : Host) (geo : QRect.t) : list Z * list Z :=
  if negb (is_win32 h) then ([], [])
  else
    let per_window := List.map (window_edges (user32 h) geo) (EnumWindows (user32 h)) in
    (sorted_set (List.concat (List.map fst per_window)),
     sorted_set (List.concat (List.map snd per_window))).

(** [RegionSelector.__init__] *)
Definition __init__ (h : Host) (shot : QPixmap) (md : string) : RegionSelector :=
  let geo := utils.virtual_geometry h in
  let '(ev, eh) := _detect_snap_edges h geo in
  mkRegionSelector shot md false QPoint.null QPoint.null QPoint.null []
    true eh ev None None (0, 0, 0) geo.

(** The loop [for edge in edges: if abs(c - edge) <= SNAP_DISTANCE: .. break]:
    the edge it stops at, if any. *)
Fixpoint scan_edges (c : Z) (edges : list Z) : option Z :=
  match edges with
  | [] => None
  | edge :: rest =>
      if Z.abs (c - edge) <=? SNAP_DISTANCE then Some edge
      else scan_edges c rest
  end.

(** [_snap_point]: the returned point and the updated selector. *)
Definition _snap_point (s : RegionSelector) (pos : QPoint.t)
  : QPoint.t * RegionSelector :=
  if negb (_snap_enabled s) then (pos, s)
  else
    let x := QPoint.x pos in
    let y := QPoint.y pos in
    let hit_x := scan_edges x (_snap_edges_v s) in
    let hit_y := scan_edges y (_snap_edges_h s) in
    let sx := match hit_x with Some e => e | None => x end in
    let sy := match hit_y with Some e => e | None => y end in
    (QPoint.mk sx sy, set_snapped hit_x hit_y s).

(** [path.boundingRect().toAlignedRect()] of the polyline through integer
    points: the bounding box of the points, of width [max x - min x]. *)
Definition polyline_bounding (p0 : QPoint.t) (rest : list QPoint.t) : QRect.t :=
  let xs := List.map QPoint.x rest in
  let ys := List.map QPoint.y rest in
  let minx := fold_left Z.min xs (QPoint.x p0) in
  let maxx := fold_left Z.max xs (QPoint.x p0) in
  let miny := fold_left Z.min ys (QPoint.y p0) in
  let maxy := fold_left Z.max ys (QPoint.y p0) in
  QRect.xywh minx miny (maxx - minx) (maxy - miny).

Definition mousePressEvent (s : RegionSelector) (button : MouseButton)
  (pos : QPoint.t) : RegionSelector * list Effect :=
  match button with
  | LeftButton =>
      let '(p, s1) :=
        if String.eqb (mode s) MODE_RECTANGLE then _snap_point s pos else (pos, s) in
      let fh := if String.eqb (mode s) MODE_FREEHAND then [pos] else freehand_points s1 in
      (set_drag true p p fh s1, [update])
  | RightButton => (s, [hide; singleShot 50 cancelled])
  | MiddleButton => (s, [])
  end.

Definition mouseMoveEvent (s : RegionSelector) (pos : QPoint.t)
  : RegionSelector * list Effect :=
  let s0 := set_current_pos pos s in
  if selecting s0 then
    let '(e, s1) :=
      if String.eqb (mode s0) MODE_RECTANGLE then _snap_point s0 pos else (pos, s0) in
    let fh :=
      if String.eqb (mode s0) MODE_FREEHAND then freehand_points s1 ++ [pos]
      else freehand_points s1 in
    (set_drag (selecting s1) (start_pos s1) e fh s1, [update])
  else
    (snd (_snap_point s0 pos), [update]).

Definition mouseReleaseEvent (s : RegionSelector) (button : MouseButton)
  (pos : QPoint.t) : RegionSelector * list Effect :=
  match button with
  | LeftButton =>
      if selecting s then
        let '(e, s1) :=
          if String.eqb (mode s) MODE_RECTANGLE then _snap_point s pos else (pos, s) in
        let s2 := set_drag false (start_pos s1) e (freehand_points s1) s1 in
        let use_path :=
          match freehand_points s2 with
          | p0 :: rest =>
              if String.eqb (mode s2) MODE_FREEHAND then Some (p0, rest) else None
          | [] => None
          end in
        match use_path with
        | Some (p0, rest) =>
            let bounding := polyline_bounding p0 rest in
            if (QRect.width bounding >? 2) && (QRect.height bounding >? 2)
            then (s2, [hide; singleShot 50 (region_selected bounding)])
            else (s2, [hide; singleShot 50 cancelled])
        | None =>
            let selection :=
              QRect.normalized (QRect.corners (start_pos s2) (end_pos s2)) in
            if (QRect.width selection >? 2) && (QRect.height selection >? 2)
            then (s2, [hide; singleShot 50 (region_selected selection)])
            else (s2, [hide; singleShot 50 cancelled])
        end
      else (s, [])
  | _ => (s, [])
  end.

Definition keyPressEvent (s : RegionSelector) (key : Key)
  : RegionSelector * list Effect :=
  match key with
  | Key_Escape => (s, [hide; singleShot 50 cancelled])
  | Key_Space => (s, [hide; singleShot 50 switch_to_window])
  | Key_S => (set_snap_enabled (negb (_snap_enabled s)) s, [update])
  | Key_C =>
      if negb (selecting s) then (s, [clipboard_setText (_current_color s)])
      else (s, [super_keyPressEvent])
  | _ => (s, [super_keyPressEvent])
  end.

(** Input events, and the selector run over a sequence of them. *)
Inductive Event : Set :=
| Press (button : MouseButton) (pos : QPoint.t)
| Move (pos : QPoint.t)
| Release (button : MouseButton) (pos : QPoint.t)
| KeyPress (key : Key).

Definition handle (s : RegionSelector) (ev : Event) : RegionSelector * list Effect :=
  match ev with
  | Press b p => mousePressEvent s b p
  | Move p => mouseMoveEvent s p
  | Release b p => mouseReleaseEvent s b p
  | KeyPress k => keyPressEvent s k
  end.

Fixpoint run (s : RegionSelector) (evs : list Event) : RegionSelector * list Effect :=
  match evs with
  | [] => (s, [])
  | ev :: rest =>
      let '(s1, fx1) := handle s ev in
      let '(s2, fx2) := run s1 rest in
      (s2, fx1 ++ fx2)
  end.

(** A rectangle drag: primary button down at [p], pointer moves through
    [via], primary button up at [q]. *)
Definition drag (p : QPoint.t) (via : list QPoint.t) (q : QPoint.t) : list Event :=
  Press LeftButton p :: List.map Move via ++ [Release LeftButton q].

(** The signals a sequence of effects hands to the event loop. *)
Definition deferred_signals (fx : list Effect) : list Signal :=
  List.flat_map (fun e => match e with singleShot _ s => [s] | _ => [] end) fx.

(** [self.magnifier_size] and [self.magnifier_zoom]: set by [__init__],
    never assigned again. *)
Definition magnifier_size : Z := 120.
Definition magnifier_zoom : Z := 4.

(** [_draw_snap_guides]; [width] and [height] are [self.width()] and
    [self.height()]. *)
Definition _draw_snap_guides (s : RegionSelector) (width height : Z) : list PaintOp :=
  (match _snapped_x s with
   | Some sx => [drawLine sx 0 sx height]
   | None => []
   end) ++
  (match _snapped_y s with
   | Some sy => [drawLine 0 sy width sy]
   | None => []
   end).

(** [_draw_magnifier]; [shot_w] and [shot_h] are the width and height of
    [self.screenshot]. *)
Definition _draw_magnifier (s : RegionSelector) (shot_w shot_h width height : Z)
  : list PaintOp :=
  let pos := current_pos s in
  let size := magnifier_size in
  let zoom := magnifier_zoom in
  let src_size := size / zoom in
  let src_rect :=
    QRect.xywh (QPoint.x pos - src_size / 2) (QPoint.y pos - src_size / 2) src_size src_size in
  let mag_x := QPoint.x pos + 24 in
  let mag_y := QPoint.y pos + 24 in
  let mag_x := if mag_x + size + 4 >? width then QPoint.x pos - size - 24 else mag_x in
  let mag_y := if mag_y + size + 4 >? height then QPoint.y pos - size - 24 else mag_y in
  let center := QPoint.mk (mag_x + size / 2) (mag_y + size / 2) in
  let pixel_size := zoom in
  [drawRoundedRect (mag_x - 2) (mag_y - 2) (size + 4) (size + 4);
   drawMagnified mag_x mag_y (QPixmap_copy shot_w shot_h src_rect) size;
   drawLine (QPoint.x center - 6) (QPoint.y center) (QPoint.x center + 6) (QPoint.y center);
   drawLine (QPoint.x center) (QPoint.y center - 6) (QPoint.x center) (QPoint.y center + 6)]
  ++ List.map (fun gx => drawLine gx mag_y gx (mag_y + size))
       (py_range mag_x (mag_x + size) pixel_size)
  ++ List.map (fun gy => drawLine mag_x gy (mag_x + size) gy)
       (py_range mag_y (mag_y + size) pixel_size).

End overlay.


(** ** Python floats

    The animator computes on Python floats.  Its code is embedded once,
    over the operations it uses, and run on two carriers: IEEE binary64
    (what CPython computes) and the exact rationals (where the algebra of
    the easing curve can be stated for every input). *)

Class PyFloat (F : Type) : Type := {
  of_int : Z -> F;
  add : F -> F -> F;
  sub : F -> F -> F;
  mul : F -> F -> F;
  truediv : F -> F -> F;
  neg : F -> F;
  lt : F -> F -> bool;
  le : F -> F -> bool
}.

Definition float_of_int (z : Z) : float :=
  match z with
  | Z0 => PrimFloat.zero
  | Zpos _ => PrimFloat.of_uint63 (Uint63.of_Z z)
  | Zneg p => PrimFloat.opp (PrimFloat.of_uint63 (Uint63.of_Z (Zpos p)))
  end.

#[export] Instance binary64 : PyFloat float := {
  of_int := float_of_int;
  add := PrimFloat.add;
  sub := PrimFloat.sub;
  mul := PrimFloat.mul;
  truediv := PrimFloat.div;
  neg := PrimFloat.opp;
  lt := PrimFloat.ltb;
  le := PrimFloat.leb
}.

#[export] Instance exact : PyFloat Qc := {
  of_int := fun z => Q2Qc (inject_Z z);
  add := Qcplus;
  sub := Qcminus;
  mul := Qcmult;
  truediv := Qcdiv;
  neg := Qcopp;
  lt := fun a b => negb (Qle_bool (this b) (this a));
  le := fun a b => Qle_bool (this a) (this b)
}.

(** ** window_picker.py *)

Module window_picker.

Section Float.
Context {F : Type} {fl : PyFloat F}.

(** Python's [min(a, b)]: [b] when [b < a], else [a]. *)
Definition py_min (a b : F) : F := if lt b a then b else a.

(** Qt: [qAbs], [qMin], [qFuzzyCompare(double, double)]. *)
Definition qAbs (t : F) : F := if le (of_int 0) t then t else neg t.
Definition qMin (a b : F) : F := if lt a b then a else b.
Definition qFuzzyCompare (p1 p2 : F) : bool :=
  le (mul (qAbs (sub p1 p2)) (of_int 1000000000000)) (qMin (qAbs p1) (qAbs p2)).

(** [QRectF]: position and size, as floats. *)
(** Qt's members [xp], [yp], [w], [h]. *)
Record QRectF : Type := mkQRectF { xp : F; yp : F; rw : F; rh : F }.

(** [QRectF()] *)
Definition QRectF_null : QRectF :=
  mkQRectF (of_int 0) (of_int 0) (of_int 0) (of_int 0).
(** [QRectF(r)] for a [QRect] [r]. *)
Definition QRectF_of_QRect (r : QRect.t) : QRectF :=
  mkQRectF (of_int (QRect.x r)) (of_int (QRect.y r))
           (of_int (QRect.width r)) (of_int (QRect.height r)).
Definition QRectF_isEmpty (r : QRectF) : bool :=
  le (rw r) (of_int 0) || le (rh r) (of_int 0).
(** [r1 == r2] on [QRectF] compares the four fields with [qFuzzyCompare]. *)
Definition QRectF_eq (r1 r2 : QRectF) : bool :=
  qFuzzyCompare (xp r1) (xp r2) && qFuzzyCompare (yp r1) (yp r2)
  && qFuzzyCompare (rw r1) (rw r2) && qFuzzyCompare (rh r1) (rh r2).

(** *** Rectangle Animator *)

Record RectAnimator : Type := mkRectAnimator {
  duration : F;
  start_rect : QRectF;
  end_rect : QRectF;
  current_rect : QRectF;
  start_time : F;
  active : bool
}.

(** [RectAnimator(duration_ms)] *)
Definition RectAnimator_init (duration_ms : Z) : RectAnimator :=
  mkRectAnimator (truediv (of_int duration_ms) (of_int 1000))
    QRectF_null QRectF_null QRectF_null (of_int 0) false.

(** [animate_to(target)]; [now] is what [time.monotonic()] returns. *)
Definition animate_to (a : RectAnimator) (target : QRect.t) (now : F) : RectAnimator :=
  let target := QRectF_of_QRect target in
  if QRectF_isEmpty (current_rect a) then
    mkRectAnimator (duration a) (start_rect a) target target (start_time a) (active a)
  else if QRectF_eq target (end_rect a) then a
  else
    mkRectAnimator (duration a) (current_rect a) target (current_rect a) now true.

Definition animate_from_cursor (a : RectAnimator) (cursor_pos : QPoint.t)
  (target : QRect.t) (now : F) : RectAnimator :=
  let target := QRectF_of_QRect target in
  let start :=
    mkQRectF (of_int (QPoint.x cursor_pos)) (of_int (QPoint.y cursor_pos))
             (of_int 0) (of_int 0) in
  mkRectAnimator (duration a) start target start now true.

Definition _quintic_ease_out (t : F) : F :=
  let t := sub t (of_int 1) in
  add (mul (mul (mul (mul t t) t) t) t) (of_int 1).

(** One interpolated field of [tick]:
    [start + (end - start) * e]. *)
Definition lerp (s e_ : F) (e : F) : F := add s (mul (sub e_ s) e).

(** [tick()]: what it returns and the animator afterwards. *)
Definition tick (a : RectAnimator) (now : F) : bool * RectAnimator :=
  if negb (active a) then (false, a)
  else
    let elapsed := sub now (start_time a) in
    let t := py_min (of_int 1) (truediv elapsed (duration a)) in
    let e := _quintic_ease_out t in
    let x := lerp (xp (start_rect a)) (xp (end_rect a)) e in
    let y := lerp (yp (start_rect a)) (yp (end_rect a)) e in
    let w := lerp (rw (start_rect a)) (rw (end_rect a)) e in
    let h := lerp (rh (start_rect a)) (rh (end_rect a)) e in
    let cur := mkQRectF x y w h in
    if le (of_int 1) t then
      (true, mkRectAnimator (duration a) (start_rect a) (end_rect a)
               (end_rect a) (start_time a) false)
    else
      (true, mkRectAnimator (duration a) (start_rect a) (end_rect a)
               cur (start_time a) (active a)).

End Float.

Arguments QRectF F : clear implicits.
Arguments RectAnimator F : clear implicits.

(** *** Window Picker Overlay *)

(** The signals of [WindowPicker]. *)
Inductive Signal : Set :=
| element_selected (r : QRect.t)
| switch_to_region
| cancelled.

(** What a method does besides updating [self], in program order.
    [singleShot ms s] hands the emission of [s] to the event loop, [ms]
    milliseconds later; [emit s] emits it on the spot.  [GetWindow_children p]
    records that the child windows of [p] were asked of user32. *)
Inductive Effect : Set :=
| timer_stop
| hide
| update
| singleShot (ms : Z) (s : Signal)
| emit (s : Signal)
| GetWindow_children (parent : HWND)
| QCursor_setPos (x y : Z)
| super_keyPressEvent.

(** A window node: handle and screen rectangle. *)
Definition Node : Set := HWND * QRect.t.

Section Picker.
Context {F : Type} {fl : PyFloat F}.

Record WindowPicker : Type := mkWindowPicker {
  screenshot : QPixmap;
  current_pos : QPoint.t;
  _top_windows : list Node;
  _child_cache : gmap Z (list Node);
  _parent_stack : list HWND;
  _current_hwnd : HWND;
  _current_rect : QRect.t;
  _animator : RectAnimator F;
  _first_highlight : bool;
  _show_magnifier : bool;
  _own_hwnd : HWND;
  _desktop_offset : QPoint.t;
  _desktop_geo : QRect.t
}.

Definition set_current_pos (p : QPoint.t) (s : WindowPicker) : WindowPicker :=
  mkWindowPicker (screenshot s) p (_top_windows s) (_child_cache s) (_parent_stack s)
    (_current_hwnd s) (_current_rect s) (_animator s) (_first_highlight s)
    (_show_magnifier s) (_own_hwnd s) (_desktop_offset s) (_desktop_geo s).

Definition set_top_windows (own : HWND) (l : list Node) (s : WindowPicker) : WindowPicker :=
  mkWindowPicker (screenshot s) (current_pos s) l (_child_cache s) (_parent_stack s)
    (_current_hwnd s) (_current_rect s) (_animator s) (_first_highlight s)
    (_show_magnifier s) own (_desktop_offset s) (_desktop_geo s).

Definition set_child_cache (c : gmap Z (list Node)) (s : WindowPicker) : WindowPicker :=
  mkWindowPicker (screenshot s) (current_pos s) (_top_windows s) c (_parent_stack s)
    (_current_hwnd s) (_current_rect s) (_animator s) (_first_highlight s)
    (_show_magnifier s) (_own_hwnd s) (_desktop_offset s) (_desktop_geo s).

Definition set_parent_stack (st : list HWND) (s : WindowPicker) : WindowPicker :=
  mkWindowPicker (screenshot s) (current_pos s) (_top_windows s) (_child_cache s) st
    (_current_hwnd s) (_current_rect s) (_animator s) (_first_highlight s)
    (_show_magnifier s) (_own_hwnd s) (_desktop_offset s) (_desktop_geo s).

Definition set_current (hwnd : HWND) (r : QRect.t) (s : WindowPicker) : WindowPicker :=
  mkWindowPicker (screenshot s) (current_pos s) (_top_windows s) (_child_cache s)
    (_parent_stack s) hwnd r (_animator s) (_first_highlight s)
    (_show_magnifier s) (_own_hwnd s) (_desktop_offset s) (_desktop_geo s).

Definition set_current_hwnd (hwnd : HWND) (s : WindowPicker) : WindowPicker :=
  set_current hwnd (_current_rect s) s.

Definition set_animator (a : RectAnimator F) (s : WindowPicker) : WindowPicker :=
  mkWindowPicker (screenshot s) (current_pos s) (_top_windows s) (_child_cache s)
    (_parent_stack s) (_current_hwnd s) (_current_rect s) a (_first_highlight s)
    (_show_magnifier s) (_own_hwnd s) (_desktop_offset s) (_desktop_geo s).

Definition set_first_highlight (b : bool) (s : WindowPicker) : WindowPicker :=
  mkWindowPicker (screenshot s) (current_pos s) (_top_windows s) (_child_cache s)
    (_parent_stack s) (_current_hwnd s) (_current_rect s) (_animator s) b
    (_show_magnifier s) (_own_hwnd s) (_desktop_offset s) (_desktop_geo s).

Definition set_show_magnifier (b : bool) (s : WindowPicker) : WindowPicker :=
  mkWindowPicker (screenshot s) (current_pos s) (_top_windows s) (_child_cache s)
    (_parent_stack s) (_current_hwnd s) (_current_rect s) (_animator s)
    (_first_highlight s) b (_own_hwnd s) (_desktop_offset s) (_desktop_geo s).

(** A method of the picker: from [self] to its result, the new [self]
    and the effects performed. *)
Definition M (A : Type) : Type := WindowPicker -> A * WindowPicker * list Effect.

Definition ret {A : Type} (a : A) : M A := fun s => (a, s, []).
Definition bind {A B : Type} (m : M A) (k : A -> M B) : M B :=
  fun s =>
    let '(a, s1, fx1) := m s in
    let '(b, s2, fx2) := k a s1 in
    (b, s2, fx1 ++ fx2).
Definition gets {A : Type} (f : WindowPicker -> A) : M A := fun s => (f s, s, []).
Definition modify (f : WindowPicker -> WindowPicker) : M unit := fun s => (tt, f s, []).
Definition perform (e : Effect) : M unit := fun s => (tt, s, [e]).

Notation "x <- m ; k" := (bind m (fun x => k))
  (at level 20, m at level 100, k at level 200, only parsing).
Notation "m ;> k" := (bind m (fun _ => k))
  (at level 100, k at level 200, right associativity, only parsing).

(** The calls into the host a method makes read these: the platform and
    user32, the monotonic clock, the cursor position and the overlay's
    own window id. *)
Variable host : Host.
Variable now : F.
Variable QCursor_pos : QPoint.t.
Variable winId : HWND.

(** [WindowPicker.__init__] *)
Definition __init__ (shot : QPixmap) : WindowPicker :=
  let geo := utils.virtual_geometry host in
  mkWindowPicker shot QPoint.null [] ∅ [] 0 QRect.null
    (RectAnimator_init 700) true false 0
    (QPoint.mk (QRect.x geo) (QRect.y geo)) geo.

(** The overlay is moved to the origin of the virtual desktop, so local
    and global coordinates differ by [_desktop_offset]. *)
Definition mapToGlobal (s : WindowPicker) (p : QPoint.t) : QPoint.t :=
  QPoint.mk (QPoint.x p + QPoint.x (_desktop_offset s))
            (QPoint.y p + QPoint.y (_desktop_offset s)).
Definition mapFromGlobal (s : WindowPicker) (p : QPoint.t) : QPoint.t :=
  QPoint.mk (QPoint.x p - QPoint.x (_desktop_offset s))
            (QPoint.y p - QPoint.y (_desktop_offset s)).

Definition _get_win_rect (hwnd : HWND) : QRect.t :=
  let rect := query_RECT (user32 host) hwnd in
  QRect.xywh (left rect) (top rect) (right rect - left rect) (bottom rect - top rect).

Definition _to_display (s : WindowPicker) (screen_rect : QRect.t) : QRect.t :=
  QRect.xywh (QRect.x screen_rect - QPoint.x (_desktop_offset s))
             (QRect.y screen_rect - QPoint.y (_desktop_offset s))
             (QRect.width screen_rect) (QRect.height screen_rect).

(** The loop [while child: .. child = GetWindow(child, GW_HWNDNEXT)]
    walks the sibling chain up to the first null handle. *)
Fixpoint walk_chain (chain : list HWND) : list Node :=
  match chain with
  | [] => []
  | child :: rest =>
      if child =? 0 then []
      else
        let more := walk_chain rest in
        if IsWindowVisible (user32 host) child then
          let rect := _get_win_rect child in
          if (QRect.width rect >? 2) && (QRect.height rect >? 2)
          then (child, rect) :: more
          else more
        else more
  end.

Definition _enum_direct_children (parent_hwnd : HWND) : M (list Node) :=
  cache <- gets _child_cache ;
  match cache !! parent_hwnd with
  | Some children => ret children
  | None =>
      perform (GetWindow_children parent_hwnd) ;>
      let children := walk_chain (GetWindow_chain (user32 host) parent_hwnd) in
      modify (fun s => set_child_cache (<[parent_hwnd := children]> (_child_cache s)) s) ;>
      ret children
  end.

(** The loop [for hwnd, rect in nodes: if rect.contains(sx, sy): return ..]:
    the node it returns at, if any. *)
Fixpoint scan_nodes (nodes : list Node) (sx sy : Z) : option Node :=
  match nodes with
  | [] => None
  | (hwnd, rect) :: rest =>
      if QRect.contains rect sx sy then Some (hwnd, rect)
      else scan_nodes rest sx sy
  end.

Definition _find_window_at (sx sy : Z) : M Node :=
  stack <- gets _parent_stack ;
  match last stack with
  | None =>
      tops <- gets _top_windows ;
      match scan_nodes tops sx sy with
      | Some n => ret n
      | None => ret (0, QRect.null)
      end
  | Some parent =>
      children <- _enum_direct_children parent ;
      match scan_nodes children sx sy with
      | Some n => ret n
      | None => ret (parent, _get_win_rect parent)
      end
  end.

Definition _update_highlight : M unit :=
  if negb (is_win32 host) then ret tt
  else
    s <- gets id ;
    let screen_pos := mapToGlobal s (current_pos s) in
    found <- _find_window_at (QPoint.x screen_pos) (QPoint.y screen_pos) ;
    let '(hwnd, screen_rect) := found in
    if negb (hwnd =? 0) && (QRect.width screen_rect >? 0) then
      s <- gets id ;
      let disp := _to_display s screen_rect in
      if negb (hwnd =? _current_hwnd s) then
        modify (set_current hwnd screen_rect) ;>
        if _first_highlight s then
          modify (fun s => set_animator
                    (animate_from_cursor (_animator s) (current_pos s) disp now) s) ;>
          modify (set_first_highlight false)
        else
          modify (fun s => set_animator (animate_to (_animator s) disp now) s)
      else ret tt
    else if hwnd =? 0 then
      modify (set_current 0 QRect.null)
    else ret tt.

(** The callback of [_init_windows] for one window: whether it is kept. *)
Definition enum_cb (own : HWND) (hwnd : HWND) : option Node :=
  if hwnd =? own then None
  else if negb (IsWindowVisible (user32 host) hwnd) then None
  else if GetWindowTextLengthW (user32 host) hwnd =? 0 then None
  else
    let rect := _get_win_rect hwnd in
    if (QRect.width rect <? 5) || (QRect.height rect <? 5) then None
    else Some (hwnd, rect).

Definition _init_windows : M unit :=
  if negb (is_win32 host) then ret tt
  else
    modify (set_top_windows winId (omap (enum_cb winId) (EnumWindows (user32 host)))) ;>
    modify (fun s => set_current_pos (mapFromGlobal s QCursor_pos) s) ;>
    _update_highlight.

Definition _page_down : M unit :=
  cur <- gets _current_hwnd ;
  if cur =? 0 then ret tt
  else
    children <- _enum_direct_children cur ;
    match children with
    | [] => ret tt
    | _ :: _ =>
        modify (fun s => set_parent_stack (_parent_stack s ++ [_current_hwnd s]) s) ;>
        modify (set_current_hwnd 0) ;>
        modify (set_first_highlight true) ;>
        _update_highlight
    end.

(** The first two statements of [_page_up] past its guard:
    [parent = self._parent_stack.pop()] and
    [self._child_cache.pop(parent, None)]. *)
Definition pop_and_evict (parent : HWND) (s : WindowPicker) : WindowPicker :=
  set_child_cache (delete parent (_child_cache s))
    (set_parent_stack (removelast (_parent_stack s)) s).

Definition _page_up : M unit :=
  stack <- gets _parent_stack ;
  match last stack with
  | None => ret tt
  | Some parent =>
      modify (pop_and_evict parent) ;>
      modify (set_current_hwnd 0) ;>
      modify (set_first_highlight true) ;>
      _update_highlight
  end.

(** [QCursor.setPos] is taken to move the cursor where asked, so that the
    [QCursor.pos()] read back is the requested position. *)
Definition _nudge_cursor (dx dy : Z) : M unit :=
  let target := QPoint.mk (QPoint.x QCursor_pos + dx) (QPoint.y QCursor_pos + dy) in
  perform (QCursor_setPos (QPoint.x target) (QPoint.y target)) ;>
  modify (fun s => set_current_pos (mapFromGlobal s target) s) ;>
  _update_highlight.

Definition _on_tick : M unit :=
  a <- gets _animator ;
  let '(repaint, a') := tick a now in
  modify (set_animator a') ;>
  if repaint then perform update else ret tt.

Definition mouseMoveEvent (pos : QPoint.t) : M unit :=
  modify (set_current_pos pos) ;>
  _update_highlight.

Definition mousePressEvent (button : overlay.MouseButton) : M unit :=
  match button with
  | overlay.LeftButton =>
      s <- gets id ;
      if negb (QRect.isEmpty (_current_rect s)) then
        perform timer_stop ;>
        perform hide ;>
        let result_rect := _to_display s (_current_rect s) in
        perform (singleShot 50 (element_selected result_rect))
      else ret tt
  | overlay.RightButton =>
      perform timer_stop ;>
      perform hide ;>
      perform (singleShot 50 cancelled)
  | overlay.MiddleButton => ret tt
  end.

Definition keyPressEvent (key : overlay.Key) (ctrl : bool) : M unit :=
  let step := if ctrl then 10 else 1 in
  match key with
  | overlay.Key_Escape =>
      perform timer_stop ;>
      perform hide ;>
      perform (singleShot 50 cancelled)
  | overlay.Key_Return | overlay.Key_Enter =>
      s <- gets id ;
      if negb (QRect.isEmpty (_current_rect s)) then
        perform timer_stop ;>
        perform hide ;>
        let result_rect := _to_display s (_current_rect s) in
        perform (singleShot 50 (element_selected result_rect))
      else ret tt
  | overlay.Key_Space =>
      perform timer_stop ;>
      perform (emit switch_to_region)
  | overlay.Key_PageDown => _page_down
  | overlay.Key_PageUp => _page_up
  | overlay.Key_Z =>
      modify (fun s => set_show_magnifier (negb (_show_magnifier s)) s) ;>
      perform update
  | overlay.Key_Up => _nudge_cursor 0 (- step)
  | overlay.Key_Down => _nudge_cursor 0 step
  | overlay.Key_Left => _nudge_cursor (- step) 0
  | overlay.Key_Right => _nudge_cursor step 0
  | _ => perform super_keyPressEvent
  end.

(** [self._magnifier_size] and [self._magnifier_zoom]: set by [__init__],
    never assigned again. *)
Definition _magnifier_size : Z := 120.
Definition _magnifier_zoom : Z := 4.

(** [_draw_magnifier]; [paintEvent] calls it when [_show_magnifier].
    [shot_w] and [shot_h] are the width and height of [self.screenshot]. *)
Definition _draw_magnifier (s : WindowPicker) (shot_w shot_h width height : Z)
  : list PaintOp :=
  let pos := current_pos s in
  let sz := _magnifier_size in
  let zm := _magnifier_zoom in
  let src_sz := sz / zm in
  let src :=
    QRect.xywh (QPoint.x pos - src_sz / 2) (QPoint.y pos - src_sz / 2) src_sz src_sz in
  let mx := QPoint.x pos + 24 in
  let my := QPoint.y pos + 24 in
  let mx := if mx + sz + 4 >? width then QPoint.x pos - sz - 24 else mx in
  let my := if my + sz + 4 >? height then QPoint.y pos - sz - 24 else my in
  let cx := mx + sz / 2 in
  let cy := my + sz / 2 in
  [drawRoundedRect (mx - 2) (my - 2) (sz + 4) (sz + 4);
   drawMagnified mx my (QPixmap_copy shot_w shot_h src) sz;
   drawLine (cx - 8) cy (cx + 8) cy;
   drawLine cx (cy - 8) cx (cy + 8)].

End Picker.

(** What reaches the picker, each event with what the host reports when
    it is handled: [Shown] is the deferred [_init_windows] of [showEvent],
    with the cursor position and the overlay's window id; a key press
    comes with the cursor position its arrow keys read. *)
Inductive Event : Set :=
| Shown (cursor : QPoint.t) (winId : HWND)
| Move (pos : QPoint.t)
| Press (button : overlay.MouseButton)
| KeyPress (key : overlay.Key) (ctrl : bool) (cursor : QPoint.t)
| Tick.

Section PickerRun.
Context {F : Type} {fl : PyFloat F}.
Variable host : Host.

Definition handle (now : F) (ev : Event) : M unit :=
  match ev with
  | Shown cursor winId => _init_windows host now cursor winId
  | Move pos => mouseMoveEvent host now pos
  | Press button => mousePressEvent button
  | KeyPress key ctrl cursor => keyPressEvent host now cursor key ctrl
  | Tick => _on_tick now
  end.

(** The picker run over a sequence of events, each at its reading of the
    monotonic clock. *)
Fixpoint run (s : WindowPicker) (evs : list (F * Event)) : WindowPicker * list Effect :=
  match evs with
  | [] => (s, [])
  | (now, ev) :: rest =>
      let '(_, s1, fx1) := handle now ev s in
      let '(s2, fx2) := run s1 rest in
      (s2, fx1 ++ fx2)
  end.

(** The signals a sequence of effects emits or hands to the event loop. *)
Definition signals (fx : list Effect) : list Signal :=
  List.flat_map
    (fun e => match e with singleShot _ sig => [sig] | emit sig => [sig] | _ => [] end) fx.

End PickerRun.

Arguments WindowPicker F : clear implicits.

End window_picker.


(** ** app.py: the overlay plumbing of [SwiftShotApp] *)

Module app.

(** What [QTimer.singleShot(50, ..)] was handed by the app. *)
Inductive Deferred : Set :=
| start_window_picker (full_screenshot : QPixmap)
| overlay_show_spanning.

(** What a method does besides updating [self], in program order.
    [crop_then_ocr] and [crop_then_handle] are
    [CaptureManager.crop_image(full_screenshot, rect)] followed by
    [_do_ocr] respectively [_handle_capture] on a non-empty result. *)
Inductive Effect : Set :=
| capture_fullscreen
| overlay_hide_close
| picker_hide_close
| overlay_show
| picker_show
| save_LAST_REGION (x y w h : Z)
| crop_then_ocr (full_screenshot : QPixmap) (rect : QRect.t)
| crop_then_handle (full_screenshot : QPixmap) (rect : QRect.t)
| _timed_capture_region (rect : QRect.t)
| singleShot (ms : Z) (d : Deferred).

Section App.
Context {F : Type} {fl : PyFloat F}.

(** The host, whether the [n]-th [capture_fullscreen()] returns a pixmap,
    and the two settings read from [config]. *)
Variable host : Host.
Variable capture_ok : nat -> bool.
Variable CAPTURE_TIMER_ENABLED : bool.
Variable CAPTURE_TIMER_SECONDS : Z.

(** A [RegionSelector] as the app holds it: the widget, the attributes
    the app sets on it, which are also the values the lambdas connected to
    its signals close over. *)
Record RegionOverlay : Type := mkRegionOverlay {
  selector : overlay.RegionSelector;
  _ocr_mode : bool;
  _full_screenshot : QPixmap
}.

Record PickerOverlay : Type := mkPickerOverlay {
  picker : window_picker.WindowPicker F;
  picker_full_screenshot : QPixmap
}.

(** [grabbed] counts the calls of [capture_fullscreen()] so far; [timers]
    are the pending single-shot timers, oldest first. *)
Record SwiftShotApp : Type := mkApp {
  _overlay : option RegionOverlay;
  _window_picker : option PickerOverlay;
  grabbed : nat;
  timers : list Deferred
}.

Definition App_init : SwiftShotApp := mkApp None None 0 [].

Definition _close_overlay (a : SwiftShotApp) : SwiftShotApp * list Effect :=
  match _overlay a with
  | Some _ => (mkApp None (_window_picker a) (grabbed a) (timers a), [overlay_hide_close])
  | None => (a, [])
  end.

Definition _close_window_picker (a : SwiftShotApp) : SwiftShotApp * list Effect :=
  match _window_picker a with
  | Some _ => (mkApp (_overlay a) None (grabbed a) (timers a), [picker_hide_close])
  | None => (a, [])
  end.

Definition _start_region_overlay (md : string) (ocr_mode : bool) (a : SwiftShotApp)
  : SwiftShotApp * list Effect :=
  let n := grabbed a in
  if capture_ok n then
    let ov := mkRegionOverlay (overlay.__init__ host n md) ocr_mode n in
    (mkApp (Some ov) (_window_picker a) (S n) (timers a), [capture_fullscreen; overlay_show])
  else
    (mkApp (_overlay a) (_window_picker a) (S n) (timers a), [capture_fullscreen]).

Definition _on_region_selected (full_screenshot : QPixmap) (rect : QRect.t)
  (ocr_mode : bool) (a : SwiftShotApp) : SwiftShotApp * list Effect :=
  let '(a1, fx) := _close_overlay a in
  if (QRect.width rect <? 1) || (QRect.height rect <? 1) then (a1, fx)
  else
    let saved :=
      save_LAST_REGION (QRect.x rect) (QRect.y rect) (QRect.width rect) (QRect.height rect) in
    if ocr_mode then (a1, fx ++ [saved; crop_then_ocr full_screenshot rect])
    else if CAPTURE_TIMER_ENABLED && (CAPTURE_TIMER_SECONDS >? 0)
    then (a1, fx ++ [saved; _timed_capture_region rect])
    else (a1, fx ++ [saved; crop_then_handle full_screenshot rect]).

Definition _start_window_picker (full_screenshot : QPixmap) (a : SwiftShotApp)
  : SwiftShotApp * list Effect :=
  let '(a1, fx) := _close_window_picker a in
  let pk := mkPickerOverlay (window_picker.__init__ host full_screenshot) full_screenshot in
  (mkApp (_overlay a1) (Some pk) (grabbed a1) (timers a1), fx ++ [picker_show]).

Definition _do_window_capture (a : SwiftShotApp) : SwiftShotApp * list Effect :=
  let n := grabbed a in
  let a1 := mkApp (_overlay a) (_window_picker a) (S n) (timers a) in
  if capture_ok n then
    let '(a2, fx) := _start_window_picker n a1 in (a2, capture_fullscreen :: fx)
  else (a1, [capture_fullscreen]).

Definition _on_window_selected (full_screenshot : QPixmap) (rect : QRect.t)
  (a : SwiftShotApp) : SwiftShotApp * list Effect :=
  let '(a1, fx) := _close_window_picker a in
  if (QRect.width rect <? 1) || (QRect.height rect <? 1) then (a1, fx)
  else if CAPTURE_TIMER_ENABLED && (CAPTURE_TIMER_SECONDS >? 0)
  then (a1, fx ++ [_timed_capture_region rect])
  else (a1, fx ++ [crop_then_handle full_screenshot rect]).

Definition _switch_to_window_mode (full_screenshot : QPixmap) (a : SwiftShotApp)
  : SwiftShotApp * list Effect :=
  let '(a1, fx) := _close_overlay a in
  let d := start_window_picker full_screenshot in
  (mkApp (_overlay a1) (_window_picker a1) (grabbed a1) (timers a1 ++ [d]),
   fx ++ [singleShot 50 d]).

Definition _switch_to_region_mode (full_screenshot : QPixmap) (a : SwiftShotApp)
  : SwiftShotApp * list Effect :=
  let '(a1, fx) := _close_window_picker a in
  let ov :=
    mkRegionOverlay (overlay.__init__ host full_screenshot overlay.MODE_RECTANGLE)
      false full_screenshot in
  (mkApp (Some ov) (_window_picker a1) (grabbed a1) (timers a1 ++ [overlay_show_spanning]),
   fx ++ [singleShot 50 overlay_show_spanning]).

(** The slots connected to the signals of the current region overlay. *)
Definition on_overlay_signal (sig : overlay.Signal) (a : SwiftShotApp)
  : SwiftShotApp * list Effect :=
  match _overlay a with
  | None => (a, [])
  | Some ov =>
      match sig with
      | overlay.region_selected rect =>
          _on_region_selected (_full_screenshot ov) rect (_ocr_mode ov) a
      | overlay.switch_to_window => _switch_to_window_mode (_full_screenshot ov) a
      | overlay.cancelled => _close_overlay a
      end
  end.

(** The slots connected to the signals of the current window picker. *)
Definition on_picker_signal (sig : window_picker.Signal) (a : SwiftShotApp)
  : SwiftShotApp * list Effect :=
  match _window_picker a with
  | None => (a, [])
  | Some pk =>
      match sig with
      | window_picker.element_selected rect =>
          _on_window_selected (picker_full_screenshot pk) rect a
      | window_picker.switch_to_region =>
          _switch_to_region_mode (picker_full_screenshot pk) a
      | window_picker.cancelled => _close_window_picker a
      end
  end.

(** The oldest pending single-shot timer fires. *)
Definition on_timer (a : SwiftShotApp) : SwiftShotApp * list Effect :=
  match timers a with
  | [] => (a, [])
  | d :: rest =>
      let a1 := mkApp (_overlay a) (_window_picker a) (grabbed a) rest in
      match d with
      | start_window_picker full_screenshot => _start_window_picker full_screenshot a1
      | overlay_show_spanning =>
          match _overlay a1 with
          | Some _ => (a1, [overlay_show])
          | None => (a1, [])
          end
      end
  end.

(** What reaches the app while a selector session runs. *)
Inductive Event : Type :=
| from_overlay (sig : overlay.Signal)
| from_picker (sig : window_picker.Signal)
| timer_fires.

Definition step (a : SwiftShotApp) (ev : Event) : SwiftShotApp * list Effect :=
  match ev with
  | from_overlay sig => on_overlay_signal sig a
  | from_picker sig => on_picker_signal sig a
  | timer_fires => on_timer a
  end.

Fixpoint run (a : SwiftShotApp) (evs : list Event) : SwiftShotApp * list Effect :=
  match evs with
  | [] => (a, [])
  | ev :: rest =>
      let '(a1, fx1) := step a ev in
      let '(a2, fx2) := run a1 rest in
      (a2, fx1 ++ fx2)
  end.



End App.

Arguments PickerOverlay F : clear implicits.
Arguments SwiftShotApp F : clear implicits.

End app.


(* ===================================================================== *)
(** * Part II: the vocabulary of the specification, and examples *)
(* ===================================================================== *)

(** ** Region Selector: edge snapping *)

Section Snapping.
Import overlay.

(** An edge [e] is within tolerance of the coordinate [c]. *)
Definition within (c e : Z) : Prop := Z.abs (c - e) <= SNAP_DISTANCE.

(** The specification's [query(axis, coordinate)], in its words: the
    first stored value within tolerance, or the coordinate itself when
    there is none. *)
Inductive snaps_to (c : Z) : list Z -> Z -> Prop :=
| snaps_to_first (pre post : list Z) (e : Z) :
    Forall (fun e' => ~ within c e') pre -> within c e ->
    snaps_to c (pre ++ e :: post) e
| snaps_to_self (edges : list Z) :
    Forall (fun e' => ~ within c e') edges ->
    snaps_to c edges c.

(** What [_snap_point] leaves alone. *)
Definition same_setup (s s' : RegionSelector) : Prop :=
  screenshot s' = screenshot s /\ mode s' = mode s /\
  _snap_enabled s' = _snap_enabled s /\
  _snap_edges_h s' = _snap_edges_h s /\ _snap_edges_v s' = _snap_edges_v s /\
  _desktop_geo s' = _desktop_geo s.

End Snapping.

(** ** Region Selector: a rectangle drag *)

Section Dragging.
Import overlay.

(** The selector [s] is in the middle of a drag that began on [s0] with
    anchor [a]. *)
Definition dragging_from (s0 s : RegionSelector) (a : QPoint.t) : Prop :=
  same_setup s0 s /\ selecting s = true /\ start_pos s = a.

(** What the release of a rectangle drag with corners [a] and [b] does. *)
Definition release_effects (a b : QPoint.t) : list Effect :=
  let selection := QRect.normalized (QRect.corners a b) in
  if (QRect.width selection >? 2) && (QRect.height selection >? 2)
  then [hide; singleShot 50 (region_selected selection)]
  else [hide; singleShot 50 cancelled].

End Dragging.

(** ** Region Selector: vocabulary and examples *)

Section RegionClaims.
Import overlay.

(** A host that is not Windows, with one 1920x1080 screen: the selector
    it creates has an empty Snap Index. *)
Definition no_windows : Win32 :=
  mkWin32 [] (fun _ => false) (fun _ => 0) (fun _ => None) (fun _ => None) (fun _ => []).
Definition plain_host : Host := mkHost false no_windows [QRect.xywh 0 0 1920 1080].
Definition plain_selector : RegionSelector := __init__ plain_host 0%nat MODE_RECTANGLE.

(** A Windows host with one titled, visible window whose frame is
    [RECT(5, 5, 300, 300)]. *)
Definition one_window : Win32 :=
  mkWin32 [1] (fun _ => true) (fun _ => 7)
    (fun _ => Some (mkRECT 5 5 300 300)) (fun _ => None) (fun _ => []).
Definition one_window_host : Host := mkHost true one_window [QRect.xywh 0 0 1920 1080].
Definition snapping_selector : RegionSelector :=
  __init__ one_window_host 0%nat MODE_RECTANGLE.

End RegionClaims.

(** ** Region Selector to orchestrator: the emitted rectangle *)

Section EmittedRectangle.
Import overlay.

(** The two monitors of the end-to-end scenario, on any host. *)
Definition two_monitors (win32 : bool) (w : Win32) : Host :=
  mkHost win32 w [QRect.xywh 0 0 1920 1080; QRect.xywh 1920 0 1280 1024].

(** A secondary monitor to the left of the primary one: the virtual
    desktop begins at x = -1920. *)
Definition left_monitor_host : Host :=
  mkHost false no_windows [QRect.xywh 0 0 1920 1080; QRect.xywh (-1920) 0 1920 1080].
Definition left_monitor_selector : RegionSelector :=
  __init__ left_monitor_host 0%nat MODE_RECTANGLE.

(** What the orchestrator does with a confirmed rectangle, past closing
    the overlay and saving the region: it crops the snapshot with it, or
    starts the timed capture of it. *)
Definition hands_on_unchanged (full : QPixmap) (rect : QRect.t) (fx : list app.Effect) : Prop :=
  exists last_step,
    fx = [app.overlay_hide_close;
          app.save_LAST_REGION (QRect.x rect) (QRect.y rect)
            (QRect.width rect) (QRect.height rect);
          last_step] /\
    (last_step = app.crop_then_ocr full rect \/
     last_step = app._timed_capture_region rect \/
     last_step = app.crop_then_handle full rect).

(** The selector of the scenario, on a Windows host with one window. *)
Definition scenario_selector : RegionSelector :=
  __init__ (two_monitors true one_window) 0%nat MODE_RECTANGLE.

End EmittedRectangle.

(** ** Rectangle Animator *)

Section AnimatorAnyFloat.
Import window_picker.
Context {F : Type} {fl : PyFloat F}.

(** Milliseconds as the seconds the monotonic clock counts in, computed
    as the constructor does for [duration_ms]. *)
Definition ms (n : Z) : F := truediv (of_int n) (of_int 1000).

(** The animator of the specification's example: 700 ms, from the
    zero-size rectangle at (0,0) to (10,10,100,100), started at time 0. *)
Definition example_animator : RectAnimator F :=
  animate_from_cursor (RectAnimator_init 700) (QPoint.mk 0 0)
    (QRect.xywh 10 10 100 100) (of_int 0).

(** Strictly between on every field. *)
Definition strictly_between (lo c hi : QRectF F) : bool :=
  lt (xp lo) (xp c) && lt (xp c) (xp hi) &&
  lt (yp lo) (yp c) && lt (yp c) (yp hi) &&
  lt (rw lo) (rw c) && lt (rw c) (rw hi) &&
  lt (rh lo) (rh c) && lt (rh c) (rh hi).

(** An animator whose animation has ended on its target. *)
Definition finished (a : RectAnimator F) : RectAnimator F :=
  mkRectAnimator (duration a) (start_rect a) (end_rect a) (end_rect a)
    (start_time a) false.

End AnimatorAnyFloat.

(** ** Rectangle Animator: the curve over the rationals *)

Section AnimatorExact.
Import window_picker.
Local Open Scope Qc_scope.

(** The specification's curve, in its words: [t] clamped to [0,1], the
    eased progress [1 - (1 - t)^5], and the interpolation of each of the
    four fields by it. *)
Definition clamp01 (x : Qc) : Qc :=
  if Qclt_le_dec x 0 then 0 else if Qclt_le_dec x 1 then x else 1.

Definition eased_progress (t : Qc) : Qc := 1 - (1 - t) ^ 5.

Definition interpolate (s e : QRectF Qc) (progress : Qc) : QRectF Qc :=
  mkQRectF (xp s + (xp e - xp s) * progress) (yp s + (yp e - yp s) * progress)
           (rw s + (rw e - rw s) * progress) (rh s + (rh e - rh s) * progress).

End AnimatorExact.

(** ** Window Picker: the hit tree *)

Section PickerTree.
Import window_picker.
Context {F : Type} {fl : PyFloat F}.
Variable host : Host.

(** The three components of what a method yields. *)
Definition result {A : Type} (r : A * WindowPicker F * list Effect) : A := fst (fst r).
Definition state {A : Type} (r : A * WindowPicker F * list Effect) : WindowPicker F :=
  snd (fst r).
Definition effects {A : Type} (r : A * WindowPicker F * list Effect) : list Effect := snd r.

(** What the hit test and the highlight never touch. *)
Definition same_frame (s s' : WindowPicker F) : Prop :=
  screenshot s' = screenshot s /\ current_pos s' = current_pos s /\
  _top_windows s' = _top_windows s /\ _parent_stack s' = _parent_stack s /\
  _own_hwnd s' = _own_hwnd s /\ _desktop_offset s' = _desktop_offset s /\
  _desktop_geo s' = _desktop_geo s /\ _show_magnifier s' = _show_magnifier s.

(** The freshly enumerated children of [parent]. *)
Definition fresh_children (parent : HWND) : list Node :=
  walk_chain host (GetWindow_chain (user32 host) parent).

(** The node a scan of [nodes] returns, else [fallback]. *)
Definition hit_or (nodes : list Node) (sx sy : Z) (fallback : Node) : Node :=
  match scan_nodes nodes sx sy with Some n => n | None => fallback end.

(** A node as the enumerations keep it: a real handle and a rectangle
    of positive width. *)
Definition node_ok (n : Node) : Prop := fst n <> 0 /\ 0 < QRect.width (snd n).

(** The invariant of the hit tree. *)
Definition picker_ok (s : WindowPicker F) : Prop :=
  Forall node_ok (_top_windows s) /\
  (forall p l, _child_cache s !! p = Some l -> Forall node_ok l) /\
  Forall (fun hwnd => hwnd <> 0) (_parent_stack s).

(** The rectangle of a node misses the point [g]. *)
Definition misses (g : QPoint.t) (n : Node) : Prop :=
  QRect.contains (snd n) (QPoint.x g) (QPoint.y g) = false.

(** The node [n] has become the highlight of [s']: the highlighted handle
    is its handle and the highlighted rectangle is its rectangle, except
    that a node which was the highlighted one in [s] already is left as it
    was. *)
Definition highlights (s s' : WindowPicker F) (n : Node) : Prop :=
  _current_hwnd s' = fst n /\
  _current_rect s' = (if fst n =? _current_hwnd s then _current_rect s else snd n).

(** The highlight of [s'] is that of [s]. *)
Definition same_highlight (s s' : WindowPicker F) : Prop :=
  _current_hwnd s' = _current_hwnd s /\ _current_rect s' = _current_rect s.

End PickerTree.

(** ** Window Picker: vocabulary and examples *)

Section PickerClaims.
Import window_picker.

(** What the two terminal transitions of the picker do, in order: stop
    the animation timer, hide the overlay, and only then hand the
    emission of the terminal signal to the event loop, 50 ms later. *)
Definition teardown_then_deferred (sig : Signal) : list Effect :=
  [timer_stop; hide; singleShot 50 sig].

End PickerClaims.

(** ** Window Picker: a window with one small child *)

Section NestedWindow.
Import window_picker.

(** A Windows host: the titled, visible top-level window 1 with frame
    [RECT(0, 0, 100, 100)], whose only child is window 2 with frame
    [RECT(0, 0, 10, 10)]. *)
Definition nested_windows : Win32 :=
  mkWin32 [1] (fun _ => true) (fun _ => 7)
    (fun hwnd => if hwnd =? 1 then Some (mkRECT 0 0 100 100)
                 else if hwnd =? 2 then Some (mkRECT 0 0 10 10) else None)
    (fun _ => None)
    (fun hwnd => if hwnd =? 1 then [2] else []).
Definition nested_host : Host := mkHost true nested_windows [QRect.xywh 0 0 1920 1080].

(** The picker over it, with the cursor at (50,50): inside window 1 and
    outside its child. *)
Definition key (k : overlay.Key) (s : WindowPicker float) : unit * WindowPicker float * list Effect :=
  keyPressEvent nested_host (of_int 0) (QPoint.mk 50 50) k false s.

Definition picker_shown : WindowPicker float :=
  state (_init_windows nested_host (of_int 0) (QPoint.mk 50 50) 99 (__init__ nested_host 0%nat)).
Definition picker_in_1 : WindowPicker float := state (key overlay.Key_PageDown picker_shown).
Definition picker_in_1_again : WindowPicker float := state (key overlay.Key_PageDown picker_in_1).
Definition picker_back_in_1 : WindowPicker float := state (key overlay.Key_PageUp picker_in_1_again).

(** The same picker below window 1, once the pointer has been moved onto
    the child at (5,5): the child is highlighted. *)
Definition picker_on_child : WindowPicker float :=
  state (mouseMoveEvent nested_host (of_int 0) (QPoint.mk 5 5) picker_in_1).

(** The host after window 1 has been destroyed: neither dwmapi nor
    user32 reports a rectangle for it any more, so the zero [RECT] is
    read. *)
Definition parent_destroyed : Win32 :=
  mkWin32 [1] (fun _ => true) (fun _ => 7)
    (fun hwnd => if hwnd =? 2 then Some (mkRECT 0 0 10 10) else None)
    (fun _ => None)
    (fun hwnd => if hwnd =? 1 then [2] else []).
Definition parent_destroyed_host : Host :=
  mkHost true parent_destroyed [QRect.xywh 0 0 1920 1080].

End NestedWindow.

(** ** Orchestrator: one Snapshot per session *)

Section Orchestrator.
Import app.
Context {F : Type} {fl : PyFloat F}.
Variable host : Host.


End Orchestrator.


(** ** Region Selector: further vocabulary *)

Section RegionVocabulary.
Import overlay.

(** A window whose edges [_detect_snap_edges] takes into the index:
    visible, titled, and more than 5 pixels wide and high. *)
Definition snap_window (w : Win32) (hwnd : HWND) : Prop :=
  IsWindowVisible w hwnd = true /\ GetWindowTextLengthW w hwnd <> 0 /\
  5 < right (query_RECT w hwnd) - left (query_RECT w hwnd) /\
  5 < bottom (query_RECT w hwnd) - top (query_RECT w hwnd).

(** What no handler writes: the Snap Index, the mode, the Snapshot and
    the geometry. *)
Definition same_index (s s' : RegionSelector) : Prop :=
  screenshot s' = screenshot s /\ mode s' = mode s /\
  _snap_edges_h s' = _snap_edges_h s /\ _snap_edges_v s' = _snap_edges_v s /\
  _desktop_geo s' = _desktop_geo s.

(** The key press that toggles snapping, and how often a sequence of
    events holds it. *)
Definition is_snap_toggle (ev : Event) : bool :=
  match ev with KeyPress Key_S => true | _ => false end.
Definition snap_toggles (evs : list Event) : nat :=
  length (List.filter is_snap_toggle evs).

(** The selector is in the middle of a freehand drag through [pts]. *)
Definition freehand_dragging (s : RegionSelector) (pts : list QPoint.t) : Prop :=
  mode s = MODE_FREEHAND /\ selecting s = true /\ freehand_points s = pts.

(** What the release of a freehand drag over the points [p0 :: rest]
    does. *)
Definition freehand_release_effects (p0 : QPoint.t) (rest : list QPoint.t) : list Effect :=
  let bounding := polyline_bounding p0 rest in
  if (QRect.width bounding >? 2) && (QRect.height bounding >? 2)
  then [hide; singleShot 50 (region_selected bounding)]
  else [hide; singleShot 50 cancelled].

(** A selector on which snapping was switched off while a guide was
    shown: the pointer was at (7,7), 2 pixels from the window edges at 5,
    when S was pressed. *)
Definition selector_snapping_off : RegionSelector :=
  fst (run snapping_selector [Move (QPoint.mk 7 7); KeyPress Key_S]).

(** A freehand selector. *)
Definition freehand_selector : RegionSelector := __init__ plain_host 0%nat MODE_FREEHAND.

End RegionVocabulary.

(** ** The magnifier *)

Section MagnifierVocabulary.

(** A line drawn over the magnifier whose image has its corner at
    [(mx, my)]: it stays within the square from [(mx, my)] to
    [(mx + 120, my + 120)], at most one pixel past the image, which spans
    [mx .. mx + 119], and inside the frame, which spans
    [mx - 2 .. mx + 121]. *)
Definition inside_magnifier (mx my : Z) (op : PaintOp) : Prop :=
  match op with
  | drawLine x1 y1 x2 y2 =>
      mx <= x1 <= mx + 120 /\ mx <= x2 <= mx + 120 /\
      my <= y1 <= my + 120 /\ my <= y2 <= my + 120
  | _ => False
  end.

(** The pointer is on a Snapshot of [sw] by [sh] pixels, sizes and
    coordinates being far from the limits of a C [int]. *)
Definition on_snapshot (sw sh : Z) (pos : QPoint.t) : Prop :=
  0 <= QPoint.x pos < sw /\ 0 <= QPoint.y pos < sh /\
  sw <= 1073741824 /\ sh <= 1073741824.

(** What is painted is a magnifier for the pointer at [pos], over a
    Snapshot of [sw] by [sh] pixels, on a widget of the given size: a
    124-pixel frame around a 120-pixel image; the lines drawn on top stay
    within the frame; the image keeps 24 pixels away from the pointer on
    both axes; on an axis along which the widget measures at least 293
    pixels and holds the pointer the frame is inside the widget; and,
    with the pointer on the Snapshot, the image is made of the pixels of
    the 30-pixel square around the pointer that are on the Snapshot,
    the pointer's pixel among them, which is the whole square when the
    pointer is at least 15 pixels away from the Snapshot's edges. *)
Definition magnifies (pos : QPoint.t) (sw sh width height : Z) (ops : list PaintOp) : Prop :=
  exists mx my copied rest,
    ops = drawRoundedRect (mx - 2) (my - 2) 124 124
          :: drawMagnified mx my copied 120 :: rest /\
    Forall (inside_magnifier mx my) rest /\
    (QPoint.x pos + 24 <= mx \/ mx + 120 + 24 <= QPoint.x pos) /\
    (QPoint.y pos + 24 <= my \/ my + 120 + 24 <= QPoint.y pos) /\
    (293 <= width -> 0 <= QPoint.x pos < width -> 0 <= mx - 2 /\ mx - 2 + 124 <= width) /\
    (293 <= height -> 0 <= QPoint.y pos < height -> 0 <= my - 2 /\ my - 2 + 124 <= height) /\
    (on_snapshot sw sh pos ->
     (forall qx qy, QRect.contains copied qx qy = true <->
        QPoint.x pos - 15 <= qx <= QPoint.x pos + 14 /\
        QPoint.y pos - 15 <= qy <= QPoint.y pos + 14 /\
        0 <= qx < sw /\ 0 <= qy < sh) /\
     QRect.contains copied (QPoint.x pos) (QPoint.y pos) = true /\
     (15 <= QPoint.x pos <= sw - 15 -> 15 <= QPoint.y pos <= sh - 15 ->
      copied = QRect.xywh (QPoint.x pos - 15) (QPoint.y pos - 15) 30 30)).

End MagnifierVocabulary.


(** ** Window Picker: what it can confirm *)

Section PickerVocabulary.
Import window_picker.
Context {F : Type} {fl : PyFloat F}.
Variable host : Host.

(** A node carries the frame the host reports for its handle. *)
Definition framed (n : Node) : Prop := snd n = _get_win_rect host (fst n).

(** Every node of the hit tree is framed. *)
Definition tree_framed (s : WindowPicker F) : Prop :=
  Forall framed (_top_windows s) /\
  (forall p l, _child_cache s !! p = Some l -> Forall framed l).

(** The highlighted rectangle is the null rectangle or the frame of a
    window. *)
Definition shows_frame (s : WindowPicker F) : Prop :=
  _current_rect s = QRect.null \/ exists hwnd, _current_rect s = _get_win_rect host hwnd.

(** Nothing is highlighted. *)
Definition inert (s : WindowPicker F) : Prop :=
  _current_hwnd s = 0 /\ _current_rect s = QRect.null.

(** The invariant of a picker created on [host]. *)
Definition picker_framed (s : WindowPicker F) : Prop :=
  tree_framed s /\ shows_frame s /\
  _desktop_offset s = QPoint.mk (QRect.x (utils.virtual_geometry host))
                                (QRect.y (utils.virtual_geometry host)) /\
  (is_win32 host = false -> inert s).




(** The handle [c] is reached by the walk along the sibling chain
    [chain], which stops at the first null handle. *)
Definition reached (chain : list HWND) (c : HWND) : Prop :=
  exists pre post, chain = pre ++ c :: post /\ Forall (fun h => h <> 0) pre /\ c <> 0.

(** The part of a sibling chain before its first null handle. *)
Fixpoint until_null (chain : list HWND) : list HWND :=
  match chain with
  | [] => []
  | c :: rest => if c =? 0 then [] else c :: until_null rest
  end.

(** A child window that the enumeration keeps: visible, with a frame more
    than 2 pixels wide and high. *)
Definition kept_child (c : HWND) : bool :=
  IsWindowVisible (user32 host) c
  && (QRect.width (_get_win_rect host c) >? 2)
  && (QRect.height (_get_win_rect host c) >? 2).

(** Something is highlighted only if the animation ends on it: the
    rectangle the animator moves to is the highlighted frame in the
    coordinates of the overlay, or a rectangle that [QRectF]'s [==] does
    not tell from it. *)
Definition heads_for (s : WindowPicker F) : Prop :=
  _current_rect s = QRect.null \/
  end_rect (_animator s) = QRectF_of_QRect (_to_display s (_current_rect s)) \/
  QRectF_eq (QRectF_of_QRect (_to_display s (_current_rect s)))
            (end_rect (_animator s)) = true.

(** An animator that is not running displays the rectangle it was moving
    to. *)
Definition settled (s : WindowPicker F) : Prop :=
  active (_animator s) = false ->
  current_rect (_animator s) = end_rect (_animator s).

End PickerVocabulary.


(** ** Rectangle Animator: the motion *)

Section AnimatorMotion.
Import window_picker.
Local Open Scope Qc_scope.

(** The rectangle on display after a tick at [now]. *)
Definition shown (a : RectAnimator Qc) (now : Qc) : QRectF Qc :=
  current_rect (snd (tick a now)).

(** The animator after ticks at the clock readings [ts], in this order. *)
Definition ticked (a : RectAnimator Qc) (ts : list Qc) : RectAnimator Qc :=
  fold_left (fun b u => snd (tick b u)) ts a.

(** An animation in flight: 700 ms, from (0,0,50,50) to (100,100,200,200),
    started at time 0 and last painted at 350 ms. *)
Definition animator_in_flight : RectAnimator Qc :=
  snd (tick (animate_to
               (animate_to (RectAnimator_init 700) (QRect.xywh 0 0 50 50) 0)
               (QRect.xywh 100 100 200 200) 0)
            (Q2Qc (350 # 1000))).

End AnimatorMotion.


(** ** Orchestrator: what is open *)

Section OrchestratorVocabulary.
Import app.
Context {F : Type} {fl : PyFloat F}.

(** A pending timer that will open a Window Picker. *)
Definition opens_picker (d : Deferred) : bool :=
  match d with start_window_picker _ => true | overlay_show_spanning => false end.

(** The selectors that are open or about to be opened: the Region
    Selector, the Window Picker, and the Window Pickers that pending
    timers will open. *)
Definition open_count (a : SwiftShotApp F) : nat :=
  (match _overlay a with Some _ => 1 | None => 0 end
   + match _window_picker a with Some _ => 1 | None => 0 end
   + length (List.filter opens_picker (timers a)))%nat.

(** An event that the running program can deliver in state [a]: a
    signal of the Region Selector or of the Window Picker needs that
    selector to be open, a timer fires only if one is pending, and the
    deferred [show_spanning] finds the Region Selector it is to show. *)
Definition sourced_event (a : SwiftShotApp F) (ev : Event) : bool :=
  match ev with
  | from_overlay _ => match _overlay a with Some _ => true | None => false end
  | from_picker _ => match _window_picker a with Some _ => true | None => false end
  | timer_fires =>
      match timers a with
      | [] => false
      | start_window_picker _ :: _ => true
      | overlay_show_spanning :: _ =>
          match _overlay a with Some _ => true | None => false end
      end
  end.

(** Every event of the sequence can be delivered in the state the
    events before it lead to. *)
Fixpoint sourced (host : Host) (timer_on : bool) (secs : Z)
  (a : SwiftShotApp F) (evs : list Event) : bool :=
  match evs with
  | [] => true
  | ev :: rest =>
      sourced_event a ev && sourced host timer_on secs (fst (step host timer_on secs a ev)) rest
  end.

End OrchestratorVocabulary.

(** ** Cropping and the virtual desktop *)

Section GeometryVocabulary.

(** A rectangle that holds at least one pixel. *)
Definition has_pixels (r : QRect.t) : Prop := 1 <= QRect.width r /\ 1 <= QRect.height r.

(** The greatest C [int]. *)
Definition INT_MAX : Z := 2147483647.

(** A rectangle as a [QRect] holds it without overflow: its coordinates
    are C [int]s, and so are its width and height. *)
Definition fits_int (r : QRect.t) : Prop :=
  - INT_MAX - 1 <= QRect.x1 r /\ QRect.x2 r <= INT_MAX /\
  - INT_MAX - 1 <= QRect.y1 r /\ QRect.y2 r <= INT_MAX /\
  QRect.width r <= INT_MAX /\ QRect.height r <= INT_MAX.

(** A desktop of three monitors: the primary one, one to its left and a
    smaller one above it. *)
Definition three_monitors : Host :=
  mkHost false no_windows
    [QRect.xywh 0 0 1920 1080; QRect.xywh (-1280) 56 1280 1024; QRect.xywh 320 (-768) 1024 768].

(** Reading a colour back from its text: a number sign followed by three
    pairs of hexadecimal digits. *)
Definition hex_value (c : ascii) : option Z :=
  let n := Z.of_N (Ascii.N_of_ascii c) in
  if (48 <=? n) && (n <=? 57) then Some (n - 48)
  else if (65 <=? n) && (n <=? 70) then Some (n - 55)
  else None.

Definition read_pair (c1 c2 : ascii) : option Z :=
  match hex_value c1, hex_value c2 with
  | Some h, Some l => Some (16 * h + l)
  | _, _ => None
  end.

Definition read_color (s : string) : option (Z * Z * Z) :=
  match s with
  | String "#" (String r1 (String r2 (String g1 (String g2 (String b1 (String b2
      EmptyString)))))) =>
      match read_pair r1 r2, read_pair g1 g2, read_pair b1 b2 with
      | Some r, Some g, Some b => Some (r, g, b)
      | _, _, _ => None
      end
  | _ => None
  end%char.

(** A colour component as [QColor] reports it. *)
Definition is_component (n : Z) : Prop := 0 <= n <= 255.

End GeometryVocabulary.


(* ===================================================================== *)
(** * Part III: properties *)
(* ===================================================================== *)

(** ** Qt rectangles *)

Lemma normalized_corners_x (a b : QPoint.t) :
  2 <= Z.abs (QPoint.x b - QPoint.x a) ->
  QRect.x1 (QRect.normalized (QRect.corners a b)) = Z.min (QPoint.x a) (QPoint.x b) /\
  QRect.x2 (QRect.normalized (QRect.corners a b)) = Z.max (QPoint.x a) (QPoint.x b).
Proof.
  intros Hd. unfold QRect.normalized, QRect.corners; cbn [QRect.x1 QRect.x2 QRect.y1 QRect.y2].
  destruct (QPoint.x b <? QPoint.x a - 1) eqn:Ex;
    destruct (QPoint.y b <? QPoint.y a - 1) eqn:Ey; cbn; lia.
Qed.

Lemma normalized_corners_y (a b : QPoint.t) :
  2 <= Z.abs (QPoint.y b - QPoint.y a) ->
  QRect.y1 (QRect.normalized (QRect.corners a b)) = Z.min (QPoint.y a) (QPoint.y b) /\
  QRect.y2 (QRect.normalized (QRect.corners a b)) = Z.max (QPoint.y a) (QPoint.y b).
Proof.
  intros Hd. unfold QRect.normalized, QRect.corners; cbn [QRect.x1 QRect.x2 QRect.y1 QRect.y2].
  destruct (QPoint.x b <? QPoint.x a - 1) eqn:Ex;
    destruct (QPoint.y b <? QPoint.y a - 1) eqn:Ey; cbn; lia.
Qed.

(** The size test of [mouseReleaseEvent] in terms of the two corners. *)
Lemma min_size_iff (a b : QPoint.t) :
  let sel := QRect.normalized (QRect.corners a b) in
  (QRect.width sel >? 2) && (QRect.height sel >? 2) = true <->
  2 <= Z.abs (QPoint.x b - QPoint.x a) /\ 2 <= Z.abs (QPoint.y b - QPoint.y a).
Proof.
  cbv zeta. unfold QRect.width, QRect.height, QRect.normalized, QRect.corners;
    cbn [QRect.x1 QRect.x2 QRect.y1 QRect.y2].
  destruct (QPoint.x b <? QPoint.x a - 1) eqn:Ex;
    destruct (QPoint.y b <? QPoint.y a - 1) eqn:Ey;
    cbn [QRect.x1 QRect.x2 QRect.y1 QRect.y2];
    rewrite andb_true_iff; lia.
Qed.

(** ** Region Selector: edge snapping *)

Section Snapping.
Import overlay.

Lemma scan_edges_Some (c : Z) (edges : list Z) (e : Z) :
  scan_edges c edges = Some e ->
  exists pre post, edges = pre ++ e :: post /\
    Forall (fun e' => ~ within c e') pre /\ within c e.
Proof.
  induction edges as [|e0 rest IH]; cbn; [discriminate|].
  destruct (Z.abs (c - e0) <=? SNAP_DISTANCE) eqn:E.
  - intros [= <-]. exists [], rest. repeat split; [constructor | unfold within; lia].
  - intros H. destruct (IH H) as (pre & post & -> & Hpre & Hin).
    exists (e0 :: pre), post. repeat split; auto.
    constructor; auto. unfold within; lia.
Qed.

Lemma scan_edges_None (c : Z) (edges : list Z) :
  scan_edges c edges = None <-> Forall (fun e' => ~ within c e') edges.
Proof.
  induction edges as [|e0 rest IH]; cbn.
  - split; [constructor | reflexivity].
  - destruct (Z.abs (c - e0) <=? SNAP_DISTANCE) eqn:E.
    + split; [discriminate|]. intros H. apply Forall_cons_1 in H as [H _].
      exfalso; apply H; unfold within; lia.
    + rewrite IH. split.
      * intros H; constructor; [unfold within; lia | exact H].
      * intros H. apply Forall_cons_1 in H as [_ H]. exact H.
Qed.

Lemma scan_edges_snaps_to (c : Z) (edges : list Z) :
  snaps_to c edges (match scan_edges c edges with Some e => e | None => c end).
Proof.
  destruct (scan_edges c edges) as [e|] eqn:E.
  - destruct (scan_edges_Some _ _ _ E) as (pre & post & -> & Hpre & Hin).
    now constructor.
  - apply snaps_to_self, scan_edges_None, E.
Qed.

(** [snaps_to] determines its result: the query is a function of the
    coordinate and of the axis it is asked of. *)
Lemma snaps_to_functional (c : Z) (edges : list Z) (r1 r2 : Z) :
  snaps_to c edges r1 -> snaps_to c edges r2 -> r1 = r2.
Proof.
  assert (Hscan : forall r, snaps_to c edges r ->
            r = match scan_edges c edges with Some e => e | None => c end).
  { intros r H. destruct H as [pre post e Hpre Hin | edges Hall].
    - induction pre as [|e0 pre IH]; cbn.
      + unfold within in Hin. destruct (Z.abs (c - e) <=? SNAP_DISTANCE) eqn:E; [reflexivity | lia].
      + apply Forall_cons_1 in Hpre as [H0 Hpre]. unfold within in H0.
        destruct (Z.abs (c - e0) <=? SNAP_DISTANCE) eqn:E; [lia | auto].
    - apply scan_edges_None in Hall. now rewrite Hall. }
  intros H1 H2. rewrite (Hscan _ H1), (Hscan _ H2). reflexivity.
Qed.

(** [sorted(set(..))] is strictly ascending and keeps exactly the values. *)
Lemma sorted_insert_In (v x : Z) (l : list Z) :
  In x (sorted_insert v l) <-> x = v \/ In x l.
Proof.
  induction l as [|h0 tl IH]; cbn; [intuition congruence|].
  destruct (v <? h0) eqn:E1; [cbn; intuition congruence|].
  destruct (v =? h0) eqn:E2;
    [cbn; assert (v = h0) by lia; subst; intuition congruence|].
  cbn. rewrite IH. intuition congruence.
Qed.

Lemma sorted_insert_sorted (v : Z) (l : list Z) :
  StronglySorted Z.lt l -> StronglySorted Z.lt (sorted_insert v l).
Proof.
  induction 1 as [|h0 tl Hs IH Hall]; cbn.
  - repeat constructor.
  - destruct (v <? h0) eqn:E1.
    + constructor; [now constructor|]. constructor; [lia|].
      eapply Forall_impl; [exact Hall|]. cbn; intros; lia.
    + destruct (v =? h0) eqn:E2; [now constructor|].
      constructor; [exact IH|]. apply List.Forall_forall. intros x Hx.
      apply sorted_insert_In in Hx as [->|Hx]; [lia|].
      rewrite List.Forall_forall in Hall; auto.
Qed.

Lemma sorted_set_sorted (l : list Z) : StronglySorted Z.lt (sorted_set l).
Proof.
  induction l as [|v l IH]; cbn; [constructor | now apply sorted_insert_sorted].
Qed.

Lemma sorted_set_In (l : list Z) (x : Z) : In x (sorted_set l) <-> In x l.
Proof.
  induction l as [|v l IH]; cbn; [tauto|]. rewrite sorted_insert_In, IH. intuition.
Qed.

(** The Snap Index a selector is created with is sorted on both axes. *)
Lemma init_snap_index_sorted (h : Host) (shot : QPixmap) (md : string) :
  StronglySorted Z.lt (_snap_edges_v (__init__ h shot md)) /\
  StronglySorted Z.lt (_snap_edges_h (__init__ h shot md)).
Proof.
  unfold __init__, _detect_snap_edges.
  destruct (negb (is_win32 h)); cbn; split; try constructor; apply sorted_set_sorted.
Qed.

(** In a sorted index the first entry within tolerance is the least one. *)
Lemma first_in_sorted_is_least (c : Z) (pre post : list Z) (e : Z) :
  StronglySorted Z.lt (pre ++ e :: post) ->
  forall e', In e' (pre ++ e :: post) -> within c e' ->
  Forall (fun x => ~ within c x) pre -> e <= e'.
Proof.
  intros Hs e' Hin Hw Hpre.
  apply in_app_or in Hin as [Hin|[->|Hin]]; [|lia|].
  - rewrite List.Forall_forall in Hpre. exfalso. now apply (Hpre e').
  - induction pre as [|p0 pre IH]; cbn in Hs.
    + apply StronglySorted_inv in Hs as [_ Hall].
      rewrite List.Forall_forall in Hall. specialize (Hall _ Hin). lia.
    + apply StronglySorted_inv in Hs as [Hs _].
      apply Forall_cons_1 in Hpre as [_ Hpre]. auto.
Qed.

Lemma same_setup_refl (s : RegionSelector) : same_setup s s.
Proof. repeat split. Qed.

Lemma same_setup_trans (s1 s2 s3 : RegionSelector) :
  same_setup s1 s2 -> same_setup s2 s3 -> same_setup s1 s3.
Proof.
  unfold same_setup. intros (?&?&?&?&?&?) (?&?&?&?&?&?). repeat split; congruence.
Qed.

Lemma snap_point_state (s : RegionSelector) (pos : QPoint.t) :
  let s' := snd (_snap_point s pos) in
  same_setup s s' /\ selecting s' = selecting s /\ start_pos s' = start_pos s /\
  end_pos s' = end_pos s /\ freehand_points s' = freehand_points s /\
  current_pos s' = current_pos s.
Proof.
  unfold _snap_point. destruct (negb (_snap_enabled s)); cbn; repeat split.
Qed.

(** The snapped point depends on the selector only through its setup. *)
Lemma snap_point_same_setup (s s' : RegionSelector) (pos : QPoint.t) :
  same_setup s s' -> fst (_snap_point s' pos) = fst (_snap_point s pos).
Proof.
  intros (_ & _ & He & Hh & Hv & _). unfold _snap_point.
  rewrite He, Hh, Hv. destruct (negb (_snap_enabled s)); reflexivity.
Qed.

Lemma snap_point_disabled (s : RegionSelector) (pos : QPoint.t) :
  _snap_enabled s = false -> _snap_point s pos = (pos, s).
Proof. intros H. unfold _snap_point. now rewrite H. Qed.

Lemma snap_point_out_of_tolerance (s : RegionSelector) (pos : QPoint.t) :
  Forall (fun e => ~ within (QPoint.x pos) e) (_snap_edges_v s) ->
  Forall (fun e => ~ within (QPoint.y pos) e) (_snap_edges_h s) ->
  fst (_snap_point s pos) = pos.
Proof.
  intros Hx Hy. unfold _snap_point. destruct (negb (_snap_enabled s)); [reflexivity|].
  apply scan_edges_None in Hx, Hy. cbn. rewrite Hx, Hy. now destruct pos.
Qed.

End Snapping.

(** ** Region Selector: a rectangle drag *)

Section Dragging.
Import overlay.

Lemma rectangle_mode_tests (s : RegionSelector) :
  mode s = MODE_RECTANGLE ->
  String.eqb (mode s) MODE_RECTANGLE = true /\
  String.eqb (mode s) MODE_FREEHAND = false.
Proof. intros ->. split; reflexivity. Qed.

Ltac name_snap s pos p1 s1 H :=
  pose proof (snap_point_state s pos) as H;
  destruct (_snap_point s pos) as [p1 s1] eqn:?;
  cbn [fst snd] in H; cbv zeta in H;
  destruct H as (? & ? & ? & ? & ? & ?).

Lemma press_starts_drag (s : RegionSelector) (p : QPoint.t) :
  mode s = MODE_RECTANGLE ->
  snd (mousePressEvent s LeftButton p) = [update] /\
  dragging_from s (fst (mousePressEvent s LeftButton p)) (fst (_snap_point s p)) /\
  end_pos (fst (mousePressEvent s LeftButton p)) = fst (_snap_point s p).
Proof.
  intros Hm. destruct (rectangle_mode_tests s Hm) as [Hr Hf].
  unfold mousePressEvent. rewrite Hr, Hf.
  name_snap s p p1 s1 H. cbn. unfold dragging_from, same_setup in *. cbn.
  intuition congruence.
Qed.

Lemma move_keeps_anchor (s0 s : RegionSelector) (a pos : QPoint.t) :
  mode s0 = MODE_RECTANGLE -> dragging_from s0 s a ->
  snd (mouseMoveEvent s pos) = [update] /\
  dragging_from s0 (fst (mouseMoveEvent s pos)) a /\
  end_pos (fst (mouseMoveEvent s pos)) = fst (_snap_point s0 pos).
Proof.
  intros Hm (Hsame & Hsel & Hst).
  assert (Hm' : mode s = MODE_RECTANGLE) by (destruct Hsame as (_ & -> & _); exact Hm).
  pose proof (snap_point_same_setup s0 (set_current_pos pos s) pos) as Hsnap.
  unfold mouseMoveEvent. cbn [selecting set_current_pos mode]. rewrite Hsel.
  destruct (rectangle_mode_tests s Hm') as [-> ->].
  name_snap (set_current_pos pos s) pos p1 s1 H. cbn [fst snd] in *.
  unfold dragging_from, same_setup in *. cbn in *.
  rewrite <- Hsnap by intuition congruence.
  intuition congruence.
Qed.

Lemma release_ends_drag (s0 s : RegionSelector) (a q : QPoint.t) :
  mode s0 = MODE_RECTANGLE -> dragging_from s0 s a ->
  snd (mouseReleaseEvent s LeftButton q) = release_effects a (fst (_snap_point s0 q)) /\
  start_pos (fst (mouseReleaseEvent s LeftButton q)) = a /\
  end_pos (fst (mouseReleaseEvent s LeftButton q)) = fst (_snap_point s0 q) /\
  selecting (fst (mouseReleaseEvent s LeftButton q)) = false.
Proof.
  intros Hm (Hsame & Hsel & Hst).
  assert (Hm' : mode s = MODE_RECTANGLE) by (destruct Hsame as (_ & -> & _); exact Hm).
  pose proof (snap_point_same_setup s0 s q Hsame) as Hsnap.
  unfold mouseReleaseEvent. rewrite Hsel.
  destruct (rectangle_mode_tests s Hm') as [-> _].
  name_snap s q p1 s1 H. cbn [fst snd] in *.
  cbn [mode set_drag freehand_points start_pos end_pos].
  assert (Hf : String.eqb (mode s1) MODE_FREEHAND = false).
  { destruct H as (_ & -> & _). now rewrite Hm'. }
  rewrite Hf. subst p1.
  replace (start_pos s1) with a by congruence.
  assert (Hnone : match freehand_points s1 with
                  | [] => None
                  | p0 :: rest => @None (QPoint.t * list QPoint.t)
                  end = None) by (destruct (freehand_points s1); reflexivity).
  rewrite Hnone. unfold release_effects. cbv zeta.
  destruct ((QRect.width _ >? 2) && (QRect.height _ >? 2)); cbn; auto.
Qed.

Lemma run_app (s : RegionSelector) (l1 l2 : list Event) :
  run s (l1 ++ l2) =
  (fst (run (fst (run s l1)) l2), snd (run s l1) ++ snd (run (fst (run s l1)) l2)).
Proof.
  revert s. induction l1 as [|ev l1 IH]; intros s; cbn.
  - now destruct (run s l2).
  - destruct (handle s ev) as [s1 fx1]. rewrite IH.
    destruct (run s1 l1) as [s2 fx2]. cbn. now rewrite <- app_assoc.
Qed.

Lemma moves_keep_anchor (s0 : RegionSelector) (a : QPoint.t) (via : list QPoint.t) :
  mode s0 = MODE_RECTANGLE ->
  forall s, dragging_from s0 s a ->
  snd (run s (List.map Move via)) = repeat update (length via) /\
  dragging_from s0 (fst (run s (List.map Move via))) a.
Proof.
  intros Hm. induction via as [|pos via IH]; intros s Hd; cbn.
  - split; [reflexivity | exact Hd].
  - destruct (move_keeps_anchor s0 s a pos Hm Hd) as (Hfx & Hd' & _).
    destruct (mouseMoveEvent s pos) as [s1 fx1]. cbn [fst snd] in *.
    destruct (IH s1 Hd') as [Hfx2 Hd2].
    destruct (run s1 (List.map Move via)) as [s2 fx2]. cbn [fst snd] in *.
    subst. split; [reflexivity | exact Hd2].
Qed.

(** A rectangle drag, whatever the pointer path: one repaint per event,
    then the release decides on the two snapped corners alone. *)
Lemma drag_run (s : RegionSelector) (p q : QPoint.t) (via : list QPoint.t) :
  mode s = MODE_RECTANGLE ->
  let a := fst (_snap_point s p) in
  let b := fst (_snap_point s q) in
  snd (run s (drag p via q)) =
    update :: repeat update (length via) ++ release_effects a b /\
  start_pos (fst (run s (drag p via q))) = a /\
  end_pos (fst (run s (drag p via q))) = b.
Proof.
  intros Hm a b. unfold drag. cbn [run handle].
  destruct (press_starts_drag s p Hm) as (Hfx0 & Hd0 & _).
  destruct (mousePressEvent s LeftButton p) as [s1 fx1]. cbn [fst snd] in *.
  rewrite run_app.
  destruct (moves_keep_anchor s a via Hm s1 Hd0) as [Hfx1 Hd1].
  destruct (run s1 (List.map Move via)) as [s2 fx2]. cbn [fst snd] in *.
  cbn [run handle].
  destruct (release_ends_drag s s2 a q Hm Hd1) as (Hfx2 & Hst & Hen & _).
  destruct (mouseReleaseEvent s2 LeftButton q) as [s3 fx3]. cbn [fst snd] in *.
  subst. rewrite app_nil_r. auto.
Qed.

Lemma deferred_signals_drag (n : nat) (tail : list Effect) :
  deferred_signals (update :: repeat update n ++ tail) = deferred_signals tail.
Proof.
  unfold deferred_signals. cbn. induction n as [|n IH]; cbn; auto.
Qed.

End Dragging.

(** ** Region Selector: the claims *)

Section RegionClaims.
Import overlay.

Example snapping_selector_index :
  _snap_edges_v snapping_selector = [5; 300] /\
  _snap_edges_h snapping_selector = [5; 300] /\
  _snap_enabled snapping_selector = true.
Proof. repeat split. Qed.

(** The four ways a point can snap. *)
Example snap_x_only :
  fst (_snap_point snapping_selector (QPoint.mk 10 50)) = QPoint.mk 5 50.
Proof. reflexivity. Qed.
Example snap_y_only :
  fst (_snap_point snapping_selector (QPoint.mk 50 295)) = QPoint.mk 50 300.
Proof. reflexivity. Qed.
Example snap_both :
  fst (_snap_point snapping_selector (QPoint.mk 308 13)) = QPoint.mk 300 5.
Proof. reflexivity. Qed.
Example snap_neither :
  fst (_snap_point snapping_selector (QPoint.mk 50 60)) = QPoint.mk 50 60.
Proof. reflexivity. Qed.

(** With snapping toggled off (key S) the point is returned as it is. *)
Example snap_toggled_off :
  fst (_snap_point (fst (keyPressEvent snapping_selector Key_S)) (QPoint.mk 10 50))
  = QPoint.mk 10 50.
Proof. reflexivity. Qed.

(** C5. While snapping is enabled (the state a selector is created in;
    key S toggles it), [_snap_point] returns on each axis the first entry
    of that axis's Snap Index within 8 pixels of the input coordinate, and
    the input coordinate when no entry is within tolerance.  The X result
    is decided by the X coordinate and the vertical edges alone, the Y
    result by the Y coordinate and the horizontal edges alone; the
    recorded guides [_snapped_x], [_snapped_y] tell which axes snapped,
    and an axis that did not snap passes through unchanged. *)
Theorem C5_snap_point_first_within_tolerance_per_axis :
  forall (s : RegionSelector) (pos : QPoint.t),
    _snap_enabled s = true ->
    let p := fst (_snap_point s pos) in
    let s' := snd (_snap_point s pos) in
    snaps_to (QPoint.x pos) (_snap_edges_v s) (QPoint.x p) /\
    snaps_to (QPoint.y pos) (_snap_edges_h s) (QPoint.y p) /\
    _snapped_x s' = scan_edges (QPoint.x pos) (_snap_edges_v s) /\
    _snapped_y s' = scan_edges (QPoint.y pos) (_snap_edges_h s) /\
    (forall e, _snapped_x s' = Some e -> QPoint.x p = e /\ within (QPoint.x pos) e) /\
    (forall e, _snapped_y s' = Some e -> QPoint.y p = e /\ within (QPoint.y pos) e) /\
    (_snapped_x s' = None -> QPoint.x p = QPoint.x pos) /\
    (_snapped_y s' = None -> QPoint.y p = QPoint.y pos).
Proof.
  intros s pos Hen. unfold _snap_point. rewrite Hen. cbn.
  pose proof (scan_edges_snaps_to (QPoint.x pos) (_snap_edges_v s)) as Hx.
  pose proof (scan_edges_snaps_to (QPoint.y pos) (_snap_edges_h s)) as Hy.
  split; [exact Hx|]. split; [exact Hy|]. do 2 (split; [reflexivity|]).
  split; [|split; [|split]].
  - intros e H. rewrite H. split; [reflexivity|].
    apply scan_edges_Some in H as (? & ? & _ & _ & Hw). exact Hw.
  - intros e H. rewrite H. split; [reflexivity|].
    apply scan_edges_Some in H as (? & ? & _ & _ & Hw). exact Hw.
  - intros H. now rewrite H.
  - intros H. now rewrite H.
Qed.

Lemma C5_witness :
  _snap_enabled snapping_selector = true /\
  snaps_to 10 [5; 300] 5 /\ snaps_to 50 [5; 300] 50.
Proof.
  split; [reflexivity|].
  pose proof (C5_snap_point_first_within_tolerance_per_axis
                snapping_selector (QPoint.mk 10 50) eq_refl) as H.
  cbv zeta in H. destruct H as (Hx & Hy & _). split; [exact Hx | exact Hy].
Defined.

(** C4, as stated, fails: in rectangle mode the button-down position is
    itself passed through [_snap_point].  Pressing at (10,50) next to the
    window edge x = 5 anchors the selection at (5,50), and the emitted
    rectangle starts there. *)
Lemma C4_anchor_is_snapped_at_button_down :
  start_pos (fst (run snapping_selector
                    (drag (QPoint.mk 10 50) [] (QPoint.mk 100 120))))
    = QPoint.mk 5 50 /\
  deferred_signals (snd (run snapping_selector
                    (drag (QPoint.mk 10 50) [] (QPoint.mk 100 120))))
    = [region_selected (QRect.mk 5 50 100 120)] /\
  QPoint.mk 5 50 <> QPoint.mk 10 50.
Proof. repeat split; discriminate. Qed.

(** C4, amended.  In rectangle mode the anchor is set once, at primary
    button down, to the snapped press position (the press position itself
    when snapping is off or no edge is within tolerance).  Pointer moves
    during the drag snap only the moving endpoint and leave the anchor as
    it is, so the selection decided at release spans from the snapped
    button-down position to the snapped release position. *)
Theorem C4_anchor_set_at_press_moves_snap_moving_end :
  forall (s : RegionSelector) (p q : QPoint.t) (via : list QPoint.t),
    mode s = MODE_RECTANGLE ->
    start_pos (fst (mousePressEvent s LeftButton p)) = fst (_snap_point s p) /\
    (forall s' a pos, dragging_from s s' a ->
       start_pos (fst (mouseMoveEvent s' pos)) = a /\
       end_pos (fst (mouseMoveEvent s' pos)) = fst (_snap_point s pos)) /\
    start_pos (fst (run s (drag p via q))) = fst (_snap_point s p) /\
    snd (run s (drag p via q)) =
      update :: repeat update (length via)
        ++ release_effects (fst (_snap_point s p)) (fst (_snap_point s q)) /\
    (_snap_enabled s = false -> start_pos (fst (run s (drag p via q))) = p) /\
    (Forall (fun e => ~ within (QPoint.x p) e) (_snap_edges_v s) ->
     Forall (fun e => ~ within (QPoint.y p) e) (_snap_edges_h s) ->
     start_pos (fst (run s (drag p via q))) = p).
Proof.
  intros s p q via Hm.
  destruct (press_starts_drag s p Hm) as (_ & (_ & _ & Hst) & _).
  destruct (drag_run s p q via Hm) as (Hfx & Hanchor & _).
  repeat split; auto.
  - destruct (move_keeps_anchor s s' a pos Hm H) as (_ & (_ & _ & Ha) & _). exact Ha.
  - destruct (move_keeps_anchor s s' a pos Hm H) as (_ & _ & He). exact He.
  - intros Hoff. rewrite Hanchor, snap_point_disabled by exact Hoff. reflexivity.
  - intros Hx Hy. rewrite Hanchor. now apply snap_point_out_of_tolerance.
Qed.

Lemma C4_witness :
  mode snapping_selector = MODE_RECTANGLE /\
  start_pos (fst (run snapping_selector
                    (drag (QPoint.mk 10 50) [QPoint.mk 40 70] (QPoint.mk 100 120))))
    = fst (_snap_point snapping_selector (QPoint.mk 10 50)).
Proof.
  split; [reflexivity|].
  exact (proj1 (proj2 (proj2
    (C4_anchor_set_at_press_moves_snap_moving_end snapping_selector
       (QPoint.mk 10 50) (QPoint.mk 100 120) [QPoint.mk 40 70] eq_refl)))).
Defined.

(** C2, as stated, fails on the dimensions: a drag from (0,0) to (10,10)
    with nothing to snap to is confirmed with a rectangle 11 pixels wide
    and high, not 10: a [QRect] built from two corner points counts both
    corner pixels. *)
Lemma C2_emitted_rectangle_is_one_pixel_larger :
  deferred_signals (snd (run plain_selector
                    (drag (QPoint.mk 0 0) [] (QPoint.mk 10 10))))
    = [region_selected (QRect.mk 0 0 10 10)] /\
  QRect.width (QRect.mk 0 0 10 10) = 11 /\
  QRect.height (QRect.mk 0 0 10 10) = 11 /\
  QRect.width (QRect.mk 0 0 10 10) <> Z.abs (10 - 0) /\
  QRect.height (QRect.mk 0 0 10 10) <> Z.abs (10 - 0).
Proof. repeat split; discriminate. Qed.

(** C2, amended.  Let [a] and [b] be the effective end points of a
    rectangle drag, that is the press and release positions after edge
    snapping, and [dx], [dy] their coordinate differences.  If [|dx| >= 2]
    and [|dy| >= 2] the release hides the overlay and hands to the event
    loop the emission of [region_selected] with the normalized rectangle
    whose corners are [a] and [b]; counting both corner pixels it is
    [|dx| + 1] wide and [|dy| + 1] high.  If [|dx| < 2] or [|dy| < 2] the
    release hides the overlay and hands over [cancelled] instead, and
    nothing else: a degenerate selection is a cancel, not an error.  With
    snapping off, [a] and [b] are the raw positions. *)
Theorem C2_drag_confirms_iff_two_pixels_each_way :
  forall (s : RegionSelector) (p q : QPoint.t) (via : list QPoint.t),
    mode s = MODE_RECTANGLE ->
    let a := fst (_snap_point s p) in
    let b := fst (_snap_point s q) in
    let dx := QPoint.x b - QPoint.x a in
    let dy := QPoint.y b - QPoint.y a in
    let fx := snd (run s (drag p via q)) in
    let sel := QRect.mk (Z.min (QPoint.x a) (QPoint.x b)) (Z.min (QPoint.y a) (QPoint.y b))
                        (Z.max (QPoint.x a) (QPoint.x b)) (Z.max (QPoint.y a) (QPoint.y b)) in
    (2 <= Z.abs dx /\ 2 <= Z.abs dy ->
       fx = update :: repeat update (length via)
              ++ [hide; singleShot 50 (region_selected sel)] /\
       deferred_signals fx = [region_selected sel] /\
       QRect.width sel = Z.abs dx + 1 /\ QRect.height sel = Z.abs dy + 1) /\
    (Z.abs dx < 2 \/ Z.abs dy < 2 ->
       fx = update :: repeat update (length via) ++ [hide; singleShot 50 cancelled] /\
       deferred_signals fx = [cancelled]) /\
    (_snap_enabled s = false -> a = p /\ b = q).
Proof.
  intros s p q via Hm a b dx dy fx sel.
  destruct (drag_run s p q via Hm) as (Hfx & _ & _). fold a b fx in Hfx.
  pose proof (min_size_iff a b) as Hiff. cbv zeta in Hiff.
  split; [|split].
  - intros [Hx Hy].
    assert (Hsel : QRect.normalized (QRect.corners a b) = sel).
    { destruct (normalized_corners_x a b Hx) as [E1 E2].
      destruct (normalized_corners_y a b Hy) as [E3 E4].
      destruct (QRect.normalized (QRect.corners a b)); cbn in *. subst sel. congruence. }
    assert (Hrel : release_effects a b = [hide; singleShot 50 (region_selected sel)]).
    { unfold release_effects. cbv zeta.
      replace ((QRect.width _ >? 2) && (QRect.height _ >? 2)) with true
        by (symmetry; apply Hiff; split; assumption).
      now rewrite Hsel. }
    rewrite Hfx, Hrel. split; [reflexivity|]. split.
    + now rewrite deferred_signals_drag.
    + subst sel dx dy. unfold QRect.width, QRect.height. cbn. lia.
  - intros Hsmall.
    assert (Hrel : release_effects a b = [hide; singleShot 50 cancelled]).
    { unfold release_effects. cbv zeta.
      clear Hiff.
      destruct ((QRect.width _ >? 2) && (QRect.height _ >? 2)) eqn:E; [|reflexivity].
      apply (proj1 (min_size_iff a b)) in E. subst dx dy. lia. }
    rewrite Hfx, Hrel. split; [reflexivity|]. now rewrite deferred_signals_drag.
  - intros Hoff. subst a b. now rewrite !snap_point_disabled by exact Hoff.
Qed.

Lemma C2_witness :
  mode snapping_selector = MODE_RECTANGLE /\
  deferred_signals (snd (run snapping_selector
                    (drag (QPoint.mk 10 50) [QPoint.mk 40 70] (QPoint.mk 100 120))))
    = [region_selected (QRect.mk 5 50 100 120)].
Proof.
  split; [reflexivity|].
  refine (proj1 (proj2 (proj1
    (C2_drag_confirms_iff_two_pixels_each_way snapping_selector
       (QPoint.mk 10 50) (QPoint.mk 100 120) [QPoint.mk 40 70] eq_refl) _))).
  vm_compute. split; discriminate.
Defined.

End RegionClaims.

(** ** Region Selector to orchestrator: the emitted rectangle *)

Section EmittedRectangle.
Import overlay.

(** A snapped coordinate is at most [SNAP_DISTANCE] from the raw one. *)
Lemma snap_point_close (s : RegionSelector) (pos : QPoint.t) :
  Z.abs (QPoint.x (fst (_snap_point s pos)) - QPoint.x pos) <= 8 /\
  Z.abs (QPoint.y (fst (_snap_point s pos)) - QPoint.y pos) <= 8.
Proof.
  unfold _snap_point. destruct (negb (_snap_enabled s)); cbn; [lia|].
  split.
  - destruct (scan_edges (QPoint.x pos) (_snap_edges_v s)) eqn:E; [|lia].
    apply scan_edges_Some in E as (? & ? & _ & _ & Hw).
    unfold within, SNAP_DISTANCE in Hw. lia.
  - destruct (scan_edges (QPoint.y pos) (_snap_edges_h s)) eqn:E; [|lia].
    apply scan_edges_Some in E as (? & ? & _ & _ & Hw).
    unfold within, SNAP_DISTANCE in Hw. lia.
Qed.

Example two_monitors_geometry (win32 : bool) (w : Win32) :
  utils.virtual_geometry (two_monitors win32 w) = QRect.xywh 0 0 3200 1080.
Proof. reflexivity. Qed.

(** C1, as stated, fails: no origin offset is added.  On a virtual
    desktop that begins at x = -1920, a drag from local (10,10) to
    (100,100) emits the local rectangle (10,10)-(100,100); translated by
    the origin it would be (-1910,10)-(-1820,100). *)
Lemma C1_emitted_rectangle_is_not_translated :
  QRect.x (_desktop_geo left_monitor_selector) = -1920 /\
  QRect.y (_desktop_geo left_monitor_selector) = 0 /\
  deferred_signals (snd (run left_monitor_selector
                    (drag (QPoint.mk 10 10) [] (QPoint.mk 100 100))))
    = [region_selected (QRect.mk 10 10 100 100)] /\
  QRect.translated (QRect.mk 10 10 100 100) (-1920) 0 = QRect.mk (-1910) 10 (-1820) 100 /\
  QRect.mk 10 10 100 100 <> QRect.mk (-1910) 10 (-1820) 100.
Proof. repeat split; discriminate. Qed.

(** C1, amended.  When the primary-button release of a rectangle drag
    produces a selection meeting the minimum-size invariant, the overlay
    hides and hands to the event loop the emission of [region_selected]
    with the normalized selection in overlay-local coordinates: its
    corners are the snapped press and release positions.  No origin
    offset is added, by the overlay or by the orchestrator, which passes
    that same rectangle on as it is (to the crop of the Snapshot, or to
    the timed capture when the capture timer is enabled); so the emitted
    rectangle is the virtual-desktop rectangle exactly when the virtual
    desktop begins at (0,0).  That is the case in the two-monitor scenario, where every
    drag from local (1930,10) to (2000,100), whatever the Snap Index, the
    snap toggle and the pointer path, is confirmed with a rectangle whose
    x is at least 1920. *)
Theorem C1_confirmed_rectangle_is_overlay_local :
  forall (s : RegionSelector) (p q : QPoint.t) (via : list QPoint.t),
    mode s = MODE_RECTANGLE ->
    let a := fst (_snap_point s p) in
    let b := fst (_snap_point s q) in
    let sel := QRect.normalized (QRect.corners a b) in
    ((QRect.width sel >? 2) && (QRect.height sel >? 2) = true ->
       snd (run s (drag p via q)) =
         update :: repeat update (length via)
           ++ [hide; singleShot 50 (region_selected sel)] /\
       sel = QRect.mk (Z.min (QPoint.x a) (QPoint.x b)) (Z.min (QPoint.y a) (QPoint.y b))
                      (Z.max (QPoint.x a) (QPoint.x b)) (Z.max (QPoint.y a) (QPoint.y b)) /\
       (QRect.translated sel (QRect.x (_desktop_geo s)) (QRect.y (_desktop_geo s)) = sel
        <-> QRect.x (_desktop_geo s) = 0 /\ QRect.y (_desktop_geo s) = 0) /\
       (forall (F : Type) (timer_on : bool) (secs : Z)
               (ap : app.SwiftShotApp F) (ov : app.RegionOverlay),
          app._overlay ap = Some ov ->
          hands_on_unchanged (app._full_screenshot ov) sel
            (snd (app.on_overlay_signal timer_on secs (region_selected sel) ap)))) /\
    (forall (win32 : bool) (w : Win32),
       _desktop_geo s = utils.virtual_geometry (two_monitors win32 w) ->
       p = QPoint.mk 1930 10 -> q = QPoint.mk 2000 100 ->
       deferred_signals (snd (run s (drag p via q))) = [region_selected sel] /\
       1920 <= QRect.x sel /\
       QRect.translated sel (QRect.x (_desktop_geo s)) (QRect.y (_desktop_geo s)) = sel).
Proof.
  intros s p q via Hm a b sel.
  destruct (drag_run s p q via Hm) as (Hfx & _ & _). fold a b in Hfx.
  pose proof (min_size_iff a b) as Hiff. cbv zeta in Hiff. fold sel in Hiff.
  assert (Hok : (QRect.width sel >? 2) && (QRect.height sel >? 2) = true ->
                release_effects a b = [hide; singleShot 50 (region_selected sel)]).
  { intros E. unfold release_effects. cbv zeta. fold sel. now rewrite E. }
  split.
  - intros Hsize. rewrite Hfx, (Hok Hsize). split; [reflexivity|].
    destruct (proj1 Hiff Hsize) as [Hx Hy].
    destruct (normalized_corners_x a b Hx) as [E1 E2].
    destruct (normalized_corners_y a b Hy) as [E3 E4]. fold sel in E1, E2, E3, E4.
    split; [destruct sel; cbn in *; congruence|].
    split.
    + unfold QRect.translated. destruct sel as [u1 v1 u2 v2]; cbn. split.
      * intros [= ? ? ? ?]. lia.
      * intros [-> ->]. f_equal; lia.
    + intros F timer_on secs ap ov Hov.
      assert (Hw : (QRect.width sel <? 1) || (QRect.height sel <? 1) = false).
      { clear - Hsize. clearbody sel.
        apply andb_true_iff in Hsize as [H1 H2]. apply Z.gtb_lt in H1, H2.
        apply orb_false_iff. split; apply Z.ltb_ge; lia. }
      unfold app.on_overlay_signal, app._on_region_selected, app._close_overlay.
      rewrite Hov, Hw. unfold hands_on_unchanged.
      destruct (app._ocr_mode ov); [|destruct (timer_on && (secs >? 0))];
        cbn; eexists; split; try reflexivity; auto.
  - intros win32 w Hgeo -> ->.
    pose proof (snap_point_close s (QPoint.mk 1930 10)) as [Hax Hay].
    pose proof (snap_point_close s (QPoint.mk 2000 100)) as [Hbx Hby].
    fold a in Hax, Hay. fold b in Hbx, Hby. cbn [QPoint.x QPoint.y] in *.
    assert (Hsize : (QRect.width sel >? 2) && (QRect.height sel >? 2) = true)
      by (apply Hiff; lia).
    rewrite Hfx, (Hok Hsize), deferred_signals_drag. split; [reflexivity|].
    destruct (normalized_corners_x a b) as [E1 _]; [lia|]. fold sel in E1.
    split; [unfold QRect.x; lia|].
    assert (Hgx : QRect.x (_desktop_geo s) = 0) by (rewrite Hgeo; reflexivity).
    assert (Hgy : QRect.y (_desktop_geo s) = 0) by (rewrite Hgeo; reflexivity).
    rewrite Hgx, Hgy. clear. clearbody sel.
    destruct sel; unfold QRect.translated; cbn. f_equal; lia.
Qed.

Lemma C1_witness :
  mode scenario_selector = MODE_RECTANGLE /\
  deferred_signals (snd (run scenario_selector
     (drag (QPoint.mk 1930 10) [QPoint.mk 1950 40] (QPoint.mk 2000 100))))
    = [region_selected (QRect.mk 1930 5 2000 100)] /\
  1920 <= 1930.
Proof.
  split; [reflexivity|].
  destruct (proj2 (C1_confirmed_rectangle_is_overlay_local scenario_selector
              (QPoint.mk 1930 10) (QPoint.mk 2000 100) [QPoint.mk 1950 40] eq_refl)
              true one_window eq_refl eq_refl eq_refl) as (H1 & H2 & _).
  split; [exact H1 | exact H2].
Defined.

End EmittedRectangle.

(** ** Rectangle Animator *)

Section AnimatorAnyFloat.
Import window_picker.
Context {F : Type} {fl : PyFloat F}.

Lemma tick_inactive (a : RectAnimator F) (now : F) :
  active a = false -> tick a now = (false, a).
Proof. intros H. unfold tick. now rewrite H. Qed.

(** Once elapsed/duration is not below 1 the tick ends the animation on
    its target; the test [1.0 >= 1.0] is the carrier's. *)
Lemma tick_past_end (a : RectAnimator F) (now : F) :
  active a = true ->
  lt (truediv (sub now (start_time a)) (duration a)) (of_int 1) = false ->
  le (of_int 1) (of_int 1) = true ->
  tick a now = (true, finished a).
Proof.
  intros Ha Hq H1. unfold tick, py_min. rewrite Ha, Hq. cbn [negb]. cbv zeta.
  now rewrite H1.
Qed.

Lemma animate_to_on_empty (a : RectAnimator F) (target : QRect.t) (now : F) :
  QRectF_isEmpty (current_rect a) = true ->
  animate_to a target now =
    mkRectAnimator (duration a) (start_rect a) (QRectF_of_QRect target)
      (QRectF_of_QRect target) (start_time a) (active a).
Proof. intros H. unfold animate_to. now rewrite H. Qed.

Lemma animate_to_same_target (a : RectAnimator F) (target : QRect.t) (now : F) :
  QRectF_isEmpty (current_rect a) = false ->
  QRectF_eq (QRectF_of_QRect target) (end_rect a) = true ->
  animate_to a target now = a.
Proof. intros H1 H2. unfold animate_to. now rewrite H1, H2. Qed.

Lemma animate_to_twice (a : RectAnimator F) (target : QRect.t) (now now' : F) :
  QRectF_eq (QRectF_of_QRect target) (QRectF_of_QRect target) = true ->
  animate_to (animate_to a target now) target now' = animate_to a target now.
Proof.
  intros Hrefl.
  destruct (QRectF_isEmpty (current_rect a)) eqn:E1.
  - rewrite (animate_to_on_empty a target now E1).
    unfold animate_to; cbn.
    destruct (QRectF_isEmpty (QRectF_of_QRect target)); [reflexivity|].
    now rewrite Hrefl.
  - destruct (QRectF_eq (QRectF_of_QRect target) (end_rect a)) eqn:E2.
    + now rewrite !(animate_to_same_target a target _ E1 E2).
    + assert (E : animate_to a target now =
                  mkRectAnimator (duration a) (current_rect a) (QRectF_of_QRect target)
                    (current_rect a) now true)
        by (unfold animate_to; now rewrite E1, E2).
      rewrite E. unfold animate_to; cbn. now rewrite E1, Hrefl.
Qed.

End AnimatorAnyFloat.

Section AnimatorExact.
Import window_picker.
Local Open Scope Qc_scope.

Lemma exact_le_iff (a b : Qc) : le a b = true <-> a <= b.
Proof. cbn. apply Qle_bool_iff. Qed.

Lemma exact_lt_iff (a b : Qc) : lt a b = true <-> a < b.
Proof.
  cbn. rewrite negb_true_iff. split.
  - intros H. apply Qcnot_le_lt. intros Hle.
    apply exact_le_iff in Hle. cbn in Hle. congruence.
  - intros H. destruct (Qle_bool b a) eqn:E; [|reflexivity].
    apply Qle_bool_iff in E. exfalso. exact (Qclt_not_le _ _ H E).
Qed.

Lemma exact_lt_false_iff (a b : Qc) : lt a b = false <-> b <= a.
Proof.
  split.
  - intros H. apply Qcnot_lt_le. intros Hlt. apply exact_lt_iff in Hlt. congruence.
  - intros H. destruct (lt a b) eqn:E; [|reflexivity].
    apply exact_lt_iff in E. exfalso. exact (Qclt_not_le _ _ E H).
Qed.

Lemma div_mul_cancel (x d : Qc) : 0 < d -> x / d * d = x.
Proof.
  intros Hd. field. intros ->. exact (Qclt_not_le _ _ Hd (Qcle_refl _)).
Qed.

Lemma div_lt_1_iff (x d : Qc) : 0 < d -> (x / d < 1 <-> x < d).
Proof.
  intros Hd. split.
  - intros H. apply (Qcmult_lt_compat_r _ _ d Hd) in H.
    rewrite div_mul_cancel in H by exact Hd. now rewrite Qcmult_1_l in H.
  - intros H. apply Qcnot_le_lt. intros Hle.
    apply (Qcmult_le_compat_r _ _ d) in Hle; [|now apply Qclt_le_weak].
    rewrite div_mul_cancel in Hle by exact Hd. rewrite Qcmult_1_l in Hle.
    exact (Qclt_not_le _ _ H Hle).
Qed.

Lemma div_nonneg (x d : Qc) : 0 < d -> 0 <= x -> 0 <= x / d.
Proof.
  intros Hd Hx. apply Qcnot_lt_le. intros H.
  apply (Qcmult_lt_compat_r _ _ d Hd) in H.
  rewrite div_mul_cancel in H by exact Hd.
  replace (0 * d) with 0 in H by ring.
  exact (Qclt_not_le _ _ H Hx).
Qed.

Lemma quintic_is_eased_progress (t : Qc) : _quintic_ease_out t = eased_progress t.
Proof.
  unfold _quintic_ease_out, eased_progress. cbn.
  change (Q2Qc (inject_Z 1)) with 1. ring.
Qed.

Lemma interpolate_0 (s e : QRectF Qc) : interpolate s e 0 = s.
Proof. destruct s, e. unfold interpolate. cbn. f_equal; ring. Qed.

Lemma interpolate_1 (s e : QRectF Qc) : interpolate s e 1 = e.
Proof. destruct s, e. unfold interpolate. cbn. f_equal; ring. Qed.

Lemma eased_progress_0 : eased_progress 0 = 0.
Proof. unfold eased_progress. cbn. ring. Qed.

Lemma eased_progress_1 : eased_progress 1 = 1.
Proof. unfold eased_progress. cbn. ring. Qed.

(** [tick] on an active animator, over the rationals. *)
Lemma tick_exact (a : RectAnimator Qc) (now : Qc) :
  active a = true -> 0 < duration a -> start_time a <= now ->
  let elapsed := now - start_time a in
  let t := clamp01 (elapsed / duration a) in
  tick a now =
    (true, mkRectAnimator (duration a) (start_rect a) (end_rect a)
             (interpolate (start_rect a) (end_rect a) (eased_progress t))
             (start_time a) (negb (le (duration a) elapsed))) /\
  (t = 1 <-> duration a <= elapsed).
Proof.
  intros Hact Hd Hnow elapsed t.
  assert (He : 0 <= elapsed).
  { subst elapsed. apply Qcle_minus_iff in Hnow. exact Hnow. }
  pose proof (div_nonneg elapsed (duration a) Hd He) as Hq.
  pose proof (div_lt_1_iff elapsed (duration a) Hd) as Hlt1.
  assert (Ht : py_min (of_int 1) (truediv (sub now (start_time a)) (duration a)) = t).
  { unfold py_min, t, clamp01. cbn [truediv sub exact]. fold elapsed.
    change (of_int 1) with (1%Qc).
    destruct (Qclt_le_dec (elapsed / duration a) 0) as [H0|H0];
      [exfalso; exact (Qclt_not_le _ _ H0 Hq)|].
    destruct (Qclt_le_dec (elapsed / duration a) 1) as [H1|H1].
    - apply exact_lt_iff in H1. now rewrite H1.
    - apply exact_lt_false_iff in H1. now rewrite H1. }
  assert (Hone : t = 1 <-> duration a <= elapsed).
  { unfold t, clamp01.
    destruct (Qclt_le_dec (elapsed / duration a) 0) as [H0|H0];
      [exfalso; exact (Qclt_not_le _ _ H0 Hq)|].
    destruct (Qclt_le_dec (elapsed / duration a) 1) as [H1|H1].
    - split.
      + intros E. rewrite E in H1. exfalso. exact (Qclt_not_le _ _ H1 (Qcle_refl _)).
      + intros Hle. apply Hlt1 in H1. exfalso. exact (Qclt_not_le _ _ H1 Hle).
    - split; [intros _|reflexivity].
      apply Qcnot_lt_le. intros Hlt. apply Hlt1 in Hlt.
      exact (Qclt_not_le _ _ Hlt H1). }
  split; [|exact Hone].
  unfold tick. rewrite Hact. cbn [negb]. cbv zeta. rewrite Ht.
  rewrite quintic_is_eased_progress.
  change (of_int 1) with (1%Qc).
  destruct (le 1 t) eqn:E1.
  - apply exact_le_iff in E1.
    assert (Et : t = 1).
    { unfold t, clamp01 in *.
      destruct (Qclt_le_dec (elapsed / duration a) 0); [exfalso; apply (Qclt_not_le 0 1); [reflexivity|exact E1]|].
      destruct (Qclt_le_dec (elapsed / duration a) 1) as [H1|H1]; [|reflexivity].
      exfalso. exact (Qclt_not_le _ _ H1 E1). }
    rewrite Et, eased_progress_1, interpolate_1.
    apply Hone in Et. apply exact_le_iff in Et. now rewrite Et.
  - assert (Hn : le (duration a) elapsed = false).
    { destruct (le (duration a) elapsed) eqn:E2; [|reflexivity].
      apply exact_le_iff in E2. apply Hone in E2. rewrite E2 in E1.
      cbn in E1. discriminate. }
    rewrite Hn. reflexivity.
Qed.

End AnimatorExact.

Section AnimatorClaims.
Import window_picker.

Lemma exact_qAbs_nonneg (x : Qc) : le (of_int 0) (qAbs x) = true.
Proof.
  unfold qAbs. destruct (le (of_int 0) x) eqn:E; [exact E|].
  apply exact_le_iff. change (of_int 0) with (0%Qc).
  assert (H : (x <= 0)%Qc).
  { apply Qclt_le_weak, Qcnot_le_lt. intros Hle.
    apply exact_le_iff in Hle. change (of_int 0) with (0%Qc) in E. congruence. }
  apply Qcopp_le_compat in H. exact H.
Qed.

Lemma exact_qFuzzyCompare_refl (x : Qc) : qFuzzyCompare x x = true.
Proof.
  unfold qFuzzyCompare.
  assert (E0 : mul (qAbs (sub x x)) (of_int 1000000000000) = of_int 0).
  { change (sub x x) with (x - x)%Qc. replace (x - x)%Qc with 0%Qc by ring.
    unfold qAbs. change (le (of_int 0) 0%Qc) with true. cbv iota.
    change (mul 0%Qc (of_int 1000000000000)) with (0 * of_int 1000000000000)%Qc.
    change (of_int (F := Qc) 0) with 0%Qc. ring. }
  rewrite E0. unfold qMin.
  destruct (lt (qAbs x) (qAbs x)); apply exact_qAbs_nonneg.
Qed.

(** Over the rationals [==] holds between identical rectangles. *)
Lemma exact_QRectF_eq_refl (r : QRectF Qc) : QRectF_eq r r = true.
Proof. unfold QRectF_eq. now rewrite !exact_qFuzzyCompare_refl. Qed.

(** C3.  For the animator with start (0,0,0,0), end (10,10,100,100) and
    duration 700 ms, computed on IEEE binary64 as CPython does: a tick at
    elapsed time 0 leaves the current rectangle at the start rectangle; a
    tick at 700 ms (or later) sets it to exactly the end rectangle and
    clears [active]; a tick at 350 ms yields a rectangle strictly between
    start and end on every field and stays active; and at every clock
    reading for which elapsed/duration is not below 1 the tick ends on the
    end rectangle.  Over the rationals the same holds at every time from
    700 ms on, and in general a tick of an active animator sets every
    field of the current rectangle to
    [start + (end - start) * (1 - (1 - t)^5)], where [t] is
    elapsed/duration clamped to [0,1]; it deactivates exactly when the
    elapsed time has reached the duration, and the rectangle is then the
    end rectangle. *)
Theorem C3_tick_interpolates_by_quintic_ease_out :
  (start_rect (example_animator (F := float)) = QRectF_null /\
   end_rect (example_animator (F := float)) = QRectF_of_QRect (QRect.xywh 10 10 100 100) /\
   duration (example_animator (F := float)) = ms 700 /\
   tick (example_animator (F := float)) (ms 0) = (true, example_animator) /\
   current_rect (snd (tick (example_animator (F := float)) (ms 0))) = QRectF_null /\
   tick (example_animator (F := float)) (ms 700) = (true, finished example_animator) /\
   tick (example_animator (F := float)) (ms 1000) = (true, finished example_animator) /\
   (forall now : float,
      lt (truediv (sub now (start_time example_animator)) (duration example_animator))
         (of_int 1) = false ->
      tick (example_animator (F := float)) now = (true, finished example_animator)) /\
   fst (tick (example_animator (F := float)) (ms 350)) = true /\
   active (snd (tick (example_animator (F := float)) (ms 350))) = true /\
   strictly_between (start_rect (example_animator (F := float)))
     (current_rect (snd (tick (example_animator (F := float)) (ms 350))))
     (end_rect (example_animator (F := float))) = true) /\
  (forall now : Qc, (ms 700 <= now)%Qc ->
     tick (example_animator (F := Qc)) now = (true, finished example_animator)) /\
  (forall (a : RectAnimator Qc) (now : Qc),
     active a = true -> (0 < duration a)%Qc -> (start_time a <= now)%Qc ->
     let elapsed := (now - start_time a)%Qc in
     let t := clamp01 (elapsed / duration a) in
     tick a now =
       (true, mkRectAnimator (duration a) (start_rect a) (end_rect a)
                (interpolate (start_rect a) (end_rect a) (eased_progress t))
                (start_time a) (negb (le (duration a) elapsed))) /\
     (t = 1%Qc <-> (duration a <= elapsed)%Qc) /\
     ((duration a <= elapsed)%Qc -> tick a now = (true, finished a)) /\
     (elapsed = 0%Qc ->
      current_rect (snd (tick a now)) = start_rect a /\ active (snd (tick a now)) = true)).
Proof.
  assert (Hgen : forall (a : RectAnimator Qc) (now : Qc),
     active a = true -> (0 < duration a)%Qc -> (start_time a <= now)%Qc ->
     let elapsed := (now - start_time a)%Qc in
     let t := clamp01 (elapsed / duration a) in
     tick a now =
       (true, mkRectAnimator (duration a) (start_rect a) (end_rect a)
                (interpolate (start_rect a) (end_rect a) (eased_progress t))
                (start_time a) (negb (le (duration a) elapsed))) /\
     (t = 1%Qc <-> (duration a <= elapsed)%Qc) /\
     ((duration a <= elapsed)%Qc -> tick a now = (true, finished a)) /\
     (elapsed = 0%Qc ->
      current_rect (snd (tick a now)) = start_rect a /\ active (snd (tick a now)) = true)).
  { intros a now Hact Hd Hnow elapsed t.
    destruct (tick_exact a now Hact Hd Hnow) as [Htick Hone].
    fold elapsed in Htick, Hone. fold t in Htick, Hone.
    split; [exact Htick|]. split; [exact Hone|]. split.
    - intros Hle. rewrite Htick. rewrite (proj2 Hone Hle).
      rewrite eased_progress_1, interpolate_1.
      apply exact_le_iff in Hle. now rewrite Hle.
    - intros E0. rewrite Htick. cbn [snd current_rect active].
      assert (Et : t = 0%Qc).
      { unfold t. rewrite E0. replace (0 / duration a)%Qc with 0%Qc.
        - reflexivity.
        - unfold Qcdiv. ring. }
      rewrite Et, eased_progress_0, interpolate_0. split; [reflexivity|].
      rewrite E0. destruct (le (duration a) 0%Qc) eqn:E; [|reflexivity].
      apply exact_le_iff in E. exfalso. exact (Qclt_not_le _ _ Hd E). }
  split; [|split; [|exact Hgen]].
  - repeat split; try (vm_compute; reflexivity).
    intros now Hq. now apply tick_past_end.
  - intros now Hnow.
    assert (Hst : (start_time (example_animator (F := Qc)) <= now)%Qc).
    { apply Qcle_trans with (ms 700); [|exact Hnow]. vm_compute. discriminate. }
    assert (Hd : (0 < duration (example_animator (F := Qc)))%Qc)
      by (vm_compute; reflexivity).
    destruct (Hgen example_animator now eq_refl Hd Hst) as (_ & _ & H & _).
    apply H. replace (now - start_time example_animator)%Qc with now; [exact Hnow|].
    change (start_time (example_animator (F := Qc))) with (0%Qc). ring.
Qed.

Lemma C3_witness :
  active (example_animator (F := Qc)) = true /\
  (0 < duration (example_animator (F := Qc)))%Qc /\
  (start_time (example_animator (F := Qc)) <= ms 350)%Qc /\
  fst (tick (example_animator (F := Qc)) (ms 350)) = true.
Proof.
  assert (H3 : (start_time (example_animator (F := Qc)) <= ms 350)%Qc)
    by (vm_compute; discriminate).
  assert (H2 : (0 < duration (example_animator (F := Qc)))%Qc)
    by (vm_compute; reflexivity).
  split; [reflexivity|]. split; [exact H2|]. split; [exact H3|].
  exact (f_equal fst (proj1 (proj2 (proj2 C3_tick_interpolates_by_quintic_ease_out)
                                example_animator (ms 350) eq_refl H2 H3))).
Defined.

(** C10, as stated, fails on the start rectangle: retargeting an
    animator that has never run sets [end_rect] and [current_rect] to the
    new target and leaves [start_rect] as it was, the null rectangle. *)
Lemma C10_retarget_leaves_start_rect :
  start_rect (animate_to (RectAnimator_init (F := float) 700)
                (QRect.xywh 10 10 100 100) (of_int 0)) = QRectF_null /\
  end_rect (animate_to (RectAnimator_init (F := float) 700)
                (QRect.xywh 10 10 100 100) (of_int 0))
    = QRectF_of_QRect (QRect.xywh 10 10 100 100) /\
  current_rect (animate_to (RectAnimator_init (F := float) 700)
                (QRect.xywh 10 10 100 100) (of_int 0))
    = QRectF_of_QRect (QRect.xywh 10 10 100 100) /\
  active (animate_to (RectAnimator_init (F := float) 700)
                (QRect.xywh 10 10 100 100) (of_int 0)) = false /\
  start_rect (animate_to (RectAnimator_init (F := float) 700)
                (QRect.xywh 10 10 100 100) (of_int 0))
    <> QRectF_of_QRect (QRect.xywh 10 10 100 100).
Proof.
  repeat split; try (vm_compute; reflexivity).
  intros H. apply (f_equal (fun r => lt (rw r) (of_int 50))) in H.
  vm_compute in H. discriminate.
Qed.

(** The current rectangle is also still empty between
    [animate_from_cursor] and the first tick; a retarget then only
    replaces the target of the animation that is under way. *)
Example retarget_before_first_tick :
  QRectF_isEmpty (current_rect (example_animator (F := float))) = true /\
  active (animate_to (example_animator (F := float)) (QRect.xywh 20 20 50 50) (ms 5)) = true /\
  start_rect (animate_to (example_animator (F := float)) (QRect.xywh 20 20 50 50) (ms 5))
    = QRectF_null /\
  end_rect (animate_to (example_animator (F := float)) (QRect.xywh 20 20 50 50) (ms 5))
    = QRectF_of_QRect (QRect.xywh 20 20 50 50).
Proof. repeat split; vm_compute; reflexivity. Qed.

(** C10, amended.  If the current rectangle is still empty,
    [animate_to(newEnd)] sets the end and the current rectangle to
    [newEnd] and changes nothing else: the start rectangle, the start time
    and the active flag stay as they were, so an animator that has never
    run stays inactive and its ticks do nothing (no motion).  If the
    current rectangle is not empty and [newEnd == end_rect], the whole
    animator state is left unchanged and no animation is started; over the
    rationals this holds whenever [newEnd] is the end rectangle.
    Retargeting twice to the same rectangle leaves the state the first
    call produced. *)
Theorem C10_retarget_when_empty_or_same_target :
  forall (F : Type) (fl : PyFloat F) (a : RectAnimator F) (newEnd : QRect.t) (now : F),
    (QRectF_isEmpty (current_rect a) = true ->
       animate_to a newEnd now =
         mkRectAnimator (duration a) (start_rect a) (QRectF_of_QRect newEnd)
           (QRectF_of_QRect newEnd) (start_time a) (active a) /\
       (active a = false ->
        active (animate_to a newEnd now) = false /\
        forall later, tick (animate_to a newEnd now) later
                      = (false, animate_to a newEnd now))) /\
    (QRectF_isEmpty (current_rect a) = false ->
     QRectF_eq (QRectF_of_QRect newEnd) (end_rect a) = true ->
     animate_to a newEnd now = a) /\
    (QRectF_eq (QRectF_of_QRect newEnd) (QRectF_of_QRect newEnd) = true ->
     forall later, animate_to (animate_to a newEnd now) newEnd later
                   = animate_to a newEnd now) /\
    (forall (b : RectAnimator Qc) (t0 t1 : Qc),
       QRectF_isEmpty (current_rect b) = false ->
       QRectF_of_QRect newEnd = end_rect b ->
       animate_to b newEnd t0 = b /\
       animate_to (animate_to b newEnd t0) newEnd t1 = b).
Proof.
  intros F fl a newEnd now. split; [|split; [|split]].
  - intros He. rewrite (animate_to_on_empty a newEnd now He). split; [reflexivity|].
    intros Hin. cbn [active]. split; [exact Hin|].
    intros later. apply tick_inactive. exact Hin.
  - apply animate_to_same_target.
  - intros Hrefl later. now apply animate_to_twice.
  - intros b t0 t1 Hne Heq.
    assert (E : animate_to b newEnd t0 = b).
    { apply animate_to_same_target; [exact Hne|].
      rewrite Heq. apply exact_QRectF_eq_refl. }
    split; [exact E|]. rewrite E.
    apply animate_to_same_target; [exact Hne|].
    rewrite Heq. apply exact_QRectF_eq_refl.
Qed.

Lemma C10_witness :
  QRectF_isEmpty (current_rect (RectAnimator_init (F := float) 700)) = true /\
  active (RectAnimator_init (F := float) 700) = false /\
  tick (animate_to (RectAnimator_init (F := float) 700)
          (QRect.xywh 10 10 100 100) (of_int 0)) (ms 16)
    = (false, animate_to (RectAnimator_init (F := float) 700)
                (QRect.xywh 10 10 100 100) (of_int 0)).
Proof.
  split; [reflexivity|]. split; [reflexivity|].
  exact (proj2 (proj2 (proj1
    (C10_retarget_when_empty_or_same_target float binary64
       (RectAnimator_init 700) (QRect.xywh 10 10 100 100) (of_int 0))
    eq_refl) eq_refl) (ms 16)).
Defined.

End AnimatorClaims.

(** ** Window Picker: the hit tree *)

Arguments window_picker.bind : simpl never.

Section PickerTree.
Import window_picker.
Context {F : Type} {fl : PyFloat F}.
Variable host : Host.
Variable now : F.

Lemma bind_run {A B : Type} (m : M A) (k : A -> M B) (s : WindowPicker F) :
  bind m k s =
  (result (k (result (m s)) (state (m s))),
   state (k (result (m s)) (state (m s))),
   effects (m s) ++ effects (k (result (m s)) (state (m s)))).
Proof.
  unfold bind, result, state, effects.
  destruct (m s) as [[a s1] fx1]. cbn.
  destruct (k a s1) as [[b s2] fx2]. reflexivity.
Qed.

Lemma same_frame_refl (s : WindowPicker F) : same_frame s s.
Proof. repeat split. Qed.

Lemma same_frame_trans (s1 s2 s3 : WindowPicker F) :
  same_frame s1 s2 -> same_frame s2 s3 -> same_frame s1 s3.
Proof.
  unfold same_frame. intros (?&?&?&?&?&?&?&?) (?&?&?&?&?&?&?&?).
  repeat split; congruence.
Qed.

Lemma enum_cached (parent : HWND) (s : WindowPicker F) (l : list Node) :
  _child_cache s !! parent = Some l ->
  _enum_direct_children host parent s = (l, s, []).
Proof.
  intros H. unfold _enum_direct_children. rewrite bind_run. cbn.
  rewrite H. reflexivity.
Qed.

Lemma enum_not_cached (parent : HWND) (s : WindowPicker F) :
  _child_cache s !! parent = None ->
  _enum_direct_children host parent s =
    (fresh_children host parent,
     set_child_cache (<[parent := fresh_children host parent]> (_child_cache s)) s,
     [GetWindow_children parent]).
Proof.
  intros H. unfold _enum_direct_children. rewrite bind_run. cbn.
  rewrite H. rewrite !bind_run. reflexivity.
Qed.

(** Whatever the cache holds, the enumeration changes it at most at
    [parent] and leaves the rest of the picker alone. *)
Lemma enum_frame (parent : HWND) (s : WindowPicker F) :
  let r := _enum_direct_children host parent s in
  same_frame s (state r) /\
  _current_hwnd (state r) = _current_hwnd s /\
  _current_rect (state r) = _current_rect s /\
  _animator (state r) = _animator s /\
  _first_highlight (state r) = _first_highlight s /\
  _child_cache (state r) !! parent = Some (result r) /\
  (forall k, k <> parent -> _child_cache (state r) !! k = _child_cache s !! k) /\
  (effects r = [] \/ effects r = [GetWindow_children parent]).
Proof.
  cbv zeta. destruct (_child_cache s !! parent) as [l|] eqn:E.
  - rewrite (enum_cached parent s l E). cbn. repeat split; auto.
  - rewrite (enum_not_cached parent s E). cbn. repeat split; auto.
    + apply lookup_insert_eq.
    + intros k Hk. now apply lookup_insert_ne.
Qed.

Lemma find_at_root (s : WindowPicker F) (sx sy : Z) :
  _parent_stack s = [] ->
  _find_window_at host sx sy s = (hit_or (_top_windows s) sx sy (0, QRect.null), s, []).
Proof.
  intros H. unfold _find_window_at, hit_or. rewrite bind_run. cbn. rewrite H. cbn.
  rewrite bind_run. cbn. destruct (scan_nodes (_top_windows s) sx sy); reflexivity.
Qed.

Lemma find_below_root (s : WindowPicker F) (sx sy : Z) (below : list HWND) (parent : HWND) :
  _parent_stack s = below ++ [parent] ->
  _find_window_at host sx sy s =
    (hit_or (result (_enum_direct_children host parent s)) sx sy
       (parent, _get_win_rect host parent),
     state (_enum_direct_children host parent s),
     effects (_enum_direct_children host parent s)).
Proof.
  intros H. unfold _find_window_at, hit_or. rewrite bind_run. cbn. rewrite H.
  rewrite last_snoc. rewrite bind_run.
  destruct (scan_nodes (result (_enum_direct_children host parent s)) sx sy);
    cbn; now rewrite app_nil_r.
Qed.

(** The hit test changes the picker at most in the cache entry of the
    top of the drill stack. *)
Lemma find_frame (s : WindowPicker F) (sx sy : Z) :
  let r := _find_window_at host sx sy s in
  same_frame s (state r) /\
  _current_hwnd (state r) = _current_hwnd s /\
  _current_rect (state r) = _current_rect s /\
  _animator (state r) = _animator s /\
  _first_highlight (state r) = _first_highlight s /\
  (forall k, last (_parent_stack s) <> Some k ->
     _child_cache (state r) !! k = _child_cache s !! k) /\
  (forall k, last (_parent_stack s) <> Some k -> ~ In (GetWindow_children k) (effects r)).
Proof.
  cbv zeta. destruct (last (_parent_stack s)) as [h0|] eqn:E.
  - pose proof E as E'. apply last_Some in E' as [below E'].
    rewrite (find_below_root s sx sy _ _ E'). cbn [result state effects fst snd].
    destruct (enum_frame h0 s) as (Hf & Hh & Hr & Ha & Hfh & _ & Hk & Hfx).
    cbv zeta in *.
    do 5 (split; [assumption|]). split.
    + intros k Hne. apply Hk. congruence.
    + intros k Hne Hin. destruct Hfx as [Hfx|Hfx]; rewrite Hfx in Hin; cbn in Hin; [tauto|].
      destruct Hin as [[= <-]|[]]. congruence.
  - apply last_None in E.
    rewrite (find_at_root s sx sy E). cbn [result state effects fst snd].
    split; [apply same_frame_refl|]. do 4 (split; [reflexivity|]). split.
    + reflexivity.
    + intros k _ [].
Qed.

(** What [_update_highlight] makes of the node found under the pointer. *)
Ltac hl_done :=
  repeat split; cbn; intros; auto;
  try reflexivity; try lia; try (exfalso; lia); try congruence.

Lemma update_highlight_spec (s : WindowPicker F) :
  is_win32 host = true ->
  let g := mapToGlobal s (current_pos s) in
  let found := _find_window_at host (QPoint.x g) (QPoint.y g) s in
  let r := _update_highlight host now s in
  effects r = effects found /\
  same_frame (state found) (state r) /\
  _child_cache (state r) = _child_cache (state found) /\
  (fst (result found) <> 0 -> 0 < QRect.width (snd (result found)) ->
     _current_hwnd (state r) = fst (result found)) /\
  (fst (result found) = 0 ->
     _current_hwnd (state r) = 0 /\ _current_rect (state r) = QRect.null) /\
  (fst (result found) <> 0 -> QRect.width (snd (result found)) <= 0 ->
     state r = state found).
Proof.
  intros Hwin. cbv zeta. unfold _update_highlight. rewrite Hwin. cbn [negb].
  rewrite bind_run. cbn [gets result state effects fst snd id app].
  rewrite bind_run.
  set (found := _find_window_at host _ _ s).
  destruct (result found) as [hwnd rect] eqn:Eres. cbn [fst snd].
  destruct (hwnd =? 0) eqn:E0; cbn [negb andb].
  - assert (hwnd = 0) by lia. subst hwnd.
    unfold modify, result, state, effects in *. cbn. rewrite app_nil_r.
    hl_done.
  - assert (hwnd <> 0) by lia.
    destruct (QRect.width rect >? 0) eqn:Ew.
    + rewrite bind_run. cbn [gets result state effects fst snd id app].
      destruct (hwnd =? _current_hwnd (state found)) eqn:Ec; cbn [negb].
      * unfold ret, result, state, effects in *. cbn. rewrite app_nil_r.
        hl_done.
      * rewrite bind_run. cbn [modify result state effects fst snd app].
        destruct (_first_highlight (state found)).
        -- rewrite bind_run. unfold modify, result, state, effects in *. cbn.
           rewrite app_nil_r. hl_done.
        -- unfold modify, result, state, effects in *. cbn.
           rewrite app_nil_r. hl_done.
    + unfold ret, result, state, effects in *. cbn. rewrite app_nil_r.
      hl_done.
Qed.

(** On either platform the highlight leaves the frame alone, and touches
    the cache and user32 at most for the top of the drill stack. *)
Lemma update_highlight_frame (s : WindowPicker F) :
  let r := _update_highlight host now s in
  same_frame s (state r) /\
  (forall k, last (_parent_stack s) <> Some k ->
     _child_cache (state r) !! k = _child_cache s !! k /\
     ~ In (GetWindow_children k) (effects r)).
Proof.
  cbv zeta. destruct (is_win32 host) eqn:Hwin.
  - destruct (update_highlight_spec s Hwin) as (Hfx & Hfr & Hc & _).
    cbv zeta in *.
    set (g := mapToGlobal s (current_pos s)) in *.
    destruct (find_frame s (QPoint.x g) (QPoint.y g)) as (Hf & _ & _ & _ & _ & Hk & Hn).
    cbv zeta in *. split; [eapply same_frame_trans; eassumption|].
    intros k Hne. rewrite Hc, Hfx. split; [now apply Hk | now apply Hn].
  - unfold _update_highlight. rewrite Hwin. cbn.
    split; [apply same_frame_refl|]. intros k _. split; [reflexivity | intros []].
Qed.

(** What [_update_highlight] makes of the node found, handle and
    rectangle. *)
Lemma update_highlight_node (s : WindowPicker F) :
  is_win32 host = true ->
  let g := mapToGlobal s (current_pos s) in
  let found := _find_window_at host (QPoint.x g) (QPoint.y g) s in
  let r := _update_highlight host now s in
  (fst (result found) <> 0 -> 0 < QRect.width (snd (result found)) ->
     highlights s (state r) (result found)) /\
  (fst (result found) = 0 ->
     _current_hwnd (state r) = 0 /\ _current_rect (state r) = QRect.null) /\
  (fst (result found) <> 0 -> QRect.width (snd (result found)) <= 0 ->
     same_highlight s (state r)).
Proof.
  intros Hwin. cbv zeta.
  destruct (find_frame s (QPoint.x (mapToGlobal s (current_pos s)))
              (QPoint.y (mapToGlobal s (current_pos s))))
    as (_ & Hh & Hr & _). cbv zeta in Hh, Hr.
  unfold highlights, same_highlight.
  unfold _update_highlight. rewrite Hwin. cbn [negb].
  rewrite bind_run. cbn [gets result state effects fst snd id app].
  rewrite bind_run.
  set (found := _find_window_at host _ _ s) in *.
  destruct (result found) as [hwnd rect] eqn:Eres. cbn [fst snd].
  destruct (hwnd =? 0) eqn:E0; cbn [negb andb].
  - assert (hwnd = 0) by lia. subst hwnd.
    unfold modify, result, state, effects in *. cbn.
    split; [intros; lia|]. split; [auto|]. intros; lia.
  - assert (Hne : hwnd <> 0) by lia.
    split; [|split; [intros; lia|]].
    + intros _ Hw. replace (QRect.width rect >? 0) with true by lia.
      rewrite bind_run. cbn [gets result state effects fst snd id app].
      rewrite Hh. destruct (hwnd =? _current_hwnd s) eqn:Ec; cbn [negb].
      * unfold ret, result, state, effects in *. cbn. split; [lia | exact Hr].
      * rewrite bind_run. cbn [modify result state effects fst snd app].
        destruct (_first_highlight (state found)).
        -- rewrite bind_run. unfold modify, result, state, effects in *. cbn. auto.
        -- unfold modify, result, state, effects in *. cbn. auto.
    + intros _ Hw. replace (QRect.width rect >? 0) with false by lia.
      unfold ret, result, state, effects in *. cbn. auto.
Qed.

Lemma walk_chain_ok (chain : list HWND) : Forall node_ok (walk_chain host chain).
Proof.
  induction chain as [|child rest IH]; cbn; [constructor|].
  destruct (child =? 0) eqn:E0; [constructor|].
  destruct (IsWindowVisible (user32 host) child); [|exact IH].
  destruct ((QRect.width (_get_win_rect host child) >? 2)
            && (QRect.height (_get_win_rect host child) >? 2)) eqn:Ew; [|exact IH].
  constructor; [|exact IH]. apply andb_true_iff in Ew as [Ew _].
  split; cbn; lia.
Qed.

Lemma enum_cb_ok (own : HWND) (l : list HWND) :
  Forall (fun hwnd => hwnd <> 0) l ->
  Forall node_ok (omap (enum_cb host own) l).
Proof.
  induction 1 as [|hwnd l Hh Hl IH]; cbn; [constructor|].
  unfold enum_cb at 1.
  destruct (hwnd =? own); [exact IH|].
  destruct (negb (IsWindowVisible (user32 host) hwnd)); [exact IH|].
  destruct (GetWindowTextLengthW (user32 host) hwnd =? 0); [exact IH|].
  destruct ((QRect.width (_get_win_rect host hwnd) <? 5)
            || (QRect.height (_get_win_rect host hwnd) <? 5)) eqn:Ew; [exact IH|].
  constructor; [|exact IH]. apply orb_false_iff in Ew as [Ew _].
  split; cbn; [exact Hh | lia].
Qed.

Lemma enum_result_ok (parent : HWND) (s : WindowPicker F) :
  picker_ok s ->
  Forall node_ok (result (_enum_direct_children host parent s)) /\
  picker_ok (state (_enum_direct_children host parent s)).
Proof.
  intros (Ht & Hc & Hs). destruct (_child_cache s !! parent) as [l|] eqn:E.
  - rewrite (enum_cached parent s l E). cbn. split; [eauto|]. now repeat split.
  - rewrite (enum_not_cached parent s E). cbn. split; [apply walk_chain_ok|].
    split; [exact Ht|]. split; [|exact Hs]. cbn. intros p l.
    destruct (decide (parent = p)) as [->|Hne].
    + rewrite lookup_insert_eq. intros [= <-]. apply walk_chain_ok.
    + rewrite lookup_insert_ne by exact Hne. apply Hc.
Qed.

Lemma scan_nodes_first (g : QPoint.t) (pre post : list Node) (n : Node) :
  Forall (misses g) pre ->
  QRect.contains (snd n) (QPoint.x g) (QPoint.y g) = true ->
  scan_nodes (pre ++ n :: post) (QPoint.x g) (QPoint.y g) = Some n.
Proof.
  intros Hpre Hin. induction Hpre as [|[h0 r0] pre Hm Hpre IH]; cbn.
  - destruct n as [h r]. cbn in Hin. now rewrite Hin.
  - unfold misses in Hm. cbn in Hm. now rewrite Hm.
Qed.

Lemma scan_nodes_none (g : QPoint.t) (nodes : list Node) :
  Forall (misses g) nodes ->
  scan_nodes nodes (QPoint.x g) (QPoint.y g) = None.
Proof.
  induction 1 as [|[h0 r0] l Hm Hl IH]; cbn; [reflexivity|].
  unfold misses in Hm. cbn in Hm. now rewrite Hm.
Qed.

Lemma picker_ok_same (s s' : WindowPicker F) :
  _top_windows s' = _top_windows s -> _child_cache s' = _child_cache s ->
  _parent_stack s' = _parent_stack s -> picker_ok s -> picker_ok s'.
Proof. unfold picker_ok. intros -> -> ->. auto. Qed.

Lemma find_ok (s : WindowPicker F) (sx sy : Z) :
  picker_ok s -> picker_ok (state (_find_window_at host sx sy s)).
Proof.
  intros Hok. destruct (last (_parent_stack s)) as [parent|] eqn:E.
  - apply last_Some in E as [below E]. rewrite (find_below_root s sx sy _ _ E).
    cbn [state fst snd]. now apply enum_result_ok.
  - apply last_None in E. now rewrite (find_at_root s sx sy E).
Qed.

Lemma update_highlight_ok (s : WindowPicker F) :
  picker_ok s -> picker_ok (state (_update_highlight host now s)).
Proof.
  intros Hok. destruct (is_win32 host) eqn:Hwin.
  - destruct (update_highlight_spec s Hwin) as (_ & Hfr & Hc & _). cbv zeta in *.
    destruct Hfr as (_ & _ & Ht & Hs & _).
    eapply picker_ok_same; [exact Ht | exact Hc | exact Hs |]. now apply find_ok.
  - unfold _update_highlight. now rewrite Hwin.
Qed.

Lemma init_ok (shot : QPixmap) : picker_ok (__init__ host shot).
Proof.
  repeat split; cbn; try constructor. intros p l. now rewrite lookup_empty.
Qed.

Lemma init_windows_ok (cursor : QPoint.t) (winId : HWND) (s : WindowPicker F) :
  Forall (fun hwnd => hwnd <> 0) (EnumWindows (user32 host)) ->
  picker_ok s -> picker_ok (state (_init_windows host now cursor winId s)).
Proof.
  intros Hhost (Ht & Hc & Hs). unfold _init_windows.
  destruct (negb (is_win32 host)); [now repeat split|].
  rewrite !bind_run. cbn [modify result state effects fst snd].
  apply update_highlight_ok. split; [now apply enum_cb_ok|]. now split.
Qed.

Lemma page_down_ok (s : WindowPicker F) :
  picker_ok s -> picker_ok (state (_page_down host now s)).
Proof.
  intros Hok. unfold _page_down. rewrite bind_run. cbn [gets result state effects fst snd].
  destruct (_current_hwnd s =? 0) eqn:E0; [exact Hok|].
  rewrite bind_run.
  destruct (enum_result_ok (_current_hwnd s) s Hok) as [_ Hok1].
  destruct (enum_frame (_current_hwnd s) s) as (_ & Hcur & _). cbv zeta in Hcur.
  destruct (result (_enum_direct_children host (_current_hwnd s) s)); [exact Hok1|].
  rewrite !bind_run. cbn [modify result state effects fst snd].
  apply update_highlight_ok.
  destruct Hok1 as (Ht & Hc & Hs). repeat split; cbn; auto.
  apply Forall_app. split; [exact Hs|]. constructor; [|constructor]. rewrite Hcur. lia.
Qed.

Lemma page_up_ok (s : WindowPicker F) :
  picker_ok s -> picker_ok (state (_page_up host now s)).
Proof.
  intros Hok. unfold _page_up. rewrite bind_run. cbn [gets result state effects fst snd].
  destruct (last (_parent_stack s)) as [parent|] eqn:E; [|exact Hok].
  rewrite !bind_run. cbn [modify result state effects fst snd].
  apply update_highlight_ok.
  destruct Hok as (Ht & Hc & Hs). repeat split; cbn; auto.
  - intros p l Hl. apply lookup_delete_Some in Hl as [_ Hl]. eauto.
  - apply last_Some in E as [below E]. rewrite E in *. rewrite removelast_last.
    apply Forall_app in Hs as [Hs _]. exact Hs.
Qed.

Lemma nudge_ok (cursor : QPoint.t) (dx dy : Z) (s : WindowPicker F) :
  picker_ok s -> picker_ok (state (_nudge_cursor host now cursor dx dy s)).
Proof.
  intros Hok. unfold _nudge_cursor. rewrite !bind_run.
  cbn [modify perform result state effects fst snd].
  apply update_highlight_ok. exact Hok.
Qed.

(** Every input handler keeps the invariant. *)
Lemma key_ok (cursor : QPoint.t) (key : overlay.Key) (ctrl : bool) (s : WindowPicker F) :
  picker_ok s -> picker_ok (state (keyPressEvent host now cursor key ctrl s)).
Proof.
  intros Hok. destruct key; cbn [keyPressEvent];
    try (rewrite !bind_run; cbn [modify perform result state effects fst snd]; exact Hok);
    try exact Hok;
    try (now apply page_down_ok); try (now apply page_up_ok); try (now apply nudge_ok).
  - rewrite bind_run. cbn [gets result state effects fst snd id].
    destruct (negb (QRect.isEmpty (_current_rect s))); [|exact Hok].
    rewrite !bind_run. exact Hok.
  - rewrite bind_run. cbn [gets result state effects fst snd id].
    destruct (negb (QRect.isEmpty (_current_rect s))); [|exact Hok].
    rewrite !bind_run. exact Hok.
Qed.

Lemma move_ok (pos : QPoint.t) (s : WindowPicker F) :
  picker_ok s -> picker_ok (state (mouseMoveEvent host now pos s)).
Proof.
  intros Hok. unfold mouseMoveEvent. rewrite bind_run.
  cbn [modify result state effects fst snd]. apply update_highlight_ok. exact Hok.
Qed.

End PickerTree.

(** ** Window Picker: the claims *)

Section PickerClaims.
Import window_picker.
Context {F : Type} {fl : PyFloat F}.

(** C7, amended.  On Windows, with the hit tree as the enumerations
    build it, a pointer move to any position hit-tests as follows.  At the
    root level the node hit is the first top-level node in order whose
    rectangle contains the pointer's screen position; it becomes the
    highlight, and if no top-level rectangle contains the position the
    highlight clears (handle 0 and the null rectangle).  Below the root,
    with [children] the cached child list of the parent on top of the
    drill stack (enumerated on the spot when the cache has none), the node
    hit is the first child in order whose rectangle contains the position
    and it becomes the highlight; when no child contains it the node hit
    is the parent itself with the rectangle the host reports for it now:
    it becomes the highlight if that rectangle has positive width, and
    otherwise the highlight is left as it was.  A node that becomes the
    highlight while it is the highlighted one already is left as it is. *)
Theorem C7_hit_test_sets_highlight :
  forall (host : Host) (now : F) (s : WindowPicker F) (pos : QPoint.t),
    is_win32 host = true -> picker_ok s ->
    let g := mapToGlobal s pos in
    let s' := state (mouseMoveEvent host now pos s) in
    (_parent_stack s = [] ->
       (forall (pre post : list Node) (hit : Node),
          _top_windows s = pre ++ hit :: post ->
          Forall (misses g) pre ->
          QRect.contains (snd hit) (QPoint.x g) (QPoint.y g) = true ->
          highlights s s' hit) /\
       (Forall (misses g) (_top_windows s) ->
          _current_hwnd s' = 0 /\ _current_rect s' = QRect.null)) /\
    (forall below parent,
       _parent_stack s = below ++ [parent] ->
       let children := result (_enum_direct_children host parent s) in
       (forall l, _child_cache s !! parent = Some l -> children = l) /\
       (forall (pre post : list Node) (hit : Node),
          children = pre ++ hit :: post ->
          Forall (misses g) pre ->
          QRect.contains (snd hit) (QPoint.x g) (QPoint.y g) = true ->
          highlights s s' hit) /\
       (Forall (misses g) children ->
        (0 < QRect.width (_get_win_rect host parent) ->
         highlights s s' (parent, _get_win_rect host parent) /\ _current_hwnd s' <> 0) /\
        (QRect.width (_get_win_rect host parent) <= 0 -> same_highlight s s'))).
Proof.
  intros host now s pos Hwin Hok g s'.
  set (s0 := set_current_pos pos s).
  assert (Es' : s' = state (_update_highlight host now s0)).
  { unfold s', mouseMoveEvent. rewrite bind_run. reflexivity. }
  assert (Hok0 : picker_ok s0) by exact Hok.
  destruct (update_highlight_node host now s0 Hwin) as (Hhit & Hnone & Hkeep).
  cbv zeta in Hhit, Hnone, Hkeep.
  change (mapToGlobal s0 (current_pos s0)) with g in Hhit, Hnone, Hkeep.
  rewrite <- Es' in Hhit, Hnone, Hkeep. clear Es'.
  change (highlights s0 s') with (highlights s s') in Hhit.
  change (same_highlight s0 s') with (same_highlight s s') in Hkeep.
  clearbody g s'.
  split.
  - intros Hroot.
    assert (Hfind := find_at_root host s0 (QPoint.x g) (QPoint.y g) Hroot).
    rewrite Hfind in Hhit, Hnone.
    change (result (?a, ?b, ?c)) with a in Hhit, Hnone.
    change (_top_windows s0) with (_top_windows s) in Hhit, Hnone.
    destruct Hok as (Htop & _ & _). split.
    + intros pre post hit Etop Hpre Hin.
      unfold hit_or in Hhit.
      rewrite Etop, (scan_nodes_first g pre post hit Hpre Hin) in Hhit.
      rewrite Etop in Htop. apply Forall_app in Htop as [_ Htop].
      apply Forall_cons_1 in Htop as [[Hh Hw] _].
      apply Hhit; assumption.
    + intros Hall. unfold hit_or in Hnone.
      rewrite (scan_nodes_none g _ Hall) in Hnone. now apply Hnone.
  - intros below parent Hstack children.
    assert (Hsame : result (_enum_direct_children host parent s0) = children).
    { unfold children, _enum_direct_children. rewrite !bind_run.
      cbn [gets result state effects fst snd].
      change (_child_cache s0) with (_child_cache s).
      destruct (_child_cache s !! parent); [reflexivity|]. now rewrite !bind_run. }
    assert (Hfind := find_below_root host s0 (QPoint.x g) (QPoint.y g) below parent Hstack).
    rewrite Hfind in Hhit, Hnone, Hkeep.
    change (result (?a, ?b, ?c)) with a in Hhit, Hnone, Hkeep.
    rewrite Hsame in Hhit, Hnone, Hkeep.
    destruct (enum_result_ok host parent s Hok) as [Hch _]. fold children in Hch.
    split; [|split].
    + intros l Hl. unfold children. now rewrite (enum_cached host parent s l Hl).
    + intros pre post hit Ech Hpre Hin.
      unfold hit_or in Hhit.
      rewrite Ech, (scan_nodes_first g pre post hit Hpre Hin) in Hhit.
      rewrite Ech in Hch. apply Forall_app in Hch as [_ Hch].
      apply Forall_cons_1 in Hch as [[Hh Hw] _].
      apply Hhit; assumption.
    + intros Hall. unfold hit_or in Hhit, Hkeep.
      rewrite (scan_nodes_none g _ Hall) in Hhit, Hkeep. cbn [fst snd] in Hhit, Hkeep.
      destruct Hok as (_ & _ & Hst). rewrite Hstack in Hst.
      apply Forall_app in Hst as [_ Hst]. apply Forall_cons_1 in Hst as [Hp _].
      split.
      * intros Hw. pose proof (Hhit Hp Hw) as Hhl. split; [exact Hhl|].
        destruct Hhl as [Hh' _]. cbn [fst] in Hh'. now rewrite Hh'.
      * intros Hw. now apply Hkeep.
Qed.

(** C9.  Every terminal transition of the Window Picker, that is a
    primary click or Enter/Return while the highlight is not empty, and
    Escape or a right click, performs exactly three effects in this order:
    the animation timer is stopped, the overlay is hidden, and the
    emission of the terminal signal is handed to a 50 ms single-shot
    timer (a delay of tens of milliseconds).  The handler itself emits
    nothing. *)
Theorem C9_terminal_transitions_stop_hide_then_defer :
  forall (host : Host) (now : F) (cursor : QPoint.t) (ctrl : bool) (s : WindowPicker F),
    (QRect.isEmpty (_current_rect s) = false ->
       let confirm :=
         teardown_then_deferred (element_selected (_to_display s (_current_rect s))) in
       mousePressEvent overlay.LeftButton s = (tt, s, confirm) /\
       keyPressEvent host now cursor overlay.Key_Return ctrl s = (tt, s, confirm) /\
       keyPressEvent host now cursor overlay.Key_Enter ctrl s = (tt, s, confirm)) /\
    mousePressEvent overlay.RightButton s = (tt, s, teardown_then_deferred cancelled) /\
    keyPressEvent host now cursor overlay.Key_Escape ctrl s
      = (tt, s, teardown_then_deferred cancelled) /\
    (forall sig sig', ~ In (emit sig') (teardown_then_deferred sig)) /\
    (forall sig delay sig',
       In (singleShot delay sig') (teardown_then_deferred sig) ->
       sig' = sig /\ 10 <= delay < 100).
Proof.
  intros host now cursor ctrl s. split; [|split; [|split; [|split]]].
  - intros Hne. cbv zeta.
    unfold mousePressEvent, keyPressEvent. rewrite !bind_run.
    cbn [gets result state effects fst snd id]. rewrite Hne. cbn [negb].
    rewrite !bind_run. repeat split.
  - unfold mousePressEvent. now rewrite !bind_run.
  - unfold keyPressEvent. now rewrite !bind_run.
  - intros sig sig' [H|[H|[H|[]]]]; discriminate.
  - intros sig delay sig' [H|[H|[H|[]]]]; try discriminate.
    injection H as <- <-. split; [reflexivity | lia].
Qed.

Lemma page_up_run (host : Host) (now : F) (s : WindowPicker F)
  (below : list HWND) (parent : HWND) :
  _parent_stack s = below ++ [parent] ->
  let s1 := set_first_highlight true (set_current_hwnd 0 (pop_and_evict parent s)) in
  _page_up host now s =
    (tt, state (_update_highlight host now s1), effects (_update_highlight host now s1)).
Proof.
  intros Hst. cbv zeta. unfold _page_up. rewrite bind_run.
  cbn [gets result state effects fst snd]. rewrite Hst, last_snoc.
  rewrite !bind_run. cbn [modify result state effects fst snd app].
  destruct (_update_highlight host now _) as [[[] s2] fx]. reflexivity.
Qed.

Lemma update_highlight_effects_cached (host : Host) (now : F) (s : WindowPicker F)
  (below : list HWND) (parent : HWND) (l : list Node) :
  _parent_stack s = below ++ [parent] -> _child_cache s !! parent = Some l ->
  effects (_update_highlight host now s) = [].
Proof.
  intros Hst Hc. destruct (is_win32 host) eqn:Hwin.
  - destruct (update_highlight_spec host now s Hwin) as (Hfx & _). cbv zeta in Hfx.
    rewrite Hfx, (find_below_root host s _ _ below parent Hst).
    now rewrite (enum_cached host parent s l Hc).
  - unfold _update_highlight. now rewrite Hwin.
Qed.

Lemma page_down_cached (host : Host) (now : F) (s : WindowPicker F) (l : list Node) :
  _child_cache s !! _current_hwnd s = Some l ->
  effects (_page_down host now s) = [].
Proof.
  intros Hc. unfold _page_down. rewrite bind_run.
  cbn [gets result state effects fst snd app].
  destruct (_current_hwnd s =? 0); [reflexivity|].
  rewrite bind_run, (enum_cached host _ s l Hc).
  change (result (?a, ?b, ?c)) with a. change (state (?a, ?b, ?c)) with b.
  change (effects (?a, ?b, ?c)) with c. cbn [app].
  destruct l as [|n l']; [reflexivity|].
  rewrite !bind_run. cbn [modify result state effects fst snd app].
  eapply update_highlight_effects_cached; [reflexivity | exact Hc].
Qed.

Lemma page_down_not_cached (host : Host) (now : F) (s : WindowPicker F) :
  _child_cache s !! _current_hwnd s = None -> _current_hwnd s <> 0 ->
  exists rest,
    effects (_page_down host now s) = GetWindow_children (_current_hwnd s) :: rest.
Proof.
  intros Hc Hnz. unfold _page_down. rewrite bind_run.
  cbn [gets result state effects fst snd app].
  destruct (_current_hwnd s =? 0) eqn:E0; [lia|].
  rewrite bind_run, (enum_not_cached host _ s Hc).
  change (effects (?a, ?b, ?c)) with c. cbn [app]. eexists. reflexivity.
Qed.

(** C6, amended.  Ascend pops the drill stack and evicts the popped
    parent's entry from the child cache.  If the window left on top of the
    stack is another one (or the stack is now empty), the entry is still
    absent when the ascend returns, the ascend has not asked user32 for the
    parent's children, and the next descend into that parent, while the
    entry is absent, enumerates them afresh.  If the same window is still
    on top of the stack, the ascend's own hit test enumerates them afresh
    and caches the new list.  Either way the evicted list is never looked
    up again.  A descend into a parent that is present in the cache reuses
    the cached list and asks user32 nothing. *)
Theorem C6_ascend_evicts_then_first_lookup_reenumerates :
  forall (host : Host) (now : F) (s : WindowPicker F)
         (below : list HWND) (parent : HWND),
    _parent_stack s = below ++ [parent] ->
    let up := _page_up host now s in
    _parent_stack (state up) = below /\
    _child_cache (pop_and_evict parent s) !! parent = None /\
    (last below <> Some parent ->
       _child_cache (state up) !! parent = None /\
       ~ In (GetWindow_children parent) (effects up) /\
       (forall (host' : Host) (now' : F) (s2 : WindowPicker F),
          _child_cache s2 !! parent = None -> _current_hwnd s2 = parent -> parent <> 0 ->
          exists rest,
            effects (_page_down host' now' s2) = GetWindow_children parent :: rest)) /\
    (last below = Some parent -> is_win32 host = true ->
       effects up = [GetWindow_children parent] /\
       _child_cache (state up) !! parent = Some (fresh_children host parent)) /\
    (forall (host' : Host) (now' : F) (s2 : WindowPicker F) (l : list Node),
       _child_cache s2 !! parent = Some l ->
       _enum_direct_children host' parent s2 = (l, s2, []) /\
       (_current_hwnd s2 = parent -> effects (_page_down host' now' s2) = [])).
Proof.
  intros host now s below parent Hst up.
  pose proof (page_up_run host now s below parent Hst) as Hup. cbv zeta in Hup.
  set (s1 := set_first_highlight true (set_current_hwnd 0 (pop_and_evict parent s))) in *.
  assert (Hst1 : _parent_stack s1 = below).
  { cbn. rewrite Hst. apply removelast_last. }
  assert (Hc1 : _child_cache s1 !! parent = None) by (cbn; apply lookup_delete_eq).
  destruct (update_highlight_frame host now s1) as [Hfr Hk]. cbv zeta in Hfr, Hk.
  unfold up. rewrite Hup.
  change (state (?a, ?b, ?c)) with b. change (effects (?a, ?b, ?c)) with c.
  split; [|split; [|split; [|split]]].
  - destruct Hfr as (_ & _ & _ & -> & _). exact Hst1.
  - cbn. apply lookup_delete_eq.
  - intros Hne. rewrite <- Hst1 in Hne. destruct (Hk parent Hne) as [Hc Hfx].
    split; [now rewrite Hc|]. split; [exact Hfx|].
    intros host' now' s2 Hc2 Hcur Hnz. rewrite <- Hcur in *.
    now apply page_down_not_cached.
  - intros Htop Hwin. apply last_Some in Htop as [below' Hb].
    assert (Hst1' : _parent_stack s1 = below' ++ [parent]) by congruence.
    destruct (update_highlight_spec host now s1 Hwin) as (Hfx & _ & Hc & _).
    cbv zeta in Hfx, Hc.
    rewrite (find_below_root host s1 _ _ below' parent Hst1') in Hfx, Hc.
    rewrite (enum_not_cached host parent s1 Hc1) in Hfx, Hc.
    change (state (?a, ?b, ?c)) with b in Hc. change (effects (?a, ?b, ?c)) with c in Hfx.
    rewrite Hfx, Hc. split; [reflexivity|]. cbn. apply lookup_insert_eq.
  - intros host' now' s2 l Hl. split; [now apply enum_cached|].
    intros Hcur. rewrite <- Hcur in Hl. eapply page_down_cached. exact Hl.
Qed.

End PickerClaims.

(** ** Window Picker: a window with one small child *)

Section NestedWindow.
Import window_picker.

Example picker_shown_highlights_1 :
  _top_windows picker_shown = [(1, QRect.xywh 0 0 100 100)] /\
  _current_hwnd picker_shown = 1 /\ _parent_stack picker_shown = [].
Proof. repeat split; vm_compute; reflexivity. Qed.

(** The first descend enumerates the children of window 1; with the
    pointer outside the child the highlight falls back to window 1. *)
Example picker_in_1_state :
  effects (key overlay.Key_PageDown picker_shown) = [GetWindow_children 1] /\
  _parent_stack picker_in_1 = [1] /\ _current_hwnd picker_in_1 = 1 /\
  _child_cache picker_in_1 !! 1 = Some [(2, QRect.xywh 0 0 10 10)].
Proof. repeat split; vm_compute; reflexivity. Qed.

(** A pointer inside the child highlights the child, not the parent. *)
Example picker_in_1_hover_child :
  _current_hwnd (state (mouseMoveEvent nested_host (of_int 0) (QPoint.mk 5 5) picker_in_1)) = 2.
Proof. vm_compute; reflexivity. Qed.

(** C6, as stated, fails when the highlighted fallback parent is
    descended into: window 1 is then twice on the drill stack.  The
    ascend pops and evicts it, and its own hit test, one level up but
    still inside window 1, enumerates the children at once; the descend
    that follows finds them cached and does not ask user32 again. *)
Lemma C6_descend_after_ascend_reuses_cache :
  _parent_stack picker_in_1_again = [1; 1] /\
  effects (key overlay.Key_PageUp picker_in_1_again) = [GetWindow_children 1] /\
  _parent_stack picker_back_in_1 = [1] /\
  _current_hwnd picker_back_in_1 = 1 /\
  effects (key overlay.Key_PageDown picker_back_in_1) = [] /\
  _parent_stack (state (key overlay.Key_PageDown picker_back_in_1)) = [1; 1] /\
  ~ In (GetWindow_children 1) (effects (key overlay.Key_PageDown picker_back_in_1)).
Proof.
  assert (E : effects (key overlay.Key_PageDown picker_back_in_1) = [])
    by (vm_compute; reflexivity).
  repeat split; try (vm_compute; reflexivity).
  rewrite E. intros [].
Qed.

Lemma nested_host_handles : Forall (fun hwnd => hwnd <> 0) (EnumWindows (user32 nested_host)).
Proof. repeat constructor. discriminate. Qed.

Lemma picker_in_1_ok : picker_ok picker_in_1.
Proof.
  apply key_ok, init_windows_ok; [exact nested_host_handles | apply init_ok].
Qed.

Lemma C6_witness :
  _parent_stack picker_in_1 = [] ++ [1] /\
  _parent_stack (state (_page_up nested_host (of_int 0) picker_in_1)) = [] /\
  _child_cache (state (_page_up nested_host (of_int 0) picker_in_1)) !! 1 = None.
Proof.
  assert (Hst : _parent_stack picker_in_1 = [] ++ [1]) by (vm_compute; reflexivity).
  assert (Hne : last (@nil HWND) <> Some 1) by discriminate.
  pose proof (C6_ascend_evicts_then_first_lookup_reenumerates
                nested_host (of_int 0) picker_in_1 [] 1 Hst) as H.
  cbv zeta in H. destruct H as (H1 & _ & H3 & _).
  split; [exact Hst|]. split; [exact H1|]. exact (proj1 (H3 Hne)).
Defined.

(** C7, as stated, fails: a highlight is not always available once a
    window has been entered.  Below window 1, with the child (0,0)-(9,9)
    highlighted, window 1 is destroyed and the pointer moves to (50,50),
    which no cached child rectangle contains.  The parent is hit with the
    zero rectangle, whose width is not positive, and the highlight stays
    on the child instead of becoming the parent. *)
Lemma C7_destroyed_parent_is_not_highlighted :
  is_win32 parent_destroyed_host = true /\
  _parent_stack picker_on_child = [1] /\
  _child_cache picker_on_child !! 1 = Some [(2, QRect.xywh 0 0 10 10)] /\
  _current_hwnd picker_on_child = 2 /\
  QRect.contains (QRect.xywh 0 0 10 10) 50 50 = false /\
  _get_win_rect parent_destroyed_host 1 = QRect.xywh 0 0 0 0 /\
  _current_hwnd
    (state (mouseMoveEvent parent_destroyed_host (of_int 0) (QPoint.mk 50 50) picker_on_child))
    = 2 /\
  _current_rect
    (state (mouseMoveEvent parent_destroyed_host (of_int 0) (QPoint.mk 50 50) picker_on_child))
    = QRect.xywh 0 0 10 10 /\
  _current_hwnd
    (state (mouseMoveEvent parent_destroyed_host (of_int 0) (QPoint.mk 50 50) picker_on_child))
    <> 1.
Proof. repeat split; try (vm_compute; reflexivity). vm_compute. discriminate. Qed.

Lemma C7_witness :
  is_win32 nested_host = true /\ picker_ok picker_in_1 /\
  _parent_stack picker_in_1 = [] ++ [1] /\
  highlights picker_in_1
    (state (mouseMoveEvent nested_host (of_int 0) (QPoint.mk 50 50) picker_in_1))
    (1, _get_win_rect nested_host 1).
Proof.
  assert (Hst : _parent_stack picker_in_1 = [] ++ [1]) by (vm_compute; reflexivity).
  pose proof (C7_hit_test_sets_highlight nested_host (of_int 0) picker_in_1
                (QPoint.mk 50 50) eq_refl picker_in_1_ok) as H.
  cbv zeta in H. destruct H as [_ H]. destruct (H [] 1 Hst) as (_ & _ & Hfall).
  split; [reflexivity|]. split; [exact picker_in_1_ok|]. split; [exact Hst|].
  refine (proj1 (proj1 (Hfall _) _)).
  - vm_compute. repeat constructor.
  - vm_compute. reflexivity.
Defined.

Lemma C9_witness :
  QRect.isEmpty (_current_rect picker_shown) = false /\
  mousePressEvent overlay.LeftButton picker_shown =
    (tt, picker_shown,
     [timer_stop; hide; singleShot 50 (element_selected (QRect.xywh 0 0 100 100))]).
Proof.
  assert (Hne : QRect.isEmpty (_current_rect picker_shown) = false)
    by (vm_compute; reflexivity).
  split; [exact Hne|].
  exact (proj1 (proj1 (C9_terminal_transitions_stop_hide_then_defer
                         nested_host (of_int 0) (QPoint.mk 50 50) false picker_shown) Hne)).
Defined.

End NestedWindow.

(** ** Orchestrator: one Snapshot per session *)

Section Orchestrator.
Import app.
Context {F : Type} {fl : PyFloat F}.
Variable host : Host.
Variable capture_ok : nat -> bool.
Variable timer_on : bool.
Variable secs : Z.





End Orchestrator.



(* ===================================================================== *)
(** * Part IV: further properties of the code *)
(* ===================================================================== *)

(** ** Region Selector *)

Section RegionFurther.
Import overlay.

Lemma sorted_set_concat_In (parts : list (list Z)) (x : Z) :
  In x (sorted_set (List.concat parts)) <-> exists part, In part parts /\ In x part.
Proof.
  rewrite sorted_set_In, in_concat. split; intros (part & H1 & H2); eauto.
Qed.

Lemma window_edges_v_In (w : Win32) (geo : QRect.t) (hwnd : HWND) (x : Z) :
  In x (fst (window_edges w geo hwnd)) <->
  snap_window w hwnd /\
  (x = left (query_RECT w hwnd) - QRect.x geo \/
   x = right (query_RECT w hwnd) - QRect.x geo).
Proof.
  unfold window_edges, snap_window.
  destruct (IsWindowVisible w hwnd); cbn [negb];
    [|split; [intros [] | intros [(? & _) _]; discriminate]].
  destruct (GetWindowTextLengthW w hwnd =? 0) eqn:Et;
    [split; [intros [] | intros [(_ & ? & _) _]; lia]|].
  destruct ((right (query_RECT w hwnd) - left (query_RECT w hwnd) >? 5)
            && (bottom (query_RECT w hwnd) - top (query_RECT w hwnd) >? 5)) eqn:Ew.
  - apply andb_true_iff in Ew as [E1 E2]. cbn. split.
    + intros [<-|[<-|[]]]; (split; [repeat split; lia | lia]).
    + intros [_ [->| ->]]; [left; reflexivity | right; left; lia].
  - apply andb_false_iff in Ew. cbn. split; [intros [] | intros [(_ & _ & ? & ?) _]; lia].
Qed.

Lemma window_edges_h_In (w : Win32) (geo : QRect.t) (hwnd : HWND) (y : Z) :
  In y (snd (window_edges w geo hwnd)) <->
  snap_window w hwnd /\
  (y = top (query_RECT w hwnd) - QRect.y geo \/
   y = bottom (query_RECT w hwnd) - QRect.y geo).
Proof.
  unfold window_edges, snap_window.
  destruct (IsWindowVisible w hwnd); cbn [negb];
    [|split; [intros [] | intros [(? & _) _]; discriminate]].
  destruct (GetWindowTextLengthW w hwnd =? 0) eqn:Et;
    [split; [intros [] | intros [(_ & ? & _) _]; lia]|].
  destruct ((right (query_RECT w hwnd) - left (query_RECT w hwnd) >? 5)
            && (bottom (query_RECT w hwnd) - top (query_RECT w hwnd) >? 5)) eqn:Ew.
  - apply andb_true_iff in Ew as [E1 E2]. cbn. split.
    + intros [<-|[<-|[]]]; (split; [repeat split; lia | lia]).
    + intros [_ [->| ->]]; [left; reflexivity | right; left; lia].
  - apply andb_false_iff in Ew. cbn. split; [intros [] | intros [(_ & _ & ? & ?) _]; lia].
Qed.

(** X1.  The Snap Index a Region Selector is created with is strictly
    ascending on both axes, hence free of duplicates, and holds exactly
    the left and right (respectively top and bottom) frame edges, in
    overlay-local coordinates, of the visible, titled top-level windows
    more than 5 pixels wide and high; off Windows it is empty. *)
Theorem X1_snap_index_is_sorted_and_exact :
  forall (h : Host) (shot : QPixmap) (md : string),
    let s := __init__ h shot md in
    let geo := utils.virtual_geometry h in
    StronglySorted Z.lt (_snap_edges_v s) /\
    StronglySorted Z.lt (_snap_edges_h s) /\
    (forall x, In x (_snap_edges_v s) <->
       is_win32 h = true /\
       exists hwnd, In hwnd (EnumWindows (user32 h)) /\ snap_window (user32 h) hwnd /\
         (x = left (query_RECT (user32 h) hwnd) - QRect.x geo \/
          x = right (query_RECT (user32 h) hwnd) - QRect.x geo)) /\
    (forall y, In y (_snap_edges_h s) <->
       is_win32 h = true /\
       exists hwnd, In hwnd (EnumWindows (user32 h)) /\ snap_window (user32 h) hwnd /\
         (y = top (query_RECT (user32 h) hwnd) - QRect.y geo \/
          y = bottom (query_RECT (user32 h) hwnd) - QRect.y geo)) /\
    (is_win32 h = false -> _snap_edges_v s = [] /\ _snap_edges_h s = []).
Proof.
  intros h shot md s geo.
  destruct (init_snap_index_sorted h shot md) as [Sv Sh].
  split; [exact Sv|]. split; [exact Sh|].
  unfold s, __init__, _detect_snap_edges. fold geo.
  destruct (is_win32 h) eqn:Hw; cbn [negb].
  - cbn [_snap_edges_v _snap_edges_h]. split; [|split; [|discriminate]].
    + intros x. rewrite sorted_set_concat_In. split.
      * intros (part & Hp & Hx). apply in_map_iff in Hp as (pr & <- & Hpr).
        apply in_map_iff in Hpr as (hwnd & <- & Hh).
        apply window_edges_v_In in Hx as [Hq Hx]. split; [reflexivity|]. eauto.
      * intros (_ & hwnd & Hh & Hq & Hx).
        exists (fst (window_edges (user32 h) geo hwnd)). split.
        -- apply in_map, in_map. exact Hh.
        -- apply window_edges_v_In. auto.
    + intros y. rewrite sorted_set_concat_In. split.
      * intros (part & Hp & Hy). apply in_map_iff in Hp as (pr & <- & Hpr).
        apply in_map_iff in Hpr as (hwnd & <- & Hh).
        apply window_edges_h_In in Hy as [Hq Hy]. split; [reflexivity|]. eauto.
      * intros (_ & hwnd & Hh & Hq & Hy).
        exists (snd (window_edges (user32 h) geo hwnd)). split.
        -- apply in_map, in_map. exact Hh.
        -- apply window_edges_h_In. auto.
  - cbn. split; [|split; [|auto]]; intros z; (split; [intros [] | intros [? _]; discriminate]).
Qed.

Ltac snap_cases :=
  repeat match goal with
  | |- context [_snap_point ?s ?pos] =>
      let H := fresh "Hsnap" in
      pose proof (snap_point_state s pos) as H;
      destruct (_snap_point s pos) as [? ?]; cbn [fst snd] in H; cbv zeta in H;
      unfold same_setup in H
  end.

Lemma same_index_refl (s : RegionSelector) : same_index s s.
Proof. repeat split. Qed.

Lemma same_index_trans (s1 s2 s3 : RegionSelector) :
  same_index s1 s2 -> same_index s2 s3 -> same_index s1 s3.
Proof.
  unfold same_index. intros (?&?&?&?&?) (?&?&?&?&?). repeat split; congruence.
Qed.

(** One event: the index, the mode, the Snapshot and the geometry stay,
    and snapping is toggled by the S key alone. *)
Lemma handle_frame (s : RegionSelector) (ev : Event) :
  same_index s (fst (handle s ev)) /\
  _snap_enabled (fst (handle s ev)) =
    (if is_snap_toggle ev then negb (_snap_enabled s) else _snap_enabled s).
Proof.
  unfold same_index.
  destruct ev as [b p | p | b p | k]; cbn [handle is_snap_toggle].
  - unfold mousePressEvent. destruct b; [|cbn; auto 10..].
    destruct (String.eqb (mode s) MODE_RECTANGLE); snap_cases; cbn; intuition congruence.
  - unfold mouseMoveEvent. cbn [selecting set_current_pos mode].
    destruct (selecting s).
    + destruct (String.eqb (mode s) MODE_RECTANGLE); snap_cases; cbn in *; intuition congruence.
    + snap_cases. cbn in *. intuition congruence.
  - unfold mouseReleaseEvent. destruct b; [|cbn; auto 10..].
    destruct (selecting s); [|cbn; auto 10].
    destruct (String.eqb (mode s) MODE_RECTANGLE); snap_cases; cbn [fst snd];
      repeat match goal with
      | |- context [match ?x with _ => _ end] => destruct x
      end; cbn in *; intuition congruence.
  - destruct k; cbn; auto 10. destruct (negb (selecting s)); cbn; auto 10.
Qed.

(** X2.  Whatever the sequence of pointer and key events, the Snap
    Index, the mode, the Snapshot and the desktop geometry of a Region
    Selector stay what they were, and snapping ends up enabled or disabled
    according to the parity of the presses of the S key. *)
Theorem X2_events_keep_index_and_toggle_snapping :
  forall (s : RegionSelector) (evs : list Event),
    same_index s (fst (run s evs)) /\
    _snap_enabled (fst (run s evs)) =
      (if Nat.even (snap_toggles evs) then _snap_enabled s else negb (_snap_enabled s)).
Proof.
  intros s evs. revert s. induction evs as [|ev evs IH]; intros s.
  - cbn. split; [apply same_index_refl | reflexivity].
  - cbn [run]. destruct (handle_frame s ev) as [Hi He].
    destruct (handle s ev) as [s1 fx1]. cbn [fst] in Hi, He.
    destruct (IH s1) as [Hi2 He2].
    destruct (run s1 evs) as [s2 fx2]. cbn [fst] in *.
    split; [eapply same_index_trans; eassumption|].
    rewrite He2, He. unfold snap_toggles. cbn [List.filter].
    destruct (is_snap_toggle ev); cbn [length].
    + rewrite Nat.even_succ, <- Nat.negb_even.
      destruct (Nat.even _); cbn; [reflexivity | apply negb_involutive].
    + reflexivity.
Qed.

Lemma deferred_signals_app (fx1 fx2 : list Effect) :
  deferred_signals (fx1 ++ fx2) = deferred_signals fx1 ++ deferred_signals fx2.
Proof. unfold deferred_signals. apply flat_map_app. Qed.

(** One event: a rectangle is handed on only by the release of the
    primary button during a drag, and only if it passed the size test. *)
Lemma handle_emits (s : RegionSelector) (ev : Event) (r : QRect.t) :
  In (region_selected r) (deferred_signals (snd (handle s ev))) ->
  2 < QRect.width r /\ 2 < QRect.height r /\
  exists pos, ev = Release LeftButton pos /\ selecting s = true.
Proof.
  destruct ev as [b p | p | b p | k]; cbn [handle].
  - unfold mousePressEvent. destruct b; [|cbn; intuition discriminate..].
    destruct (String.eqb (mode s) MODE_RECTANGLE); snap_cases; cbn; intuition discriminate.
  - unfold mouseMoveEvent. cbn [selecting set_current_pos mode].
    destruct (selecting s).
    + destruct (String.eqb (mode s) MODE_RECTANGLE); snap_cases; cbn; intuition discriminate.
    + cbn. intuition discriminate.
  - unfold mouseReleaseEvent. destruct b; [|cbn; intuition discriminate..].
    destruct (selecting s); [|cbn; intuition discriminate].
    intros H. cut (2 < QRect.width r /\ 2 < QRect.height r).
    { intros [? ?]. split; [assumption|]. split; [assumption|]. exists p. auto. }
    revert H.
    destruct (String.eqb (mode s) MODE_RECTANGLE); snap_cases; cbn [fst snd];
      repeat match goal with
      | |- context [match ?x with _ => _ end] =>
          match x with
          | andb _ _ => let E := fresh "E" in destruct x eqn:E
          | _ => destruct x
          end
      end; cbn; intros [H|H]; try contradiction; try discriminate;
      injection H as <-; apply andb_true_iff in E as [E1 E2];
      cbn [start_pos end_pos set_drag] in E1, E2; lia.
  - destruct k; cbn; try intuition discriminate.
    destruct (negb (selecting s)); cbn; intuition discriminate.
Qed.

(** X3.  Whatever the sequence of events, a Region Selector hands a
    rectangle to the event loop only when the primary button is released
    during a drag, and every rectangle it hands on is more than 2 pixels
    wide and more than 2 pixels high; so the orchestrator's test for a
    rectangle narrower or lower than 1 pixel never rejects one. *)
Theorem X3_emitted_rectangles_end_a_drag_and_exceed_two_pixels :
  forall (s : RegionSelector) (evs : list Event) (r : QRect.t),
    In (region_selected r) (deferred_signals (snd (run s evs))) ->
    2 < QRect.width r /\ 2 < QRect.height r /\
    (QRect.width r <? 1) || (QRect.height r <? 1) = false /\
    exists pre pos post,
      evs = pre ++ Release LeftButton pos :: post /\
      selecting (fst (run s pre)) = true.
Proof.
  intros s evs r. revert s.
  assert (Hgoal : forall s, In (region_selected r) (deferred_signals (snd (run s evs))) ->
            2 < QRect.width r /\ 2 < QRect.height r /\
            exists pre pos post,
              evs = pre ++ Release LeftButton pos :: post /\
              selecting (fst (run s pre)) = true).
  { induction evs as [|ev evs IH]; intros s; [intros []|].
    cbn [run]. pose proof (handle_emits s ev r) as Hstep.
    destruct (handle s ev) as [s1 fx1] eqn:Eh. cbn [snd] in Hstep.
    specialize (IH s1). destruct (run s1 evs) as [s2 fx2] eqn:Er. cbn [snd] in *.
    rewrite deferred_signals_app. intros Hin. apply in_app_or in Hin as [Hin|Hin].
    - destruct (Hstep Hin) as (Hw & Hh & pos & -> & Hsel).
      split; [exact Hw|]. split; [exact Hh|]. exists [], pos, evs. auto.
    - destruct (IH Hin) as (Hw & Hh & pre & pos & post & -> & Hsel).
      split; [exact Hw|]. split; [exact Hh|]. exists (ev :: pre), pos, post.
      split; [reflexivity|]. cbn [run]. rewrite Eh.
      destruct (run s1 pre) as [s3 fx3]. exact Hsel. }
  intros s Hin. destruct (Hgoal s Hin) as (Hw & Hh & Hex).
  split; [exact Hw|]. split; [exact Hh|]. split; [|exact Hex].
  apply orb_false_iff. split; lia.
Qed.

Lemma X3_witness :
  In (region_selected (QRect.mk 10 10 100 100))
     (deferred_signals
        (snd (run plain_selector (drag (QPoint.mk 10 10) [] (QPoint.mk 100 100))))) /\
  2 < QRect.width (QRect.mk 10 10 100 100).
Proof.
  assert (H : In (region_selected (QRect.mk 10 10 100 100))
                (deferred_signals
                   (snd (run plain_selector (drag (QPoint.mk 10 10) [] (QPoint.mk 100 100))))))
    by (vm_compute; left; reflexivity).
  split; [exact H|].
  exact (proj1 (X3_emitted_rectangles_end_a_drag_and_exceed_two_pixels
                  plain_selector (drag (QPoint.mk 10 10) [] (QPoint.mk 100 100))
                  (QRect.mk 10 10 100 100) H)).
Defined.

(** *** The freehand drag *)

Lemma freehand_mode_tests (s : RegionSelector) :
  mode s = MODE_FREEHAND ->
  String.eqb (mode s) MODE_RECTANGLE = false /\
  String.eqb (mode s) MODE_FREEHAND = true.
Proof. intros ->. split; reflexivity. Qed.

Lemma freehand_press (s : RegionSelector) (p : QPoint.t) :
  mode s = MODE_FREEHAND ->
  snd (mousePressEvent s LeftButton p) = [update] /\
  freehand_dragging (fst (mousePressEvent s LeftButton p)) [p].
Proof.
  intros Hm. destruct (freehand_mode_tests s Hm) as [Hr Hf].
  unfold mousePressEvent. rewrite Hr, Hf. cbn. unfold freehand_dragging. cbn. auto.
Qed.

Lemma freehand_move (s : RegionSelector) (pts : list QPoint.t) (pos : QPoint.t) :
  freehand_dragging s pts ->
  snd (mouseMoveEvent s pos) = [update] /\
  freehand_dragging (fst (mouseMoveEvent s pos)) (pts ++ [pos]).
Proof.
  intros (Hm & Hsel & Hpts). destruct (freehand_mode_tests s Hm) as [Hr Hf].
  unfold mouseMoveEvent. cbn [selecting set_current_pos mode]. rewrite Hsel, Hr, Hf.
  cbn. unfold freehand_dragging. cbn. rewrite Hpts. auto.
Qed.

Lemma freehand_moves (via : list QPoint.t) :
  forall (s : RegionSelector) (pts : list QPoint.t),
    freehand_dragging s pts ->
    snd (run s (List.map Move via)) = repeat update (length via) /\
    freehand_dragging (fst (run s (List.map Move via))) (pts ++ via).
Proof.
  induction via as [|pos via IH]; intros s pts Hd; cbn.
  - rewrite app_nil_r. auto.
  - destruct (freehand_move s pts pos Hd) as [Hfx Hd1].
    destruct (mouseMoveEvent s pos) as [s1 fx1]. cbn [fst snd] in *.
    destruct (IH s1 _ Hd1) as [Hfx2 Hd2].
    destruct (run s1 (List.map Move via)) as [s2 fx2]. cbn [fst snd] in *.
    subst. rewrite <- app_assoc in Hd2. auto.
Qed.

Lemma freehand_release (s : RegionSelector) (p q : QPoint.t) (rest : list QPoint.t) :
  freehand_dragging s (p :: rest) ->
  snd (mouseReleaseEvent s LeftButton q) = freehand_release_effects p rest.
Proof.
  intros (Hm & Hsel & Hpts). destruct (freehand_mode_tests s Hm) as [Hr Hf].
  unfold mouseReleaseEvent. rewrite Hsel, Hr.
  cbn [mode set_drag freehand_points]. rewrite Hpts, Hf.
  unfold freehand_release_effects. cbv zeta.
  destruct ((QRect.width _ >? 2) && (QRect.height _ >? 2)); reflexivity.
Qed.

Lemma freehand_drag_run (s : RegionSelector) (p q : QPoint.t) (via : list QPoint.t) :
  mode s = MODE_FREEHAND ->
  snd (run s (drag p via q)) =
    update :: repeat update (length via) ++ freehand_release_effects p via.
Proof.
  intros Hm. unfold drag. cbn [run handle].
  destruct (freehand_press s p Hm) as [Hfx0 Hd0].
  destruct (mousePressEvent s LeftButton p) as [s1 fx1]. cbn [fst snd] in *.
  rewrite run_app.
  destruct (freehand_moves via s1 [p] Hd0) as [Hfx1 Hd1].
  destruct (run s1 (List.map Move via)) as [s2 fx2]. cbn [fst snd] in *.
  cbn [run handle].
  pose proof (freehand_release s2 p q via Hd1) as Hfx2.
  destruct (mouseReleaseEvent s2 LeftButton q) as [s3 fx3]. cbn [fst snd] in *.
  subst. rewrite app_nil_r. reflexivity.
Qed.

Lemma fold_min_spec (xs : list Z) :
  forall a : Z,
    (forall x, In x (a :: xs) -> fold_left Z.min xs a <= x) /\
    In (fold_left Z.min xs a) (a :: xs).
Proof.
  induction xs as [|x0 xs IH]; intros a; cbn [fold_left].
  - split; [intros x [<-|[]]; lia | now left].
  - destruct (IH (Z.min a x0)) as [H1 H2]. split.
    + intros y [<-|[<-|Hy]].
      * specialize (H1 _ (or_introl eq_refl)). lia.
      * specialize (H1 _ (or_introl eq_refl)). lia.
      * apply H1. now right.
    + destruct H2 as [H2|H2]; [|right; now right].
      rewrite <- H2. destruct (Z.min_spec a x0) as [[_ ->]|[_ ->]]; [now left | right; now left].
Qed.

Lemma fold_max_spec (xs : list Z) :
  forall a : Z,
    (forall x, In x (a :: xs) -> x <= fold_left Z.max xs a) /\
    In (fold_left Z.max xs a) (a :: xs).
Proof.
  induction xs as [|x0 xs IH]; intros a; cbn [fold_left].
  - split; [intros x [<-|[]]; lia | now left].
  - destruct (IH (Z.max a x0)) as [H1 H2]. split.
    + intros y [<-|[<-|Hy]].
      * specialize (H1 _ (or_introl eq_refl)). lia.
      * specialize (H1 _ (or_introl eq_refl)). lia.
      * apply H1. now right.
    + destruct H2 as [H2|H2]; [|right; now right].
      rewrite <- H2. destruct (Z.max_spec a x0) as [[_ ->]|[_ ->]]; [right; now left | now left].
Qed.

Lemma In_coordinate (f : QPoint.t -> Z) (p : QPoint.t) (rest : list QPoint.t) (v : Z) :
  In v (f p :: List.map f rest) <-> exists pt, In pt (p :: rest) /\ f pt = v.
Proof.
  change (f p :: List.map f rest) with (List.map f (p :: rest)).
  rewrite in_map_iff. split; intros (pt & H1 & H2); eauto.
Qed.

(** The bounding box of a polyline holds every point, and its width and
    height are differences of coordinates of two of its points. *)
Lemma polyline_bounding_spec (p : QPoint.t) (rest : list QPoint.t) :
  let b := polyline_bounding p rest in
  (forall pt, In pt (p :: rest) ->
     QRect.left b <= QPoint.x pt <= QRect.left b + QRect.width b /\
     QRect.top b <= QPoint.y pt <= QRect.top b + QRect.height b) /\
  (exists a c, In a (p :: rest) /\ In c (p :: rest) /\
     QPoint.x c - QPoint.x a = QRect.width b) /\
  (exists a c, In a (p :: rest) /\ In c (p :: rest) /\
     QPoint.y c - QPoint.y a = QRect.height b).
Proof.
  cbv zeta. unfold polyline_bounding, QRect.xywh, QRect.left, QRect.top, QRect.width,
    QRect.height. cbn [QRect.x1 QRect.x2 QRect.y1 QRect.y2].
  destruct (fold_min_spec (List.map QPoint.x rest) (QPoint.x p)) as [Hnx Inx].
  destruct (fold_max_spec (List.map QPoint.x rest) (QPoint.x p)) as [Hxx Ixx].
  destruct (fold_min_spec (List.map QPoint.y rest) (QPoint.y p)) as [Hny Iny].
  destruct (fold_max_spec (List.map QPoint.y rest) (QPoint.y p)) as [Hxy Ixy].
  apply In_coordinate in Inx as (ax & Hax & Eax), Ixx as (cx & Hcx & Ecx).
  apply In_coordinate in Iny as (ay & Hay & Eay), Ixy as (cy & Hcy & Ecy).
  split; [|split].
  - intros pt Hpt.
    assert (Hx : In (QPoint.x pt) (QPoint.x p :: List.map QPoint.x rest))
      by (apply In_coordinate; eauto).
    assert (Hy : In (QPoint.y pt) (QPoint.y p :: List.map QPoint.y rest))
      by (apply In_coordinate; eauto).
    specialize (Hnx _ Hx). specialize (Hxx _ Hx).
    specialize (Hny _ Hy). specialize (Hxy _ Hy). lia.
  - exists ax, cx. split; [exact Hax|]. split; [exact Hcx|]. lia.
  - exists ay, cy. split; [exact Hay|]. split; [exact Hcy|]. lia.
Qed.

(** Which points of the path the bounding box holds, in the sense of
    [QRect.contains]. *)
Lemma polyline_bounding_contains (p : QPoint.t) (rest : list QPoint.t) (pt : QPoint.t) :
  let b := polyline_bounding p rest in
  In pt (p :: rest) ->
  QRect.left b <= QPoint.x pt <= QRect.right b + 1 /\
  QRect.top b <= QPoint.y pt <= QRect.bottom b + 1 /\
  (QRect.contains b (QPoint.x pt) (QPoint.y pt) = true <->
   QPoint.x pt <= QRect.right b /\ QPoint.y pt <= QRect.bottom b).
Proof.
  cbv zeta. intros Hpt.
  destruct (polyline_bounding_spec p rest) as (Hall & _). cbv zeta in Hall.
  specialize (Hall pt Hpt). revert Hall.
  unfold polyline_bounding, QRect.xywh, QRect.left, QRect.top, QRect.right, QRect.bottom,
    QRect.width, QRect.height, QRect.contains. cbn [QRect.x1 QRect.x2 QRect.y1 QRect.y2].
  set (minx := fold_left Z.min _ (QPoint.x p)). set (maxx := fold_left Z.max _ (QPoint.x p)).
  set (miny := fold_left Z.min _ (QPoint.y p)). set (maxy := fold_left Z.max _ (QPoint.y p)).
  intros [Hx Hy].
  replace (minx + (maxx - minx) - 1 <? minx - 1) with false by lia.
  replace (miny + (maxy - miny) - 1 <? miny - 1) with false by lia.
  split; [lia|]. split; [lia|].
  destruct ((QPoint.x pt <? minx) || (QPoint.x pt >? minx + (maxx - minx) - 1)) eqn:E1.
  - apply orb_true_iff in E1. split; [discriminate | lia].
  - apply orb_false_iff in E1.
    destruct ((QPoint.y pt <? miny) || (QPoint.y pt >? miny + (maxy - miny) - 1)) eqn:E2.
    + apply orb_true_iff in E2. split; [discriminate | lia].
    + apply orb_false_iff in E2. split; [lia | reflexivity].
Qed.

(** X4.  A freehand drag is decided by the path alone: the points where
    the button went down and through which the pointer moved.  Neither
    the Snap Index nor the release position enters.  The rectangle handed
    on is the bounding rectangle Qt aligns for the path: its left and top
    edges are the least x and y of the path, and its width and height are
    the differences between the greatest and the least x and y, so its
    right and bottom edges fall one pixel short of the greatest x and y.
    It therefore holds every point of the path except those in the
    right-most column and in the bottom-most row, and such points exist.
    The drag is confirmed exactly when two points of the path lie more
    than 2 pixels apart horizontally and two lie more than 2 pixels apart
    vertically, and is cancelled otherwise. *)
Theorem X4_freehand_drag_is_decided_by_its_path :
  forall (s : RegionSelector) (p q : QPoint.t) (via : list QPoint.t),
    mode s = MODE_FREEHAND ->
    let b := polyline_bounding p via in
    let signals := deferred_signals (snd (run s (drag p via q))) in
    (forall pt, In pt (p :: via) ->
       QRect.left b <= QPoint.x pt <= QRect.right b + 1 /\
       QRect.top b <= QPoint.y pt <= QRect.bottom b + 1 /\
       (QRect.contains b (QPoint.x pt) (QPoint.y pt) = true <->
        QPoint.x pt <= QRect.right b /\ QPoint.y pt <= QRect.bottom b)) /\
    (exists a c, In a (p :: via) /\ In c (p :: via) /\
       QPoint.x a = QRect.left b /\ QPoint.x c = QRect.right b + 1) /\
    (exists a c, In a (p :: via) /\ In c (p :: via) /\
       QPoint.y a = QRect.top b /\ QPoint.y c = QRect.bottom b + 1) /\
    (signals = [region_selected b] \/ signals = [cancelled]) /\
    (signals = [region_selected b] <->
       (exists a c, In a (p :: via) /\ In c (p :: via) /\ 2 < QPoint.x c - QPoint.x a) /\
       (exists a c, In a (p :: via) /\ In c (p :: via) /\ 2 < QPoint.y c - QPoint.y a)).
Proof.
  intros s p q via Hm b signals.
  destruct (polyline_bounding_spec p via) as (Hall & (ax & cx & Hax & Hcx & Ex)
                                               & (ay & cy & Hay & Hcy & Ey)).
  fold b in Hall, Ex, Ey.
  assert (Hsig : signals =
            if (QRect.width b >? 2) && (QRect.height b >? 2)
            then [region_selected b] else [cancelled]).
  { unfold signals. rewrite (freehand_drag_run s p q via Hm), deferred_signals_drag.
    unfold freehand_release_effects. fold b. cbv zeta.
    destruct ((QRect.width b >? 2) && (QRect.height b >? 2)); reflexivity. }
  split; [intros pt Hpt; exact (polyline_bounding_contains p via pt Hpt)|].
  split; [|split].
  { exists ax, cx. split; [exact Hax|]. split; [exact Hcx|].
    pose proof (Hall _ Hax) as [? _]. pose proof (Hall _ Hcx) as [? _].
    unfold QRect.left, QRect.right, QRect.width in *. lia. }
  { exists ay, cy. split; [exact Hay|]. split; [exact Hcy|].
    pose proof (Hall _ Hay) as [_ ?]. pose proof (Hall _ Hcy) as [_ ?].
    unfold QRect.top, QRect.bottom, QRect.height in *. lia. }
  rewrite Hsig.
  destruct ((QRect.width b >? 2) && (QRect.height b >? 2)) eqn:E.
  - split; [now left|]. split; [|reflexivity]. intros _.
    apply andb_true_iff in E as [E1 E2].
    split; [exists ax, cx | exists ay, cy]; (split; [assumption|]); (split; [assumption|]); lia.
  - split; [now right|]. split; [discriminate|].
    intros [(a1 & c1 & Ha1 & Hc1 & H1) (a2 & c2 & Ha2 & Hc2 & H2)]. exfalso.
    pose proof (Hall _ Ha1) as [? _]. pose proof (Hall _ Hc1) as [? _].
    pose proof (Hall _ Ha2) as [_ ?]. pose proof (Hall _ Hc2) as [_ ?].
    apply andb_false_iff in E as [E|E]; lia.
Qed.

Lemma X4_witness :
  mode freehand_selector = MODE_FREEHAND /\
  (deferred_signals
     (snd (run freehand_selector
             (drag (QPoint.mk 10 10) [QPoint.mk 40 10; QPoint.mk 40 40] (QPoint.mk 10 10))))
   = [region_selected (polyline_bounding (QPoint.mk 10 10) [QPoint.mk 40 10; QPoint.mk 40 40])]
   \/
   deferred_signals
     (snd (run freehand_selector
             (drag (QPoint.mk 10 10) [QPoint.mk 40 10; QPoint.mk 40 40] (QPoint.mk 10 10))))
   = [cancelled]).
Proof.
  split; [reflexivity|].
  exact (proj1 (proj2 (proj2 (proj2
           (X4_freehand_drag_is_decided_by_its_path freehand_selector
              (QPoint.mk 10 10) (QPoint.mk 10 10)
              [QPoint.mk 40 10; QPoint.mk 40 40] eq_refl))))).
Defined.

(** *** Snapping and the emitted rectangle *)

Lemma min_max_close (a p b q : Z) :
  Z.abs (a - p) <= 8 -> Z.abs (b - q) <= 8 ->
  Z.abs (Z.min a b - Z.min p q) <= 8 /\ Z.abs (Z.max a b - Z.max p q) <= 8.
Proof. lia. Qed.

(** X5.  Snapping moves no edge of the rectangle a drag hands on by
    more than the snap distance: each edge of the emitted rectangle is
    within 8 pixels of the corresponding edge of the rectangle spanned by
    the raw press and release positions. *)
Theorem X5_snapping_moves_each_edge_by_at_most_eight :
  forall (s : RegionSelector) (p q : QPoint.t) (via : list QPoint.t) (r : QRect.t),
    mode s = MODE_RECTANGLE ->
    deferred_signals (snd (run s (drag p via q))) = [region_selected r] ->
    Z.abs (QRect.left r - Z.min (QPoint.x p) (QPoint.x q)) <= SNAP_DISTANCE /\
    Z.abs (QRect.right r - Z.max (QPoint.x p) (QPoint.x q)) <= SNAP_DISTANCE /\
    Z.abs (QRect.top r - Z.min (QPoint.y p) (QPoint.y q)) <= SNAP_DISTANCE /\
    Z.abs (QRect.bottom r - Z.max (QPoint.y p) (QPoint.y q)) <= SNAP_DISTANCE.
Proof.
  intros s p q via r Hm Hsig.
  destruct (drag_run s p q via Hm) as (Hfx & _ & _). cbv zeta in Hfx.
  rewrite Hfx, deferred_signals_drag in Hsig. clear Hfx.
  destruct (snap_point_close s p) as [Hpx Hpy].
  destruct (snap_point_close s q) as [Hqx Hqy].
  set (a := fst (_snap_point s p)) in *. set (b := fst (_snap_point s q)) in *.
  clearbody a b. unfold release_effects in Hsig. cbv zeta in Hsig.
  destruct ((QRect.width _ >? 2) && (QRect.height _ >? 2)) eqn:E;
    [|discriminate].
  injection Hsig as <-.
  apply min_size_iff in E as [Ex Ey].
  destruct (normalized_corners_x _ _ Ex) as [Hx1 Hx2].
  destruct (normalized_corners_y _ _ Ey) as [Hy1 Hy2].
  unfold QRect.left, QRect.right, QRect.top, QRect.bottom, SNAP_DISTANCE.
  rewrite Hx1, Hx2, Hy1, Hy2.
  destruct (min_max_close _ _ _ _ Hpx Hqx) as [? ?].
  destruct (min_max_close _ _ _ _ Hpy Hqy) as [? ?]. auto.
Qed.

Lemma X5_witness :
  mode snapping_selector = MODE_RECTANGLE /\
  deferred_signals
    (snd (run snapping_selector (drag (QPoint.mk 7 12) [] (QPoint.mk 295 100))))
  = [region_selected (QRect.mk 5 5 300 100)] /\
  Z.abs (QRect.left (QRect.mk 5 5 300 100) - Z.min 7 295) <= SNAP_DISTANCE.
Proof.
  split; [reflexivity|]. split; [reflexivity|].
  exact (proj1 (X5_snapping_moves_each_edge_by_at_most_eight snapping_selector
                  (QPoint.mk 7 12) (QPoint.mk 295 100) [] (QRect.mk 5 5 300 100)
                  eq_refl eq_refl)).
Defined.

(** *** The snap guides *)

Lemma handle_snapping_off (s : RegionSelector) (ev : Event) :
  _snap_enabled s = false -> is_snap_toggle ev = false ->
  _snap_enabled (fst (handle s ev)) = false /\
  _snapped_x (fst (handle s ev)) = _snapped_x s /\
  _snapped_y (fst (handle s ev)) = _snapped_y s.
Proof.
  intros Hen Hev.
  destruct ev as [b p | p | b p | k]; cbn [handle].
  - unfold mousePressEvent. rewrite snap_point_disabled by exact Hen.
    destruct b; [|cbn; auto..].
    destruct (String.eqb (mode s) MODE_RECTANGLE); cbn; auto.
  - unfold mouseMoveEvent. rewrite snap_point_disabled by exact Hen.
    cbn [selecting set_current_pos mode].
    destruct (selecting s); [|cbn; auto].
    destruct (String.eqb (mode s) MODE_RECTANGLE); cbn; auto.
  - unfold mouseReleaseEvent. rewrite snap_point_disabled by exact Hen.
    destruct b; [|cbn; auto..].
    destruct (selecting s); [|cbn; auto].
    destruct (String.eqb (mode s) MODE_RECTANGLE); cbn [fst snd];
      repeat match goal with
      | |- context [match ?x with _ => _ end] => destruct x
      end; cbn; auto.
  - destruct k; try discriminate; cbn; auto. destruct (negb (selecting s)); cbn; auto.
Qed.

(** X6.  While snapping is off the snap guides are frozen: whatever
    pointer events and key presses other than S follow, the guide lines
    painted are those that were shown when snapping went off, wherever
    the pointer is by then. *)
Theorem X6_guides_freeze_while_snapping_is_off :
  forall (s : RegionSelector) (evs : list Event) (width height : Z),
    _snap_enabled s = false ->
    Forall (fun ev => is_snap_toggle ev = false) evs ->
    _draw_snap_guides (fst (run s evs)) width height = _draw_snap_guides s width height.
Proof.
  intros s evs width height Hen Hevs. revert s Hen.
  induction Hevs as [|ev evs Hev Hevs IH]; intros s Hen; [reflexivity|].
  cbn [run]. destruct (handle_snapping_off s ev Hen Hev) as (Hen1 & Hx & Hy).
  destruct (handle s ev) as [s1 fx1]. cbn [fst] in *.
  specialize (IH s1 Hen1). destruct (run s1 evs) as [s2 fx2]. cbn [fst] in *.
  rewrite IH. unfold _draw_snap_guides. now rewrite Hx, Hy.
Qed.

Lemma X6_witness :
  _snap_enabled selector_snapping_off = false /\
  Forall (fun ev => is_snap_toggle ev = false)
    [Move (QPoint.mk 500 500); Press LeftButton (QPoint.mk 500 500)] /\
  _draw_snap_guides
    (fst (run selector_snapping_off
            [Move (QPoint.mk 500 500); Press LeftButton (QPoint.mk 500 500)])) 1920 1080
  = [drawLine 5 0 5 1080; drawLine 0 5 1920 5].
Proof.
  assert (H : Forall (fun ev => is_snap_toggle ev = false)
                [Move (QPoint.mk 500 500); Press LeftButton (QPoint.mk 500 500)])
    by (repeat constructor).
  split; [reflexivity|]. split; [exact H|].
  exact (X6_guides_freeze_while_snapping_is_off selector_snapping_off
           [Move (QPoint.mk 500 500); Press LeftButton (QPoint.mk 500 500)]
           1920 1080 eq_refl H).
Defined.

End RegionFurther.

(** ** Window Picker *)

Section PickerFurther.
Import window_picker.
Context {F : Type} {fl : PyFloat F}.
Variable host : Host.

Lemma signals_app (fx1 fx2 : list Effect) :
  signals (fx1 ++ fx2) = signals fx1 ++ signals fx2.
Proof. unfold signals. apply flat_map_app. Qed.

Lemma scan_nodes_In (nodes : list Node) (sx sy : Z) (n : Node) :
  scan_nodes nodes sx sy = Some n -> In n nodes.
Proof.
  induction nodes as [|[h r] rest IH]; cbn; [discriminate|].
  destruct (QRect.contains r sx sy); [intros [= <-]; now left | right; auto].
Qed.

Lemma walk_chain_framed (chain : list HWND) : Forall (framed host) (walk_chain host chain).
Proof.
  induction chain as [|child rest IH]; cbn; [constructor|].
  destruct (child =? 0); [constructor|].
  destruct (IsWindowVisible (user32 host) child); [|exact IH].
  destruct ((QRect.width _ >? 2) && (QRect.height _ >? 2)); [|exact IH].
  constructor; [reflexivity | exact IH].
Qed.

Lemma enum_cb_framed (own : HWND) (l : list HWND) :
  Forall (framed host) (omap (enum_cb host own) l).
Proof.
  induction l as [|hwnd l IH]; cbn; [constructor|].
  unfold enum_cb at 1.
  destruct (hwnd =? own); [exact IH|].
  destruct (negb (IsWindowVisible (user32 host) hwnd)); [exact IH|].
  destruct (GetWindowTextLengthW (user32 host) hwnd =? 0); [exact IH|].
  destruct ((QRect.width _ <? 5) || (QRect.height _ <? 5)); [exact IH|].
  constructor; [reflexivity | exact IH].
Qed.

Lemma enum_framed (parent : HWND) (s : WindowPicker F) :
  tree_framed host s ->
  Forall (framed host) (result (_enum_direct_children host parent s)) /\
  tree_framed host (state (_enum_direct_children host parent s)).
Proof.
  intros (Ht & Hc). destruct (_child_cache s !! parent) as [l|] eqn:E.
  - rewrite (enum_cached host parent s l E). cbn. split; [eauto|]. now split.
  - rewrite (enum_not_cached host parent s E). cbn. split; [apply walk_chain_framed|].
    split; [exact Ht|]. cbn. intros p l.
    destruct (decide (parent = p)) as [->|Hne].
    + rewrite lookup_insert_eq. intros [= <-]. apply walk_chain_framed.
    + rewrite lookup_insert_ne by exact Hne. apply Hc.
Qed.

Lemma find_framed (s : WindowPicker F) (sx sy : Z) :
  tree_framed host s ->
  tree_framed host (state (_find_window_at host sx sy s)) /\
  (result (_find_window_at host sx sy s) = (0, QRect.null) \/
   framed host (result (_find_window_at host sx sy s))).
Proof.
  intros Ht. destruct (last (_parent_stack s)) as [parent|] eqn:E.
  - apply last_Some in E as [below E]. rewrite (find_below_root host s sx sy _ _ E).
    cbn [result state fst snd].
    destruct (enum_framed parent s Ht) as [Hres Hst]. split; [exact Hst|]. right.
    unfold hit_or.
    destruct (scan_nodes _ sx sy) as [n|] eqn:Es; [|reflexivity].
    apply scan_nodes_In in Es. rewrite List.Forall_forall in Hres. auto.
  - apply last_None in E. rewrite (find_at_root host s sx sy E).
    cbn [result state fst snd]. split; [exact Ht|]. unfold hit_or.
    destruct (scan_nodes _ sx sy) as [n|] eqn:Es; [|now left].
    right. apply scan_nodes_In in Es. destruct Ht as [Ht _].
    rewrite List.Forall_forall in Ht. auto.
Qed.

(** The effects of a hit test and of a highlight are queries of user32. *)
Lemma find_quiet (s : WindowPicker F) (sx sy : Z) :
  signals (effects (_find_window_at host sx sy s)) = [].
Proof.
  destruct (last (_parent_stack s)) as [parent|] eqn:E.
  - apply last_Some in E as [below E]. rewrite (find_below_root host s sx sy _ _ E).
    cbn [effects snd].
    destruct (enum_frame host parent s) as (_ & _ & _ & _ & _ & _ & _ & [Hfx|Hfx]);
      cbv zeta in Hfx; rewrite Hfx; reflexivity.
  - apply last_None in E. now rewrite (find_at_root host s sx sy E).
Qed.

Lemma update_highlight_quiet (now : F) (s : WindowPicker F) :
  signals (effects (_update_highlight host now s)) = [].
Proof.
  destruct (is_win32 host) eqn:Hwin.
  - destruct (update_highlight_spec host now s Hwin) as (Hfx & _). cbv zeta in Hfx.
    rewrite Hfx. apply find_quiet.
  - unfold _update_highlight. now rewrite Hwin.
Qed.

(** What [_update_highlight] leaves highlighted: what was, the node
    found, or nothing. *)
Lemma update_highlight_rect (now : F) (s : WindowPicker F) :
  is_win32 host = true ->
  let g := mapToGlobal s (current_pos s) in
  let found := _find_window_at host (QPoint.x g) (QPoint.y g) s in
  let r := _update_highlight host now s in
  (_current_rect (state r) = _current_rect (state found) /\
   _current_hwnd (state r) = _current_hwnd (state found)) \/
  (_current_rect (state r) = snd (result found) /\
   _current_hwnd (state r) = fst (result found) /\ fst (result found) <> 0) \/
  (_current_rect (state r) = QRect.null /\ _current_hwnd (state r) = 0).
Proof.
  intros Hwin. cbv zeta. unfold _update_highlight. rewrite Hwin. cbn [negb].
  rewrite bind_run. cbn [gets result state effects fst snd id app].
  rewrite bind_run.
  set (found := _find_window_at host _ _ s).
  destruct (result found) as [hwnd rect] eqn:Eres. cbn [fst snd].
  destruct (hwnd =? 0) eqn:E0; cbn [negb andb].
  - right; right. unfold modify, result, state, effects in *. cbn. auto.
  - assert (hwnd <> 0) by lia.
    destruct (QRect.width rect >? 0) eqn:Ew.
    + rewrite bind_run. cbn [gets result state effects fst snd id app].
      destruct (hwnd =? _current_hwnd (state found)) eqn:Ec; cbn [negb].
      * left. unfold ret, result, state, effects in *. cbn. auto.
      * right; left. rewrite bind_run. cbn [modify result state effects fst snd app].
        destruct (_first_highlight (state found)).
        -- rewrite bind_run. unfold modify, result, state, effects in *. cbn. auto.
        -- unfold modify, result, state, effects in *. cbn. auto.
    + left. unfold ret, result, state, effects in *. cbn. auto.
Qed.

Lemma update_highlight_framed (now : F) (s : WindowPicker F) :
  picker_framed host s -> picker_framed host (state (_update_highlight host now s)).
Proof.
  intros (Ht & Hs & Ho & Hi). destruct (is_win32 host) eqn:Hwin.
  - destruct (update_highlight_spec host now s Hwin) as (_ & Hfr & Hc & _).
    pose proof (update_highlight_rect now s Hwin) as Hrect. cbv zeta in *.
    set (g := mapToGlobal s (current_pos s)) in *.
    destruct (find_framed s (QPoint.x g) (QPoint.y g) Ht) as [Ht1 Hres].
    destruct (find_frame host s (QPoint.x g) (QPoint.y g)) as (Hf & _ & Hcr & _).
    cbv zeta in *.
    destruct Hfr as (_ & _ & Htop & _ & _ & Hoff & _).
    destruct Hf as (_ & _ & _ & _ & _ & Hoff0 & _).
    split; [|split; [|split; [congruence | intros Hoff1; congruence]]].
    + destruct Ht1 as [Ht1 Hc1]. split; [now rewrite Htop | now rewrite Hc].
    + destruct Hrect as [[Hr _]|[(Hr & _ & Hne)|[Hr _]]].
      * unfold shows_frame. rewrite Hr, Hcr. exact Hs.
      * right. destruct Hres as [Hres|Hres]; [rewrite Hres in Hne; now cbn in Hne|].
        exists (fst (result (_find_window_at host (QPoint.x g) (QPoint.y g) s))).
        rewrite Hr. exact Hres.
      * now left.
  - unfold _update_highlight. rewrite Hwin. cbn.
    split; [exact Ht | split; [exact Hs | split; [exact Ho | intros _; now apply Hi]]].
Qed.

Lemma picker_framed_same (s s' : WindowPicker F) :
  _top_windows s' = _top_windows s -> _child_cache s' = _child_cache s ->
  _current_rect s' = _current_rect s -> _desktop_offset s' = _desktop_offset s ->
  (_current_hwnd s' = _current_hwnd s \/ _current_hwnd s' = 0) ->
  picker_framed host s -> picker_framed host s'.
Proof.
  unfold picker_framed, tree_framed, shows_frame, inert.
  intros -> -> -> -> Hh (Ht & Hs & Ho & Hi).
  split; [exact Ht|]. split; [exact Hs|]. split; [exact Ho|].
  intros Hw. destruct (Hi Hw) as [H0 Hn]. split; [|exact Hn].
  destruct Hh as [->| ->]; auto.
Qed.

Lemma enum_quiet (parent : HWND) (s : WindowPicker F) :
  signals (effects (_enum_direct_children host parent s)) = [].
Proof.
  destruct (enum_frame host parent s) as (_ & _ & _ & _ & _ & _ & _ & [Hfx|Hfx]);
    cbv zeta in Hfx; rewrite Hfx; reflexivity.
Qed.

Lemma enum_picker_framed (parent : HWND) (s : WindowPicker F) :
  picker_framed host s ->
  picker_framed host (state (_enum_direct_children host parent s)).
Proof.
  intros (Ht & Hs & Ho & Hi).
  destruct (enum_framed parent s Ht) as [_ Ht1].
  destruct (enum_frame host parent s) as (Hf & Hcur & Hrect & _). cbv zeta in *.
  destruct Hf as (_ & _ & _ & _ & _ & Hoff & _).
  split; [exact Ht1|]. split; [unfold shows_frame; rewrite Hrect; exact Hs|].
  split; [congruence|]. intros Hw. unfold inert. rewrite Hcur, Hrect. exact (Hi Hw).
Qed.

Lemma init_framed (shot : QPixmap) : picker_framed host (__init__ host shot).
Proof.
  split; [split; cbn; [constructor | intros p l; now rewrite lookup_empty]|].
  split; [now left|]. split; [reflexivity|]. intros _. split; reflexivity.
Qed.

Lemma init_windows_framed (now : F) (cursor : QPoint.t) (winId : HWND) (s : WindowPicker F) :
  picker_framed host s ->
  picker_framed host (state (_init_windows host now cursor winId s)) /\
  signals (effects (_init_windows host now cursor winId s)) = [].
Proof.
  intros Hok. unfold _init_windows.
  destruct (is_win32 host) eqn:Hwin; cbn [negb]; [|split; [exact Hok | reflexivity]].
  rewrite !bind_run. cbn [modify result state effects fst snd app]. split.
  - apply update_highlight_framed.
    destruct Hok as ((Ht & Hc) & Hs & Ho & Hi).
    split; [split; [apply enum_cb_framed | exact Hc]|].
    split; [exact Hs|]. split; [exact Ho|]. intros Hw. congruence.
  - apply update_highlight_quiet.
Qed.

Lemma page_down_framed (now : F) (s : WindowPicker F) :
  picker_framed host s ->
  picker_framed host (state (_page_down host now s)) /\
  signals (effects (_page_down host now s)) = [].
Proof.
  intros Hok. unfold _page_down. rewrite bind_run. cbn [gets result state effects fst snd app].
  destruct (_current_hwnd s =? 0) eqn:E0; [split; [exact Hok | reflexivity]|].
  rewrite bind_run.
  pose proof (enum_picker_framed (_current_hwnd s) s Hok) as Hok1.
  pose proof (enum_quiet (_current_hwnd s) s) as Hq.
  destruct (result (_enum_direct_children host (_current_hwnd s) s)).
  - cbn [ret result state effects fst snd]. rewrite app_nil_r. auto.
  - rewrite !bind_run. cbn [modify result state effects fst snd app]. split.
    + apply update_highlight_framed.
      eapply picker_framed_same; [..|exact Hok1]; try reflexivity. now right.
    + rewrite signals_app, Hq. apply update_highlight_quiet.
Qed.

Lemma page_up_framed (now : F) (s : WindowPicker F) :
  picker_framed host s ->
  picker_framed host (state (_page_up host now s)) /\
  signals (effects (_page_up host now s)) = [].
Proof.
  intros Hok. unfold _page_up. rewrite bind_run. cbn [gets result state effects fst snd app].
  destruct (last (_parent_stack s)) as [parent|] eqn:E; [|split; [exact Hok | reflexivity]].
  rewrite !bind_run. cbn [modify result state effects fst snd app]. split.
  - apply update_highlight_framed.
    destruct Hok as ((Ht & Hc) & Hs & Ho & Hi).
    split; [split; [exact Ht|]|].
    + cbn. intros p l Hl. apply lookup_delete_Some in Hl as [_ Hl]. eauto.
    + split; [exact Hs|]. split; [exact Ho|].
      intros Hw. destruct (Hi Hw) as [_ Hn]. split; [reflexivity | exact Hn].
  - apply update_highlight_quiet.
Qed.

Lemma nudge_framed (now : F) (cursor : QPoint.t) (dx dy : Z) (s : WindowPicker F) :
  picker_framed host s ->
  picker_framed host (state (_nudge_cursor host now cursor dx dy s)) /\
  signals (effects (_nudge_cursor host now cursor dx dy s)) = [].
Proof.
  intros Hok. unfold _nudge_cursor. rewrite !bind_run.
  cbn [modify perform result state effects fst snd app]. split.
  - apply update_highlight_framed.
    eapply picker_framed_same; [..|exact Hok]; try reflexivity. now left.
  - cbn [signals flat_map app]. apply update_highlight_quiet.
Qed.

(** What a confirmation hands on: the highlighted rectangle, which is
    not empty, in the coordinates of the overlay. *)
Lemma confirm_emits (s : WindowPicker F) (rect : QRect.t) :
  In (element_selected rect)
     (signals (effects
        ((if negb (QRect.isEmpty (_current_rect s))
          then bind (perform timer_stop) (fun _ =>
               bind (perform hide) (fun _ =>
               perform (singleShot 50 (element_selected (_to_display s (_current_rect s))))))
          else ret tt) s))) ->
  rect = _to_display s (_current_rect s) /\ QRect.isEmpty (_current_rect s) = false.
Proof.
  destruct (QRect.isEmpty (_current_rect s)); cbn [negb].
  - intros [].
  - rewrite !bind_run. cbn. intros [[= <-]|[]]. auto.
Qed.

(** One event keeps the invariant, and confirms nothing but the
    highlighted rectangle. *)
Lemma handle_framed (now : F) (ev : Event) (s : WindowPicker F) :
  picker_framed host s ->
  picker_framed host (state (handle host now ev s)) /\
  forall rect, In (element_selected rect) (signals (effects (handle host now ev s))) ->
    rect = _to_display s (_current_rect s) /\ QRect.isEmpty (_current_rect s) = false.
Proof.
  intros Hok. destruct ev as [cursor winId | pos | button | key ctrl cursor |]; cbn [handle].
  - destruct (init_windows_framed now cursor winId s Hok) as [H1 H2].
    split; [exact H1|]. rewrite H2. intros rect [].
  - unfold mouseMoveEvent. rewrite bind_run. cbn [modify result state effects fst snd app].
    split.
    + apply update_highlight_framed.
      eapply picker_framed_same; [..|exact Hok]; try reflexivity. now left.
    + rewrite update_highlight_quiet. intros rect [].
  - destruct button; cbn [mousePressEvent].
    + rewrite bind_run. cbn [gets id result state effects fst snd app]. split.
      * destruct (negb (QRect.isEmpty (_current_rect s))); [rewrite !bind_run|]; exact Hok.
      * intros rect. apply confirm_emits.
    + rewrite !bind_run. cbn. split; [exact Hok|]. intros rect [[=]|[]].
    + cbn. split; [exact Hok|]. intros rect [].
  - destruct key; cbn [keyPressEvent];
      try (destruct (page_down_framed now s Hok) as [H1 H2];
           split; [exact H1|]; rewrite H2; intros rect []);
      try (destruct (page_up_framed now s Hok) as [H1 H2];
           split; [exact H1|]; rewrite H2; intros rect []);
      try (match goal with
           | |- context [_nudge_cursor host now cursor ?dx ?dy s] =>
               destruct (nudge_framed now cursor dx dy s Hok) as [H1 H2];
               split; [exact H1|]; rewrite H2; intros rect []
           end).
    + rewrite !bind_run. cbn. split; [exact Hok|]. intros rect [[=]|[]].
    + rewrite !bind_run. cbn. split; [exact Hok|]. intros rect [[=]|[]].
    + cbn. split; [exact Hok|]. intros rect [].
    + cbn. split; [exact Hok|]. intros rect [].
    + rewrite bind_run. cbn [gets id result state effects fst snd app]. split.
      * destruct (negb (QRect.isEmpty (_current_rect s))); [rewrite !bind_run|]; exact Hok.
      * intros rect. apply confirm_emits.
    + rewrite bind_run. cbn [gets id result state effects fst snd app]. split.
      * destruct (negb (QRect.isEmpty (_current_rect s))); [rewrite !bind_run|]; exact Hok.
      * intros rect. apply confirm_emits.
    + rewrite !bind_run. cbn. split; [|intros rect []].
      eapply picker_framed_same; [..|exact Hok]; try reflexivity. now left.
    + cbn. split; [exact Hok|]. intros rect [].
  - unfold _on_tick. rewrite bind_run. cbn [gets result state effects fst snd app].
    destruct (tick (_animator s) now) as [repaint a'].
    rewrite bind_run. cbn [modify result state effects fst snd app]. split.
    + destruct repaint; cbn;
        (eapply picker_framed_same; [..|exact Hok]; try reflexivity; now left).
    + destruct repaint; cbn; intros rect [].
Qed.

Lemma run_framed (rect : QRect.t) (evs : list (F * Event)) :
  forall s : WindowPicker F,
    picker_framed host s ->
    In (element_selected rect) (signals (snd (run host s evs))) ->
    exists s' : WindowPicker F, picker_framed host s' /\
      rect = _to_display s' (_current_rect s') /\ QRect.isEmpty (_current_rect s') = false.
Proof.
  induction evs as [|[now ev] evs IH]; intros s Hok; [intros []|].
  cbn [run]. destruct (handle_framed now ev s Hok) as [Hok1 Hemit].
  destruct (handle host now ev s) as [[u s1] fx1].
  unfold state, effects in Hok1, Hemit. cbn [fst snd] in Hok1, Hemit.
  specialize (IH s1 Hok1). destruct (run host s1 evs) as [s2 fx2]. cbn [snd] in *.
  rewrite signals_app. intros Hin. apply in_app_or in Hin as [Hin|Hin].
  - exists s. split; [exact Hok|]. now apply Hemit.
  - now apply IH.
Qed.


(** *** The window list *)

Lemma enum_cb_Some (own hwnd : HWND) (n : Node) :
  enum_cb host own hwnd = Some n <->
  hwnd <> own /\ IsWindowVisible (user32 host) hwnd = true /\
  GetWindowTextLengthW (user32 host) hwnd <> 0 /\
  n = (hwnd, _get_win_rect host hwnd) /\
  5 <= QRect.width (_get_win_rect host hwnd) /\
  5 <= QRect.height (_get_win_rect host hwnd).
Proof.
  unfold enum_cb.
  destruct (hwnd =? own) eqn:E1; [split; [discriminate | intros (? & _); lia]|].
  destruct (IsWindowVisible (user32 host) hwnd); cbn [negb];
    [|split; [discriminate | intros (_ & ? & _); discriminate]].
  destruct (GetWindowTextLengthW (user32 host) hwnd =? 0) eqn:E2;
    [split; [discriminate | intros (_ & _ & ? & _); lia]|].
  destruct ((QRect.width _ <? 5) || (QRect.height _ <? 5)) eqn:E3.
  - apply orb_true_iff in E3. split; [discriminate | intros (_ & _ & _ & _ & ? & ?); lia].
  - apply orb_false_iff in E3. split.
    + intros [= <-]. repeat split; lia.
    + intros (_ & _ & _ & -> & _). reflexivity.
Qed.

Lemma omap_enum_cb_sublist (own : HWND) (l : list HWND) :
  List.map fst (omap (enum_cb host own) l) `sublist_of` l.
Proof.
  induction l as [|hwnd l IH]; cbn; [constructor|].
  destruct (enum_cb host own hwnd) as [n|] eqn:E.
  - apply enum_cb_Some in E as (_ & _ & _ & -> & _). cbn. now constructor.
  - now constructor.
Qed.

(** X9.  On Windows, when the picker is shown its list of top-level
    windows is rebuilt from scratch: it holds, in the order in which
    EnumWindows reports them, exactly the windows other than the overlay
    itself that are visible, have a title and whose frame is at least 5
    pixels wide and high, each with the frame the host reports for it. *)
Theorem X9_top_windows_are_the_visible_titled_windows :
  forall (now : F) (cursor : QPoint.t) (winId : HWND) (s : WindowPicker F),
    is_win32 host = true ->
    let s' := state (_init_windows host now cursor winId s) in
    _own_hwnd s' = winId /\
    List.map fst (_top_windows s') `sublist_of` EnumWindows (user32 host) /\
    (forall hwnd rect, In (hwnd, rect) (_top_windows s') <->
       In hwnd (EnumWindows (user32 host)) /\ hwnd <> winId /\
       IsWindowVisible (user32 host) hwnd = true /\
       GetWindowTextLengthW (user32 host) hwnd <> 0 /\
       rect = _get_win_rect host hwnd /\
       5 <= QRect.width rect /\ 5 <= QRect.height rect).
Proof.
  intros now cursor winId s Hwin. cbv zeta. unfold _init_windows. rewrite Hwin. cbn [negb].
  rewrite !bind_run. cbn [modify result state effects fst snd].
  match goal with
  | |- context [state (_update_highlight host now ?s0)] =>
      destruct (update_highlight_frame host now s0) as [(_ & _ & Ht & _ & Ho & _) _];
      cbv zeta in Ht, Ho; rewrite Ht, Ho
  end.
  cbn [_top_windows _own_hwnd set_current_pos set_top_windows].
  split; [reflexivity|]. split; [apply omap_enum_cb_sublist|].
  intros hwnd rect. rewrite <- list_elem_of_In, list_elem_of_omap. split.
  - intros (h & Hh & E). apply enum_cb_Some in E as (H1 & H2 & H3 & [= <- ->] & H5 & H6).
    apply list_elem_of_In in Hh. auto 10.
  - intros (Hh & H1 & H2 & H3 & -> & H5 & H6). exists hwnd.
    split; [now apply list_elem_of_In|]. apply enum_cb_Some. auto 10.
Qed.

(** *** The children of a window *)

Lemma walk_chain_In (chain : list HWND) (c : HWND) (rect : QRect.t) :
  In (c, rect) (walk_chain host chain) <->
  reached chain c /\ IsWindowVisible (user32 host) c = true /\
  rect = _get_win_rect host c /\ 2 < QRect.width rect /\ 2 < QRect.height rect.
Proof.
  unfold reached. induction chain as [|child rest IH]; cbn [walk_chain].
  - split; [intros [] | intros ((pre & post & E & _) & _); now destruct pre].
  - destruct (child =? 0) eqn:E0.
    + split; [intros []|]. intros ((pre & post & E & Hpre & Hc) & _).
      destruct pre as [|p0 pre]; cbn in E; injection E as -> ->; [lia|].
      apply Forall_cons_1 in Hpre as [Hp _]. lia.
    + assert (Hrest : In (c, rect) (walk_chain host rest) <->
                ((exists pre post, child :: rest = (child :: pre) ++ c :: post /\
                    Forall (fun h => h <> 0) (child :: pre) /\ c <> 0) /\
                 IsWindowVisible (user32 host) c = true /\
                 rect = _get_win_rect host c /\ 2 < QRect.width rect /\ 2 < QRect.height rect)).
      { rewrite IH. split.
        - intros ((pre & post & -> & Hpre & Hc) & Hv). split; [|exact Hv].
          exists pre, post. split; [reflexivity|]. split; [|exact Hc].
          constructor; [lia | exact Hpre].
        - intros ((pre & post & E & Hpre & Hc) & Hv). split; [|exact Hv].
          exists pre, post. cbn in E. injection E as ->. split; [reflexivity|].
          apply Forall_cons_1 in Hpre as [_ Hpre]. auto. }
      assert (Hhead : forall P : Prop,
                (P <-> c = child /\ IsWindowVisible (user32 host) c = true /\
                       rect = _get_win_rect host c /\
                       2 < QRect.width rect /\ 2 < QRect.height rect) ->
                (P \/ In (c, rect) (walk_chain host rest) <->
                 (exists pre post, child :: rest = pre ++ c :: post /\
                    Forall (fun h => h <> 0) pre /\ c <> 0) /\
                 IsWindowVisible (user32 host) c = true /\
                 rect = _get_win_rect host c /\ 2 < QRect.width rect /\ 2 < QRect.height rect)).
      { intros P HP. rewrite Hrest, HP. split.
        - intros [(-> & Hv)|((pre & post & E & Hpre & Hc) & Hv)].
          + split; [|exact Hv]. exists [], rest. split; [reflexivity|].
            split; [constructor | lia].
          + split; [|exact Hv]. exists (child :: pre), post. auto.
        - intros ((pre & post & E & Hpre & Hc) & Hv).
          destruct pre as [|p0 pre]; cbn in E; injection E as -> ->.
          + left. auto.
          + right. split; [|exact Hv]. exists pre, post. auto. }
      destruct (IsWindowVisible (user32 host) child) eqn:Ev.
      * destruct ((QRect.width (_get_win_rect host child) >? 2)
                  && (QRect.height (_get_win_rect host child) >? 2)) eqn:Ew.
        -- apply andb_true_iff in Ew as [Ew1 Ew2]. cbn [In]. apply Hhead. split.
           ++ intros [= <- <-]. repeat split; auto; lia.
           ++ intros (-> & _ & -> & _). reflexivity.
        -- apply andb_false_iff in Ew.
           rewrite <- (Hhead False); [tauto|]. split; [intros []|].
           intros (-> & _ & -> & ? & ?). lia.
      * rewrite <- (Hhead False); [tauto|]. split; [intros []|].
        intros (-> & Hv & _). congruence.
Qed.

Lemma walk_chain_filter (chain : list HWND) :
  walk_chain host chain =
  List.map (fun c => (c, _get_win_rect host c))
    (List.filter (kept_child host) (until_null chain)).
Proof.
  induction chain as [|child rest IH]; cbn [walk_chain until_null]; [reflexivity|].
  destruct (child =? 0); [reflexivity|]. cbn [List.filter]. unfold kept_child at 1.
  destruct (IsWindowVisible (user32 host) child); cbn [andb]; [|exact IH].
  destruct ((QRect.width (_get_win_rect host child) >? 2)
            && (QRect.height (_get_win_rect host child) >? 2)); [|exact IH].
  cbn [List.map]. now rewrite IH.
Qed.

(** X10.  The children of a window are asked of user32 at most once
    while they stay in the cache.  An enumeration that finds no cache
    entry walks the sibling chain up to the first null handle and returns,
    in the order of the chain, the visible children whose frame is more
    than 2 pixels wide and high, each with its frame; it caches what it
    found, so that repeating the enumeration returns the same list,
    changes nothing and asks user32 nothing. *)
Theorem X10_children_are_enumerated_once :
  forall (parent : HWND) (s : WindowPicker F),
    let r := _enum_direct_children host parent s in
    _enum_direct_children host parent (state r) = (result r, state r, []) /\
    (effects r = [] /\ _child_cache s !! parent = Some (result r) /\ state r = s \/
     effects r = [GetWindow_children parent] /\ _child_cache s !! parent = None /\
     result r =
       List.map (fun c => (c, _get_win_rect host c))
         (List.filter (kept_child host)
            (until_null (GetWindow_chain (user32 host) parent))) /\
     forall c rect, In (c, rect) (result r) <->
       reached (GetWindow_chain (user32 host) parent) c /\
       IsWindowVisible (user32 host) c = true /\
       rect = _get_win_rect host c /\ 2 < QRect.width rect /\ 2 < QRect.height rect).
Proof.
  intros parent s. cbv zeta.
  destruct (enum_frame host parent s) as (_ & _ & _ & _ & _ & Hc & _). cbv zeta in Hc.
  split; [now apply enum_cached|].
  destruct (_child_cache s !! parent) as [l|] eqn:E.
  - left. rewrite (enum_cached host parent s l E). cbn. auto.
  - right. rewrite (enum_not_cached host parent s E). cbn [result state effects fst snd].
    split; [reflexivity|]. split; [reflexivity|]. split; [apply walk_chain_filter|].
    intros c rect. apply walk_chain_In.
Qed.

(** *** The highlight and its animation *)

Lemma tracks_same (s s' : WindowPicker F) :
  _current_rect s' = _current_rect s -> _animator s' = _animator s ->
  _desktop_offset s' = _desktop_offset s ->
  heads_for s /\ settled s -> heads_for s' /\ settled s'.
Proof.
  unfold heads_for, settled, _to_display. intros -> -> ->. auto.
Qed.

Lemma animate_to_tracks (a : RectAnimator F) (target : QRect.t) (now : F) :
  (active a = false -> current_rect a = end_rect a) ->
  (end_rect (animate_to a target now) = QRectF_of_QRect target \/
   QRectF_eq (QRectF_of_QRect target) (end_rect (animate_to a target now)) = true) /\
  (active (animate_to a target now) = false ->
   current_rect (animate_to a target now) = end_rect (animate_to a target now)).
Proof.
  intros Hs. unfold animate_to.
  destruct (QRectF_isEmpty (current_rect a)); [cbn; auto|].
  destruct (QRectF_eq (QRectF_of_QRect target) (end_rect a)) eqn:E; [auto|].
  cbn. split; [auto | discriminate].
Qed.

Lemma tick_tracks (a : RectAnimator F) (now : F) :
  (active a = false -> current_rect a = end_rect a) ->
  end_rect (snd (tick a now)) = end_rect a /\
  (active (snd (tick a now)) = false ->
   current_rect (snd (tick a now)) = end_rect (snd (tick a now))).
Proof.
  intros Hs. unfold tick. destruct (active a) eqn:Ea; cbn [negb].
  - destruct (le _ _); cbn; split; auto; discriminate.
  - cbn. rewrite Ea. auto.
Qed.

Lemma update_highlight_tracks (now : F) (s : WindowPicker F) :
  heads_for s /\ settled s ->
  heads_for (state (_update_highlight host now s)) /\
  settled (state (_update_highlight host now s)).
Proof.
  intros Ht. unfold _update_highlight.
  destruct (is_win32 host); cbn [negb]; [|exact Ht].
  rewrite bind_run. cbn [gets result state effects fst snd id app].
  rewrite bind_run.
  destruct (find_frame host s (QPoint.x (mapToGlobal s (current_pos s)))
              (QPoint.y (mapToGlobal s (current_pos s))))
    as (Hf & _ & Hr & Ha & _). cbv zeta in Hf, Hr, Ha.
  destruct Hf as (_ & _ & _ & _ & _ & Hoff & _).
  set (found := _find_window_at host _ _ s) in *.
  assert (Ht1 : heads_for (state found) /\ settled (state found))
    by (now apply (tracks_same s)).
  destruct found as [[[hwnd rect] s1] fx1].
  unfold state, result, effects in *. cbn [fst snd] in *. clear Ht Hr Ha Hoff.
  destruct (hwnd =? 0) eqn:E0; cbn [negb andb].
  - destruct Ht1 as [_ Hs1]. split; [now left | exact Hs1].
  - destruct (QRect.width rect >? 0); [|exact Ht1].
    rewrite bind_run. cbn [gets result state effects fst snd id app].
    unfold state, result, effects. cbn [fst snd].
    destruct (hwnd =? _current_hwnd s1); cbn [negb]; [exact Ht1|].
    rewrite bind_run. unfold modify at 1. cbn [fst snd].
    destruct Ht1 as [_ Hs1]. unfold settled in Hs1.
    destruct (_first_highlight s1).
    + rewrite bind_run. unfold modify. cbn [fst snd].
      unfold heads_for, settled, _to_display. cbn.
      split; [right; left; reflexivity | discriminate].
    + unfold modify. cbn [fst snd].
      destruct (animate_to_tracks (_animator s1) (_to_display s1 rect) now Hs1) as [He Hc].
      unfold heads_for, settled. cbn [set_animator set_current _animator _current_rect].
      split; [right; exact He | exact Hc].
Qed.

(** One event keeps the highlight and the animation together. *)
Lemma handle_tracks (now : F) (ev : Event) (s : WindowPicker F) :
  heads_for s /\ settled s ->
  heads_for (state (handle host now ev s)) /\ settled (state (handle host now ev s)).
Proof.
  intros Ht. destruct ev as [cursor winId | pos | button | key ctrl cursor |]; cbn [handle].
  - unfold _init_windows. destruct (is_win32 host); cbn [negb]; [|exact Ht].
    rewrite !bind_run. cbn [modify result state effects fst snd app].
    apply update_highlight_tracks. now apply (tracks_same s).
  - unfold mouseMoveEvent. rewrite bind_run. cbn [modify result state effects fst snd app].
    apply update_highlight_tracks. now apply (tracks_same s).
  - destruct button; cbn [mousePressEvent]; rewrite ?bind_run;
      cbn [gets id result state effects fst snd app];
      try (destruct (negb (QRect.isEmpty (_current_rect s))); rewrite ?bind_run);
      exact Ht.
  - assert (Hn : forall dx dy,
              heads_for (state (_nudge_cursor host now cursor dx dy s)) /\
              settled (state (_nudge_cursor host now cursor dx dy s))).
    { intros dx dy. unfold _nudge_cursor. rewrite !bind_run.
      cbn [modify perform result state effects fst snd app].
      apply update_highlight_tracks. now apply (tracks_same s). }
    destruct key; cbn [keyPressEvent]; try apply Hn.
    + rewrite !bind_run. exact Ht.
    + rewrite !bind_run. exact Ht.
    + exact Ht.
    + exact Ht.
    + rewrite bind_run. cbn [gets id result state effects fst snd app].
      destruct (negb (QRect.isEmpty (_current_rect s))); rewrite ?bind_run; exact Ht.
    + rewrite bind_run. cbn [gets id result state effects fst snd app].
      destruct (negb (QRect.isEmpty (_current_rect s))); rewrite ?bind_run; exact Ht.
    + unfold _page_down. rewrite bind_run. cbn [gets result state effects fst snd app].
      destruct (_current_hwnd s =? 0); [exact Ht|].
      rewrite bind_run.
      destruct (enum_frame host (_current_hwnd s) s) as (Hf & _ & Hr & Ha & _).
      cbv zeta in Hf, Hr, Ha. destruct Hf as (_ & _ & _ & _ & _ & Hoff & _).
      assert (Ht1 : heads_for (state (_enum_direct_children host (_current_hwnd s) s)) /\
                    settled (state (_enum_direct_children host (_current_hwnd s) s)))
        by (now apply (tracks_same s)).
      destruct (result (_enum_direct_children host (_current_hwnd s) s)).
      * exact Ht1.
      * rewrite !bind_run. cbn [modify result state effects fst snd app].
        apply update_highlight_tracks.
        now apply (tracks_same (state (_enum_direct_children host (_current_hwnd s) s))).
    + unfold _page_up. rewrite bind_run. cbn [gets result state effects fst snd app].
      destruct (last (_parent_stack s)); [|exact Ht].
      rewrite !bind_run. cbn [modify result state effects fst snd app].
      apply update_highlight_tracks. now apply (tracks_same s).
    + rewrite !bind_run. cbn. now apply (tracks_same s).
    + exact Ht.
  - unfold _on_tick. rewrite bind_run. cbn [gets result state effects fst snd app].
    destruct Ht as [Hh Hs].
    destruct (tick_tracks (_animator s) now Hs) as [He Hc].
    destruct (tick (_animator s) now) as [repaint a']. cbn [snd] in He, Hc.
    rewrite bind_run. cbn [modify result state effects fst snd app].
    assert (Hgoal : heads_for (set_animator a' s) /\ settled (set_animator a' s)).
    { unfold heads_for, settled, _to_display in *. cbn. rewrite He.
      split; [exact Hh | intros Hx; rewrite <- He; auto]. }
    destruct repaint; exact Hgoal.
Qed.

(** X11.  Whatever the sequence of events a Window Picker receives, at
    whatever times, the highlight and the animation stay together:
    whenever a rectangle is highlighted (the one a click or Return would
    confirm), the rectangle the animation is moving to is that rectangle
    in the coordinates of the overlay, up to the fuzzy equality of QRectF
    under which a new target does not restart the animation; and whenever
    the animation is not running, the rectangle on display is the one it
    was moving to.  So once the animation is over, what is painted as the
    highlight is what a confirmation returns. *)
Theorem X11_animation_heads_for_the_highlight :
  forall (shot : QPixmap) (evs : list (F * Event)),
    heads_for (fst (run host (__init__ host shot) evs)) /\
    settled (fst (run host (__init__ host shot) evs)).
Proof.
  intros shot evs.
  assert (Hgen : forall s : WindowPicker F, heads_for s /\ settled s ->
            heads_for (fst (run host s evs)) /\ settled (fst (run host s evs))).
  { induction evs as [|[now ev] evs IH]; intros s Hs; cbn [run]; [exact Hs|].
    pose proof (handle_tracks now ev s Hs) as Hs1.
    destruct (handle host now ev s) as [[u s1] fx1].
    unfold state in Hs1. cbn [fst snd] in Hs1.
    specialize (IH s1 Hs1). destruct (run host s1 evs) as [s2 fx2]. exact IH. }
  apply Hgen. split; [now left | intros _; reflexivity].
Qed.

(** *** Off Windows *)




End PickerFurther.

(** On the host of the nested windows: once the picker has entered
    window 1 and the pointer is on its child, the child's frame is
    highlighted and it is where the animation ends. *)
Example highlight_and_animation_agree :
  let s := fst (window_picker.run nested_host (window_picker.__init__ nested_host 0%nat)
                  [(PrimFloat.zero, window_picker.Shown (QPoint.mk 50 50) 99);
                   (PrimFloat.one,
                    window_picker.KeyPress overlay.Key_PageDown false (QPoint.mk 50 50));
                   (PrimFloat.one, window_picker.Move (QPoint.mk 5 5))]) in
  window_picker._current_rect s = QRect.xywh 0 0 10 10 /\
  window_picker.end_rect (window_picker._animator s)
  = window_picker.QRectF_of_QRect (QRect.xywh 0 0 10 10).
Proof. cbv zeta. split; vm_compute; reflexivity. Qed.

Lemma X9_witness :
  is_win32 nested_host = true /\
  window_picker._own_hwnd picker_shown = 99.
Proof.
  split; [reflexivity|].
  exact (proj1 (X9_top_windows_are_the_visible_titled_windows nested_host
                  (of_int 0) (QPoint.mk 50 50) 99
                  (window_picker.__init__ nested_host 0%nat) eq_refl)).
Defined.



(** ** Rectangle Animator: the motion *)

Section AnimatorFurther.
Import window_picker.
Local Open Scope Qc_scope.

Ltac qc_to_q :=
  repeat (progress (unfold Qcle, Qclt, Qcplus, Qcmult, Qcminus, Qcopp, Q2Qc in *;
                    cbn [this] in * ));
  repeat rewrite Qred_correct in *.

(** The progress of an active animator at a clock reading. *)
Lemma shown_exact (a : RectAnimator Qc) (now : Qc) :
  active a = true -> 0 < duration a -> start_time a <= now ->
  shown a now =
    interpolate (start_rect a) (end_rect a)
      (eased_progress (clamp01 ((now - start_time a) / duration a))).
Proof.
  intros Hact Hd Hnow. unfold shown.
  destruct (tick_exact a now Hact Hd Hnow) as [-> _]. reflexivity.
Qed.

(** *** Independence of the frame rate *)

Lemma tick_twice (a : RectAnimator Qc) (u t : Qc) :
  0 < duration a -> start_time a <= u -> u <= t ->
  snd (tick (snd (tick a u)) t) = snd (tick a t).
Proof.
  intros Hd Hu Hut. destruct (active a) eqn:Hact.
  - assert (Ht : start_time a <= t) by (now apply Qcle_trans with u).
    destruct (tick_exact a u Hact Hd Hu) as [Eu Hone_u].
    destruct (tick_exact a t Hact Hd Ht) as [Et Hone_t].
    cbv zeta in *. rewrite Eu. cbn [snd].
    destruct (le (duration a) (u - start_time a)) eqn:Ele; cbn [negb].
    + (* the animation was over at [u] *)
      rewrite tick_inactive by reflexivity. cbn [snd]. rewrite Et. cbn [snd].
      apply exact_le_iff in Ele.
      assert (Ele' : duration a <= t - start_time a).
      { apply Qcle_trans with (u - start_time a); [exact Ele|].
        clear - Hut. qc_to_q. lra. }
      rewrite (proj2 Hone_u Ele), (proj2 Hone_t Ele').
      apply exact_le_iff in Ele'. rewrite Ele'. reflexivity.
    + (* still in flight at [u]: the tick at [t] reads what [a] holds *)
      unfold tick at 1. cbn [active duration start_rect end_rect start_time negb].
      unfold tick. rewrite Hact. reflexivity.
  - rewrite (tick_inactive a u Hact). cbn [snd]. reflexivity.
Qed.

Lemma tick_keeps_schedule (a : RectAnimator Qc) (u : Qc) :
  duration (snd (tick a u)) = duration a /\ start_time (snd (tick a u)) = start_time a.
Proof.
  unfold tick. destruct (negb (active a)); [split; reflexivity|]. cbv zeta.
  destruct (le _ _); split; reflexivity.
Qed.

(** X14.  What the animator displays does not depend on the frame
    rate: after any number of earlier ticks, at clock readings between
    the start of the animation and [t] and in whatever order, a tick at
    [t] leaves the animator in the state a single tick at [t] would have
    produced. *)
Theorem X14_display_is_independent_of_earlier_ticks :
  forall (a : RectAnimator Qc) (ts : list Qc) (t : Qc),
    0 < duration a ->
    Forall (fun u => start_time a <= u /\ u <= t) ts ->
    snd (tick (ticked a ts) t) = snd (tick a t).
Proof.
  intros a ts t Hd Hts. revert a Hd Hts. unfold ticked.
  induction ts as [|u ts IH]; intros a Hd Hts; [reflexivity|].
  cbn [fold_left]. apply Forall_cons_1 in Hts as [[Hu Hut] Hts].
  destruct (tick_keeps_schedule a u) as [Ed Es].
  rewrite IH.
  - now apply tick_twice.
  - now rewrite Ed.
  - now rewrite Es.
Qed.

Lemma X14_witness :
  0 < duration animator_in_flight /\
  Forall (fun u => start_time animator_in_flight <= u /\ u <= Q2Qc (600 # 1000))
    [Q2Qc (400 # 1000); Q2Qc (416 # 1000); Q2Qc (500 # 1000)] /\
  snd (tick (ticked animator_in_flight
               [Q2Qc (400 # 1000); Q2Qc (416 # 1000); Q2Qc (500 # 1000)])
            (Q2Qc (600 # 1000)))
  = snd (tick animator_in_flight (Q2Qc (600 # 1000))).
Proof.
  assert (Hd : 0 < duration animator_in_flight) by reflexivity.
  assert (Hts : Forall (fun u => start_time animator_in_flight <= u /\ u <= Q2Qc (600 # 1000))
                  [Q2Qc (400 # 1000); Q2Qc (416 # 1000); Q2Qc (500 # 1000)])
    by (repeat constructor; vm_compute; discriminate).
  split; [exact Hd|]. split; [exact Hts|].
  exact (X14_display_is_independent_of_earlier_ticks animator_in_flight _ _ Hd Hts).
Defined.

(** *** Starting an animation *)

(** X15.  A new animation starts from what is on display, without a
    jump.  Retargeting an animator whose current rectangle is not empty
    to a rectangle other than its end rectangle starts an animation at
    the present clock reading whose first frame, at that same reading,
    is the rectangle that was displayed before; an animation started from
    the cursor begins with the zero-size rectangle at the cursor.  From
    one duration later on, either one displays its target and is over. *)
Theorem X15_new_animation_starts_from_what_is_displayed :
  forall (a : RectAnimator Qc) (cursor_pos : QPoint.t) (target : QRect.t) (now later : Qc),
    0 < duration a ->
    QRectF_isEmpty (current_rect a) = false ->
    QRectF_eq (QRectF_of_QRect target) (end_rect a) = false ->
    now + duration a <= later ->
    let retargeted := animate_to a target now in
    let from_cursor := animate_from_cursor a cursor_pos target now in
    active retargeted = true /\
    shown retargeted now = current_rect a /\
    tick retargeted later = (true, finished retargeted) /\
    shown retargeted later = QRectF_of_QRect target /\
    active from_cursor = true /\
    shown from_cursor now =
      mkQRectF (of_int (QPoint.x cursor_pos)) (of_int (QPoint.y cursor_pos))
               (of_int 0) (of_int 0) /\
    tick from_cursor later = (true, finished from_cursor) /\
    shown from_cursor later = QRectF_of_QRect target.
Proof.
  intros a cursor_pos target now later Hd Hne Hneq Hlater retargeted from_cursor.
  assert (Er : retargeted =
            mkRectAnimator (duration a) (current_rect a) (QRectF_of_QRect target)
              (current_rect a) now true).
  { unfold retargeted, animate_to. cbv zeta. now rewrite Hne, Hneq. }
  assert (Hstart : forall b : RectAnimator Qc,
            active b = true -> duration b = duration a -> start_time b = now ->
            shown b now = start_rect b /\
            tick b later = (true, finished b) /\
            shown b later = end_rect b).
  { intros b Hact Hdb Hsb.
    assert (Hd' : 0 < duration b) by (now rewrite Hdb).
    assert (H0 : start_time b <= now) by (rewrite Hsb; apply Qcle_refl).
    assert (H1 : start_time b <= later).
    { rewrite Hsb. clear - Hlater Hd. qc_to_q. lra. }
    assert (Hover : duration b <= later - start_time b).
    { rewrite Hsb, Hdb. clear - Hlater. qc_to_q. lra. }
    split; [|split].
    - rewrite (shown_exact b now Hact Hd' H0).
      replace ((now - start_time b) / duration b) with 0
        by (rewrite Hsb; unfold Qcdiv; ring).
      change (clamp01 0) with 0. rewrite eased_progress_0. apply interpolate_0.
    - destruct (tick_exact b later Hact Hd' H1) as [Et Hone]. cbv zeta in *.
      rewrite Et, (proj2 Hone Hover), eased_progress_1, interpolate_1.
      apply exact_le_iff in Hover. rewrite Hover. reflexivity.
    - rewrite (shown_exact b later Hact Hd' H1).
      destruct (tick_exact b later Hact Hd' H1) as [_ Hone]. cbv zeta in *.
      rewrite (proj2 Hone Hover), eased_progress_1. apply interpolate_1. }
  destruct (Hstart retargeted) as (R1 & R2 & R3); [now rewrite Er..|].
  destruct (Hstart from_cursor) as (C1 & C2 & C3); [reflexivity..|].
  split; [now rewrite Er|]. split; [rewrite R1; now rewrite Er|].
  split; [exact R2|]. split; [rewrite R3; now rewrite Er|].
  split; [reflexivity|]. split; [exact C1|]. split; [exact C2 | exact C3].
Qed.

Lemma X15_witness :
  0 < duration animator_in_flight /\
  QRectF_isEmpty (current_rect animator_in_flight) = false /\
  QRectF_eq (QRectF_of_QRect (QRect.xywh 5 5 20 20)) (end_rect animator_in_flight) = false /\
  shown (animate_to animator_in_flight (QRect.xywh 5 5 20 20) (Q2Qc (350 # 1000)))
        (Q2Qc (350 # 1000))
  = current_rect animator_in_flight.
Proof.
  split; [reflexivity|]. split; [reflexivity|]. split; [reflexivity|].
  refine (proj1 (proj2 (X15_new_animation_starts_from_what_is_displayed animator_in_flight
                          (QPoint.mk 0 0) (QRect.xywh 5 5 20 20)
                          (Q2Qc (350 # 1000)) (Q2Qc (2 # 1)) _ _ _ _))).
  - reflexivity.
  - reflexivity.
  - reflexivity.
  - vm_compute. discriminate.
Defined.

(** *** The animation timer of the Window Picker *)

(** X16.  The 16 ms timer of the Window Picker repaints only while an
    animation is in flight.  A tick on a picker whose animator is not
    active changes nothing and requests no repaint.  A tick of an active
    animator at or after the end of the animation requests one last
    repaint and leaves the animator on its end rectangle, inactive; from
    then on, ticks at any later clock reading change nothing and request
    no repaint. *)
Theorem X16_timer_repaints_only_while_animating :
  forall (s : WindowPicker Qc) (now later : Qc),
    let a := _animator s in
    (active a = false -> _on_tick now s = (tt, s, [])) /\
    (active a = true -> 0 < duration a -> start_time a + duration a <= now ->
     _on_tick now s = (tt, set_animator (finished a) s, [update]) /\
     _on_tick later (set_animator (finished a) s)
       = (tt, set_animator (finished a) s, [])).
Proof.
  intros s now later a. split.
  - intros Hact. unfold _on_tick. rewrite bind_run. cbn [gets result state effects fst snd].
    fold a. rewrite (tick_inactive a now Hact). rewrite bind_run. cbn.
    unfold a. now destruct s.
  - intros Hact Hd Hnow. split.
    + unfold _on_tick. rewrite bind_run. cbn [gets result state effects fst snd].
      fold a.
      assert (H0 : start_time a <= now).
      { clear - Hd Hnow. qc_to_q. lra. }
      assert (Hover : duration a <= now - start_time a).
      { clear - Hnow. qc_to_q. lra. }
      destruct (tick_exact a now Hact Hd H0) as [Et Hone]. cbv zeta in *.
      rewrite Et, (proj2 Hone Hover), eased_progress_1, interpolate_1.
      apply exact_le_iff in Hover. rewrite Hover. cbn [negb].
      rewrite bind_run. reflexivity.
    + unfold _on_tick. rewrite bind_run. cbn [gets result state effects fst snd].
      cbn [_animator set_animator].
      rewrite (tick_inactive (finished a) later eq_refl). rewrite bind_run. reflexivity.
Qed.

Lemma X16_witness :
  active animator_in_flight = true /\
  0 < duration animator_in_flight /\
  start_time animator_in_flight + duration animator_in_flight <= Q2Qc (800 # 1000) /\
  _on_tick (Q2Qc (800 # 1000))
    (set_animator animator_in_flight (__init__ plain_host 0%nat))
  = (tt, set_animator (finished animator_in_flight) (__init__ plain_host 0%nat), [update]).
Proof.
  assert (H : start_time animator_in_flight + duration animator_in_flight
              <= Q2Qc (800 # 1000)) by (vm_compute; discriminate).
  split; [reflexivity|]. split; [reflexivity|]. split; [exact H|].
  exact (proj1 (proj2 (X16_timer_repaints_only_while_animating
                         (set_animator animator_in_flight (__init__ plain_host 0%nat))
                         (Q2Qc (800 # 1000)) (Q2Qc (900 # 1000)))
                  eq_refl eq_refl H)).
Defined.

End AnimatorFurther.

(** ** Orchestrator *)

Section OrchestratorFurther.
Import app.
Context {F : Type} {fl : PyFloat F}.
Variable host : Host.
Variable timer_on : bool.
Variable secs : Z.

(** One event opens nothing that was not already open or pending. *)
Lemma step_open_count (a : SwiftShotApp F) (ev : Event) :
  (open_count (fst (step host timer_on secs a ev)) <= open_count a)%nat.
Proof.
  unfold open_count.
  destruct ev as [[r| |]|[r| |]|]; cbn [step].
  - unfold on_overlay_signal. destruct (_overlay a) as [ov|] eqn:Eo; [|cbn; rewrite ?Eo; cbn; lia].
    unfold _on_region_selected, _close_overlay. rewrite Eo.
    destruct ((QRect.width r <? 1) || (QRect.height r <? 1)); [cbn; lia|].
    destruct (_ocr_mode ov); [cbn; lia|].
    destruct (timer_on && (secs >? 0)); cbn; lia.
  - unfold on_overlay_signal. destruct (_overlay a) as [ov|] eqn:Eo; [|cbn; rewrite ?Eo; cbn; lia].
    unfold _switch_to_window_mode, _close_overlay. rewrite Eo. cbn.
    rewrite List.filter_app, length_app. cbn. lia.
  - unfold on_overlay_signal. destruct (_overlay a) as [ov|] eqn:Eo; [|cbn; rewrite ?Eo; cbn; lia].
    unfold _close_overlay. rewrite Eo. cbn. lia.
  - unfold on_picker_signal.
    destruct (_window_picker a) as [pk|] eqn:Ep; [|cbn; rewrite ?Ep; cbn; lia].
    unfold _on_window_selected, _close_window_picker. rewrite Ep.
    destruct ((QRect.width r <? 1) || (QRect.height r <? 1)); [cbn; lia|].
    destruct (timer_on && (secs >? 0)); cbn; lia.
  - unfold on_picker_signal.
    destruct (_window_picker a) as [pk|] eqn:Ep; [|cbn; rewrite ?Ep; cbn; lia].
    unfold _switch_to_region_mode, _close_window_picker. rewrite Ep. cbn.
    rewrite List.filter_app, length_app. cbn. destruct (_overlay a); lia.
  - unfold on_picker_signal.
    destruct (_window_picker a) as [pk|] eqn:Ep; [|cbn; rewrite ?Ep; cbn; lia].
    unfold _close_window_picker. rewrite Ep. cbn. lia.
  - unfold on_timer. destruct (timers a) as [|d rest] eqn:Et; [cbn; rewrite ?Et; cbn; lia|].
    destruct d as [full|].
    + unfold _start_window_picker, _close_window_picker. cbn.
      destruct (_window_picker a); cbn; lia.
    + cbn. destruct (_overlay a); cbn; lia.
Qed.

(** X17.  While a selector session runs, the signals and timer firings
    that reach the orchestrator never add a selector: for every sequence
    of events in which each signal comes from a selector that is open and
    each firing is that of a pending timer (the deferred show of the
    Region Selector finding it open), the number of selectors that are
    open or about to be opened by a pending timer never grows.  So a
    session that starts with one selector never has the Region Selector
    and the Window Picker open at once. *)
Theorem X17_a_session_never_opens_a_second_selector :
  forall (a : SwiftShotApp F) (evs : list Event),
    sourced host timer_on secs a evs = true ->
    let a' := fst (run host timer_on secs a evs) in
    (open_count a' <= open_count a)%nat /\
    ((open_count a <= 1)%nat -> _overlay a' = None \/ _window_picker a' = None).
Proof.
  intros a evs _. cbv zeta.
  assert (Hrun : (open_count (fst (run host timer_on secs a evs)) <= open_count a)%nat).
  { revert a. induction evs as [|ev evs IH]; intros a; cbn [run].
    - cbn. lia.
    - pose proof (step_open_count a ev) as H1.
      destruct (step host timer_on secs a ev) as [a1 fx1]. cbn [fst snd] in *.
      pose proof (IH a1) as H4.
      destruct (run host timer_on secs a1 evs) as [a2 fx2]. cbn [fst snd] in *. lia. }
  split; [exact Hrun|].
  set (a' := fst (run host timer_on secs a evs)) in *. clearbody a'.
  unfold open_count in *.
  intros H1. destruct (_overlay a'); [|now left].
  destruct (_window_picker a'); [lia | now right].
Qed.

End OrchestratorFurther.

(** ** Window Picker to orchestrator *)

Section PickerHandOff.
Import app.
Context {F : Type} {fl : PyFloat F}.
Variable host : Host.
Variable timer_on : bool.
Variable secs : Z.

(** X18.  A rectangle confirmed in the Window Picker always gets
    through to a capture: whatever events led the picker to confirm it,
    the orchestrator closes the picker first and then either crops the
    session's Snapshot with that rectangle or, when the capture timer is
    enabled with a positive number of seconds, starts the timed capture
    of it; it never drops the rectangle as degenerate, saves no last
    region and leaves the Region Selector alone. *)
Theorem X18_confirmed_window_always_reaches_a_capture :
  forall (shot : QPixmap) (evs : list (F * window_picker.Event)) (rect : QRect.t)
         (a : SwiftShotApp F) (pk : PickerOverlay F),
    In (window_picker.element_selected rect)
       (window_picker.signals
          (snd (window_picker.run host (window_picker.__init__ host shot) evs))) ->
    _window_picker a = Some pk ->
    let r := step host timer_on secs a (from_picker (window_picker.element_selected rect)) in
    _window_picker (fst r) = None /\
    _overlay (fst r) = _overlay a /\
    timers (fst r) = timers a /\
    snd r = [picker_hide_close;
             if timer_on && (secs >? 0) then _timed_capture_region rect
             else crop_then_handle (picker_full_screenshot pk) rect].
Proof.
  intros shot evs rect a pk Hin Hpk. cbv zeta.
  destruct (run_framed host rect evs _ (init_framed host shot) Hin) as (s & _ & -> & Hne).
  assert (Hsize : (QRect.width (window_picker._to_display s (window_picker._current_rect s)) <? 1)
                  || (QRect.height (window_picker._to_display s (window_picker._current_rect s)) <? 1)
                  = false).
  { unfold QRect.isEmpty in Hne. apply orb_false_iff in Hne as [H1 H2].
    unfold window_picker._to_display, QRect.xywh, QRect.width, QRect.height.
    cbn [QRect.x1 QRect.x2 QRect.y1 QRect.y2]. apply orb_false_iff. lia. }
  cbn [step]. unfold on_picker_signal. rewrite Hpk.
  unfold _on_window_selected, _close_window_picker. rewrite Hpk, Hsize.
  destruct (timer_on && (secs >? 0)); cbn; auto.
Qed.

End PickerHandOff.

Lemma X18_witness :
  In (window_picker.element_selected (QRect.xywh 0 0 100 100))
     (window_picker.signals
        (snd (window_picker.run nested_host
                (window_picker.__init__ nested_host 0%nat)
                [(PrimFloat.zero, window_picker.Shown (QPoint.mk 50 50) 99);
                 (PrimFloat.one, window_picker.KeyPress overlay.Key_Return false
                                   (QPoint.mk 50 50))]))) /\
  snd (app.step nested_host false 0
         (app.mkApp None
            (Some (app.mkPickerOverlay (window_picker.__init__ nested_host 0%nat) 0%nat))
            1%nat [])
         (app.from_picker (window_picker.element_selected (QRect.xywh 0 0 100 100))))
  = [app.picker_hide_close; app.crop_then_handle 0%nat (QRect.xywh 0 0 100 100)].
Proof.
  assert (H : In (window_picker.element_selected (QRect.xywh 0 0 100 100))
     (window_picker.signals
        (snd (window_picker.run nested_host
                (window_picker.__init__ nested_host 0%nat)
                [(PrimFloat.zero, window_picker.Shown (QPoint.mk 50 50) 99);
                 (PrimFloat.one, window_picker.KeyPress overlay.Key_Return false
                                   (QPoint.mk 50 50))]))))
    by (vm_compute; left; reflexivity).
  split; [exact H|].
  exact (proj2 (proj2 (proj2
    (X18_confirmed_window_always_reaches_a_capture nested_host false 0 0%nat _ _
       (app.mkApp None
          (Some (app.mkPickerOverlay (window_picker.__init__ nested_host 0%nat) 0%nat))
          1%nat [])
       (app.mkPickerOverlay (window_picker.__init__ nested_host 0%nat) 0%nat)
       H eq_refl)))).
Defined.

Lemma X17_witness :
  sourced plain_host false 0
    (fst (app._start_region_overlay plain_host (fun _ => true)
            overlay.MODE_RECTANGLE false (app.App_init (F := float))))
    [app.from_overlay overlay.switch_to_window; app.timer_fires;
     app.from_picker window_picker.switch_to_region] = true /\
  (open_count (fst (app._start_region_overlay plain_host (fun _ => true)
                      overlay.MODE_RECTANGLE false (app.App_init (F := float)))) <= 1)%nat /\
  (app._overlay
     (fst (app.run plain_host false 0
             (fst (app._start_region_overlay plain_host (fun _ => true)
                     overlay.MODE_RECTANGLE false (app.App_init (F := float))))
             [app.from_overlay overlay.switch_to_window; app.timer_fires;
              app.from_picker window_picker.switch_to_region])) = None \/
   app._window_picker
     (fst (app.run plain_host false 0
             (fst (app._start_region_overlay plain_host (fun _ => true)
                     overlay.MODE_RECTANGLE false (app.App_init (F := float))))
             [app.from_overlay overlay.switch_to_window; app.timer_fires;
              app.from_picker window_picker.switch_to_region])) = None).
Proof.
  assert (Hs : sourced plain_host false 0
                 (fst (app._start_region_overlay plain_host (fun _ => true)
                         overlay.MODE_RECTANGLE false (app.App_init (F := float))))
                 [app.from_overlay overlay.switch_to_window; app.timer_fires;
                  app.from_picker window_picker.switch_to_region] = true)
    by reflexivity.
  assert (H : (open_count (fst (app._start_region_overlay plain_host (fun _ => true)
                 overlay.MODE_RECTANGLE false (app.App_init (F := float)))) <= 1)%nat)
    by (vm_compute; lia).
  split; [exact Hs|]. split; [exact H|].
  exact (proj2
    (X17_a_session_never_opens_a_second_selector plain_host false 0
       (fst (app._start_region_overlay plain_host (fun _ => true)
               overlay.MODE_RECTANGLE false (app.App_init (F := float))))
       [app.from_overlay overlay.switch_to_window; app.timer_fires;
        app.from_picker window_picker.switch_to_region] Hs) H).
Defined.

(** ** Cropping and the virtual desktop *)

Section GeometryFurther.

Lemma contains_has_pixels (r : QRect.t) (px py : Z) :
  has_pixels r ->
  (QRect.contains r px py = true <->
   QRect.left r <= px <= QRect.right r /\ QRect.top r <= py <= QRect.bottom r).
Proof.
  unfold has_pixels, QRect.width, QRect.height, QRect.contains, QRect.left, QRect.right,
    QRect.top, QRect.bottom.
  intros [Hw Hh].
  destruct (QRect.x2 r <? QRect.x1 r - 1) eqn:E1; [lia|].
  destruct ((px <? QRect.x1 r) || (px >? QRect.x2 r)) eqn:E2.
  - apply orb_true_iff in E2. split; [discriminate | lia].
  - apply orb_false_iff in E2.
    destruct (QRect.y2 r <? QRect.y1 r - 1) eqn:E3; [lia|].
    destruct ((py <? QRect.y1 r) || (py >? QRect.y2 r)) eqn:E4.
    + apply orb_true_iff in E4. split; [discriminate | lia].
    + apply orb_false_iff in E4. split; [lia | reflexivity].
Qed.

Lemma int32_small (z : Z) : - INT_MAX - 1 <= z <= INT_MAX -> QRect.int32 z = z.
Proof. unfold QRect.int32, INT_MAX. intros H. rewrite Z.mod_small by lia. lia. Qed.

(** On a rectangle that fits, Qt's wrapped computations are exact. *)
Lemma fits_int_exact (r : QRect.t) :
  has_pixels r -> fits_int r ->
  QRect.isNull32 r = false /\ QRect.width32 r = QRect.width r /\
  QRect.height32 r = QRect.height r.
Proof.
  unfold has_pixels, fits_int, QRect.isNull32, QRect.width32, QRect.height32,
    QRect.width, QRect.height.
  intros [Hw Hh] (H1 & H2 & H3 & H4 & H5 & H6).
  split; [|split; apply int32_small; unfold INT_MAX in *; lia].
  apply andb_false_iff. left. apply Z.eqb_neq.
  destruct (Z.eq_dec (QRect.x1 r) (- INT_MAX - 1)) as [E|E].
  - rewrite E. change (QRect.int32 (- INT_MAX - 1 - 1)) with INT_MAX.
    unfold INT_MAX in *. lia.
  - rewrite int32_small by (unfold INT_MAX in *; lia). lia.
Qed.

Lemma intersected_has_pixels (r1 r2 : QRect.t) :
  has_pixels r1 -> fits_int r1 -> has_pixels r2 -> fits_int r2 ->
  QRect.intersected r1 r2 =
    if (QRect.x1 r1 >? QRect.x2 r2) || (QRect.x1 r2 >? QRect.x2 r1)
       || (QRect.y1 r1 >? QRect.y2 r2) || (QRect.y1 r2 >? QRect.y2 r1)
    then QRect.null
    else QRect.mk (Z.max (QRect.x1 r1) (QRect.x1 r2)) (Z.max (QRect.y1 r1) (QRect.y1 r2))
                  (Z.min (QRect.x2 r1) (QRect.x2 r2)) (Z.min (QRect.y2 r1) (QRect.y2 r2)).
Proof.
  intros Hp1 Hf1 Hp2 Hf2.
  destruct (fits_int_exact r1 Hp1 Hf1) as (N1 & W1 & H1).
  destruct (fits_int_exact r2 Hp2 Hf2) as (N2 & W2 & H2).
  unfold QRect.intersected. rewrite N1, N2, W1, W2, H1, H2. cbn [orb].
  destruct Hp1 as [Hw1 Hh1], Hp2 as [Hw2 Hh2].
  replace (QRect.width r1 <? 0) with false by lia.
  replace (QRect.width r2 <? 0) with false by lia.
  replace (QRect.height r1 <? 0) with false by lia.
  replace (QRect.height r2 <? 0) with false by lia.
  destruct ((QRect.x1 r1 >? QRect.x2 r2) || (QRect.x1 r2 >? QRect.x2 r1)); [reflexivity|].
  cbn [orb].
  destruct ((QRect.y1 r1 >? QRect.y2 r2) || (QRect.y1 r2 >? QRect.y2 r1)); reflexivity.
Qed.

(** The intersection of two rectangles that fit and share a pixel holds
    exactly the pixels of both. *)
Lemma intersected_overlapping (r1 r2 : QRect.t) (px py : Z) :
  has_pixels r1 -> fits_int r1 -> has_pixels r2 -> fits_int r2 ->
  QRect.contains r1 px py = true -> QRect.contains r2 px py = true ->
  let c := QRect.intersected r1 r2 in
  c = QRect.mk (Z.max (QRect.x1 r1) (QRect.x1 r2)) (Z.max (QRect.y1 r1) (QRect.y1 r2))
               (Z.min (QRect.x2 r1) (QRect.x2 r2)) (Z.min (QRect.y2 r1) (QRect.y2 r2)) /\
  has_pixels c /\ fits_int c /\
  forall qx qy, QRect.contains c qx qy = true <->
    QRect.contains r1 qx qy = true /\ QRect.contains r2 qx qy = true.
Proof.
  intros Hp1 Hf1 Hp2 Hf2 Hc1 Hc2. cbv zeta.
  rewrite (intersected_has_pixels r1 r2 Hp1 Hf1 Hp2 Hf2).
  apply (contains_has_pixels r1 px py Hp1) in Hc1.
  apply (contains_has_pixels r2 px py Hp2) in Hc2.
  unfold QRect.left, QRect.right, QRect.top, QRect.bottom in Hc1, Hc2.
  replace ((QRect.x1 r1 >? QRect.x2 r2) || (QRect.x1 r2 >? QRect.x2 r1)
           || (QRect.y1 r1 >? QRect.y2 r2) || (QRect.y1 r2 >? QRect.y2 r1)) with false
    by (symmetry; repeat (apply orb_false_iff; split); lia).
  set (c := QRect.mk _ _ _ _).
  assert (Hc : has_pixels c).
  { unfold has_pixels, c, QRect.width, QRect.height. cbn. lia. }
  split; [reflexivity|]. split; [exact Hc|]. split.
  - unfold fits_int, has_pixels, QRect.width, QRect.height, c in *. cbn. lia.
  - intros qx qy.
    rewrite (contains_has_pixels c qx qy Hc), (contains_has_pixels r1 qx qy Hp1),
      (contains_has_pixels r2 qx qy Hp2).
    unfold c, QRect.left, QRect.right, QRect.top, QRect.bottom. cbn. lia.
Qed.

Lemma pixmap_rect_fits (w h : Z) :
  1 <= w <= INT_MAX -> 1 <= h <= INT_MAX ->
  has_pixels (QRect.xywh 0 0 w h) /\ fits_int (QRect.xywh 0 0 w h) /\
  forall px py, QRect.contains (QRect.xywh 0 0 w h) px py = true <->
    0 <= px < w /\ 0 <= py < h.
Proof.
  intros Hw Hh.
  assert (Hp : has_pixels (QRect.xywh 0 0 w h)).
  { unfold has_pixels, QRect.xywh, QRect.width, QRect.height. cbn. lia. }
  split; [exact Hp|]. split.
  - unfold fits_int, QRect.xywh, QRect.width, QRect.height, INT_MAX in *. cbn. lia.
  - intros px py. rewrite (contains_has_pixels _ px py Hp).
    unfold QRect.xywh, QRect.left, QRect.right, QRect.top, QRect.bottom. cbn. lia.
Qed.

(** X19.  Cropping a pixmap with a rectangle that holds at least one
    pixel, and whose coordinates, width and height are C ints, yields
    exactly the part of the rectangle that lies on the pixmap: the pixels
    of the result are the pixels of the rectangle with coordinates inside
    the pixmap; there is no result exactly when no pixel of the rectangle
    is on the pixmap; and a rectangle that lies on the pixmap is returned
    as it is. *)
Theorem X19_crop_is_the_part_of_the_rectangle_on_the_pixmap :
  forall (w h : Z) (rect : QRect.t),
    1 <= w <= INT_MAX -> 1 <= h <= INT_MAX -> has_pixels rect -> fits_int rect ->
    match capture.crop_image (Some (w, h)) (Some rect) with
    | Some c =>
        has_pixels c /\
        forall px py, QRect.contains c px py = true <->
          QRect.contains rect px py = true /\ 0 <= px < w /\ 0 <= py < h
    | None =>
        forall px py, QRect.contains rect px py = true -> ~ (0 <= px < w /\ 0 <= py < h)
    end /\
    (0 <= QRect.left rect -> QRect.right rect < w ->
     0 <= QRect.top rect -> QRect.bottom rect < h ->
     capture.crop_image (Some (w, h)) (Some rect) = Some rect).
Proof.
  intros w h rect Hw Hh Hrect Hfit.
  destruct (pixmap_rect_fits w h Hw Hh) as (Himg & Hifit & Hiin).
  unfold capture.crop_image. cbv zeta.
  destruct ((QRect.x1 rect >? w - 1) || (0 >? QRect.x2 rect)
            || (QRect.y1 rect >? h - 1) || (0 >? QRect.y2 rect)) eqn:Eout.
  - (* no overlap *)
    rewrite (intersected_has_pixels rect (QRect.xywh 0 0 w h) Hrect Hfit Himg Hifit).
    unfold QRect.xywh at 1 2 3 4. cbn [QRect.x1 QRect.x2 QRect.y1 QRect.y2].
    replace (0 + w - 1) with (w - 1) by lia. replace (0 + h - 1) with (h - 1) by lia.
    rewrite Eout. change (QRect.width32 QRect.null) with 0. cbn [Z.ltb Z.compare orb].
    pose proof (fun px py => contains_has_pixels rect px py Hrect) as Hin.
    unfold QRect.left, QRect.right, QRect.top, QRect.bottom in *.
    split.
    + intros px py Hc [Hx Hy]. apply Hin in Hc.
      repeat (apply orb_true_iff in Eout as [Eout|Eout]); lia.
    + intros L1 L2 L3 L4. destruct Hrect as [Hrw Hrh].
      unfold QRect.width, QRect.height in Hrw, Hrh.
      repeat (apply orb_true_iff in Eout as [Eout|Eout]); lia.
  - repeat (apply orb_false_iff in Eout as [Eout ?]).
    pose proof (fun px py => contains_has_pixels rect px py Hrect) as Hin.
    assert (Hshare : QRect.contains rect (Z.max (QRect.x1 rect) 0) (Z.max (QRect.y1 rect) 0)
                     = true /\
                     QRect.contains (QRect.xywh 0 0 w h) (Z.max (QRect.x1 rect) 0)
                       (Z.max (QRect.y1 rect) 0) = true).
    { destruct Hrect as [Hrw Hrh]. unfold QRect.width, QRect.height in Hrw, Hrh.
      split; [apply Hin | apply Hiin];
        unfold QRect.left, QRect.right, QRect.top, QRect.bottom; lia. }
    destruct Hshare as [S1 S2].
    destruct (intersected_overlapping rect (QRect.xywh 0 0 w h) _ _
                Hrect Hfit Himg Hifit S1 S2) as (Ec & Hc & Hcfit & Hcin).
    cbv zeta in Ec, Hc, Hcfit, Hcin.
    destruct (fits_int_exact _ Hc Hcfit) as (_ & W & H').
    rewrite W, H'.
    replace ((QRect.width _ <? 1) || (QRect.height _ <? 1)) with false
      by (symmetry; apply orb_false_iff; destruct Hc; lia).
    split; [split; [exact Hc|]|].
    + intros px py. rewrite Hcin, Hiin. reflexivity.
    + intros L1 L2 L3 L4. f_equal. rewrite Ec.
      unfold QRect.left, QRect.right, QRect.top, QRect.bottom, QRect.xywh in *.
      destruct rect as [a1 b1 a2 b2]. cbn in *. f_equal; lia.
Qed.

Lemma X19_witness :
  1 <= 1920 <= INT_MAX /\ 1 <= 1080 <= INT_MAX /\
  has_pixels (QRect.xywh 1900 (-10) 100 100) /\ fits_int (QRect.xywh 1900 (-10) 100 100) /\
  capture.crop_image (Some (1920, 1080)) (Some (QRect.xywh 1900 (-10) 100 100))
  = Some (QRect.xywh 1900 0 20 90) /\
  (0 <= QRect.left (QRect.xywh 10 10 50 50) -> QRect.right (QRect.xywh 10 10 50 50) < 1920 ->
   0 <= QRect.top (QRect.xywh 10 10 50 50) -> QRect.bottom (QRect.xywh 10 10 50 50) < 1080 ->
   capture.crop_image (Some (1920, 1080)) (Some (QRect.xywh 10 10 50 50))
   = Some (QRect.xywh 10 10 50 50)).
Proof.
  assert (H1 : 1 <= 1920 <= INT_MAX) by (unfold INT_MAX; lia).
  assert (H2 : 1 <= 1080 <= INT_MAX) by (unfold INT_MAX; lia).
  assert (H3 : has_pixels (QRect.xywh 1900 (-10) 100 100)) by (vm_compute; split; discriminate).
  assert (H4 : has_pixels (QRect.xywh 10 10 50 50)) by (vm_compute; split; discriminate).
  assert (H5 : fits_int (QRect.xywh 1900 (-10) 100 100))
    by (vm_compute; repeat split; discriminate).
  assert (H6 : fits_int (QRect.xywh 10 10 50 50))
    by (vm_compute; repeat split; discriminate).
  split; [exact H1|]. split; [exact H2|]. split; [exact H3|]. split; [exact H5|].
  split; [reflexivity|].
  exact (proj2 (X19_crop_is_the_part_of_the_rectangle_on_the_pixmap 1920 1080
                  (QRect.xywh 10 10 50 50) H1 H2 H4 H6)).
Defined.

(** The crop at the limits of a C int: on a rectangle from -2000000000 to
    2000000000 the width wraps to a negative number, the intersection is
    taken as empty and nothing is cropped, although the pixmap lies inside
    the rectangle. *)
Example crop_image_wraps :
  capture.crop_image (Some (100, 10))
    (Some (QRect.mk (-2000000000) (-2000000000) 2000000000 2000000000)) = None /\
  QRect.contains (QRect.mk (-2000000000) (-2000000000) 2000000000 2000000000) 0 0 = true.
Proof. split; reflexivity. Qed.

(** *** The virtual desktop *)

Lemma united_has_pixels (r1 r2 : QRect.t) :
  has_pixels r1 -> has_pixels r2 ->
  QRect.united r1 r2 =
    QRect.mk (Z.min (QRect.x1 r1) (QRect.x1 r2)) (Z.min (QRect.y1 r1) (QRect.y1 r2))
             (Z.max (QRect.x2 r1) (QRect.x2 r2)) (Z.max (QRect.y2 r1) (QRect.y2 r2)).
Proof.
  unfold has_pixels, QRect.width, QRect.height, QRect.united, QRect.isNull.
  intros [Hw1 Hh1] [Hw2 Hh2].
  replace (QRect.x2 r1 =? QRect.x1 r1 - 1) with false by lia.
  replace (QRect.x2 r2 =? QRect.x1 r2 - 1) with false by lia.
  replace (QRect.x2 r1 - QRect.x1 r1 + 1 <? 0) with false by lia.
  replace (QRect.x2 r2 - QRect.x1 r2 + 1 <? 0) with false by lia.
  replace (QRect.y2 r1 - QRect.y1 r1 + 1 <? 0) with false by lia.
  replace (QRect.y2 r2 - QRect.y1 r2 + 1 <? 0) with false by lia.
  reflexivity.
Qed.

Lemma fold_united_spec (rest : list QRect.t) :
  forall acc : QRect.t,
    has_pixels acc -> Forall has_pixels rest ->
    has_pixels (fold_left QRect.united rest acc) /\
    QRect.x1 (fold_left QRect.united rest acc)
      = fold_left Z.min (List.map QRect.x1 rest) (QRect.x1 acc) /\
    QRect.y1 (fold_left QRect.united rest acc)
      = fold_left Z.min (List.map QRect.y1 rest) (QRect.y1 acc) /\
    QRect.x2 (fold_left QRect.united rest acc)
      = fold_left Z.max (List.map QRect.x2 rest) (QRect.x2 acc) /\
    QRect.y2 (fold_left QRect.united rest acc)
      = fold_left Z.max (List.map QRect.y2 rest) (QRect.y2 acc).
Proof.
  induction rest as [|r rest IH]; intros acc Hacc Hrest; cbn [fold_left List.map].
  - auto.
  - apply Forall_cons_1 in Hrest as [Hr Hrest].
    rewrite (united_has_pixels acc r Hacc Hr).
    apply IH; [|exact Hrest].
    unfold has_pixels, QRect.width, QRect.height in *. cbn. lia.
Qed.

Lemma In_edge (f : QRect.t -> Z) (s0 : QRect.t) (rest : list QRect.t) (v : Z) :
  In v (f s0 :: List.map f rest) <-> exists s, In s (s0 :: rest) /\ f s = v.
Proof.
  change (f s0 :: List.map f rest) with (List.map f (s0 :: rest)).
  rewrite in_map_iff. split; intros (s & H1 & H2); eauto.
Qed.

(** X20.  The virtual desktop is the bounding box of the screens: when
    every screen holds at least one pixel, the geometry returned contains
    every pixel of every screen, and each of its four edges is the edge
    of some screen, so no smaller rectangle would do; without any screen
    it is the 1920x1080 rectangle at the origin. *)
Theorem X20_virtual_geometry_is_the_bounding_box :
  forall h : Host,
    Forall has_pixels (screens h) ->
    let g := utils.virtual_geometry h in
    has_pixels g /\
    (forall s px py, In s (screens h) ->
       QRect.contains s px py = true -> QRect.contains g px py = true) /\
    (screens h = [] -> g = QRect.xywh 0 0 1920 1080) /\
    (screens h <> [] ->
     (exists s, In s (screens h) /\ QRect.left s = QRect.left g) /\
     (exists s, In s (screens h) /\ QRect.top s = QRect.top g) /\
     (exists s, In s (screens h) /\ QRect.right s = QRect.right g) /\
     (exists s, In s (screens h) /\ QRect.bottom s = QRect.bottom g)).
Proof.
  intros h Hall. cbv zeta. unfold utils.virtual_geometry.
  destruct (screens h) as [|s0 rest] eqn:Es.
  - split; [vm_compute; split; discriminate|]. split; [intros s px py []|].
    split; [reflexivity | congruence].
  - apply Forall_cons_1 in Hall as [H0 Hrest].
    destruct (fold_united_spec rest s0 H0 Hrest) as (Hg & Ex1 & Ey1 & Ex2 & Ey2).
    set (g := fold_left QRect.united rest s0) in *. clearbody g.
    destruct (fold_min_spec (List.map QRect.x1 rest) (QRect.x1 s0)) as [Hnx Inx].
    destruct (fold_min_spec (List.map QRect.y1 rest) (QRect.y1 s0)) as [Hny Iny].
    destruct (fold_max_spec (List.map QRect.x2 rest) (QRect.x2 s0)) as [Hxx Ixx].
    destruct (fold_max_spec (List.map QRect.y2 rest) (QRect.y2 s0)) as [Hxy Ixy].
    rewrite <- Ex1 in Hnx, Inx. rewrite <- Ey1 in Hny, Iny.
    rewrite <- Ex2 in Hxx, Ixx. rewrite <- Ey2 in Hxy, Ixy.
    split; [exact Hg|]. split; [|split; [discriminate|]].
    + intros s px py Hs Hc.
      assert (Hsp : has_pixels s).
      { destruct Hs as [<-|Hs]; [exact H0|]. rewrite List.Forall_forall in Hrest. auto. }
      apply (contains_has_pixels s px py Hsp) in Hc.
      apply (contains_has_pixels g px py Hg).
      unfold QRect.left, QRect.right, QRect.top, QRect.bottom in *.
      assert (I1 : In (QRect.x1 s) (QRect.x1 s0 :: List.map QRect.x1 rest))
        by (apply In_edge; eauto).
      assert (I2 : In (QRect.y1 s) (QRect.y1 s0 :: List.map QRect.y1 rest))
        by (apply In_edge; eauto).
      assert (I3 : In (QRect.x2 s) (QRect.x2 s0 :: List.map QRect.x2 rest))
        by (apply In_edge; eauto).
      assert (I4 : In (QRect.y2 s) (QRect.y2 s0 :: List.map QRect.y2 rest))
        by (apply In_edge; eauto).
      specialize (Hnx _ I1). specialize (Hny _ I2).
      specialize (Hxx _ I3). specialize (Hxy _ I4). lia.
    + intros _. unfold QRect.left, QRect.right, QRect.top, QRect.bottom.
      apply In_edge in Inx, Iny, Ixx, Ixy. auto.
Qed.

Lemma X20_witness :
  Forall has_pixels (screens three_monitors) /\
  utils.virtual_geometry three_monitors = QRect.mk (-1280) (-768) 1919 1079 /\
  has_pixels (utils.virtual_geometry three_monitors).
Proof.
  assert (H : Forall has_pixels (screens three_monitors))
    by (repeat constructor; vm_compute; discriminate).
  split; [exact H|]. split; [reflexivity|].
  exact (proj1 (X20_virtual_geometry_is_the_bounding_box three_monitors H)).
Defined.

(** *** The text of a colour *)

Lemma format_02X_component (n : Z) :
  is_component n ->
  exists c1 c2, utils.format_02X n = String c1 (String c2 EmptyString) /\
                read_pair c1 c2 = Some n.
Proof.
  intros Hn.
  assert (Hall : forallb
            (fun k =>
               match utils.format_02X (Z.of_nat k) with
               | String c1 (String c2 EmptyString) =>
                   match read_pair c1 c2 with
                   | Some v => v =? Z.of_nat k
                   | None => false
                   end
               | _ => false
               end) (List.seq 0 256) = true) by (vm_compute; reflexivity).
  rewrite forallb_forall in Hall.
  specialize (Hall (Z.to_nat n)).
  rewrite Z2Nat.id in Hall by (unfold is_component in Hn; lia).
  assert (Hin : In (Z.to_nat n) (List.seq 0 256))
    by (apply in_seq; unfold is_component in Hn; lia).
  specialize (Hall Hin).
  destruct (utils.format_02X n) as [|c1 [|c2 [|c3 rest]]]; try discriminate.
  exists c1, c2. split; [reflexivity|].
  destruct (read_pair c1 c2) as [v|]; [|discriminate].
  f_equal. lia.
Qed.

Lemma read_color_pairs (r1 r2 g1 g2 b1 b2 : ascii) :
  read_color (String "#" (String r1 (String r2 (String g1 (String g2 (String b1 (String b2
    EmptyString)))))))
  = match read_pair r1 r2, read_pair g1 g2, read_pair b1 b2 with
    | Some r, Some g, Some b => Some (r, g, b)
    | _, _, _ => None
    end.
Proof. reflexivity. Qed.

(** X21.  The text of a colour can be read back: for components
    between 0 and 255, color_to_hex yields exactly seven characters, a
    number sign followed by two upper-case hexadecimal digits for each of
    red, green and blue, from which the three components are recovered;
    so different colours never share a text. *)
Theorem X21_color_text_reads_back :
  forall r g b : Z,
    is_component r -> is_component g -> is_component b ->
    String.length (utils.color_to_hex r g b) = 7%nat /\
    read_color (utils.color_to_hex r g b) = Some (r, g, b) /\
    (forall r' g' b',
       is_component r' -> is_component g' -> is_component b' ->
       utils.color_to_hex r' g' b' = utils.color_to_hex r g b ->
       (r', g', b') = (r, g, b)).
Proof.
  assert (Hread : forall r g b, is_component r -> is_component g -> is_component b ->
            String.length (utils.color_to_hex r g b) = 7%nat /\
            read_color (utils.color_to_hex r g b) = Some (r, g, b)).
  { intros r g b Hr Hg Hb.
    destruct (format_02X_component r Hr) as (r1 & r2 & Er & Rr).
    destruct (format_02X_component g Hg) as (g1 & g2 & Eg & Rg).
    destruct (format_02X_component b Hb) as (b1 & b2 & Eb & Rb).
    unfold utils.color_to_hex. rewrite Er, Eg, Eb. cbv [String.append].
    split; [reflexivity|]. rewrite read_color_pairs. now rewrite Rr, Rg, Rb. }
  intros r g b Hr Hg Hb.
  destruct (Hread r g b Hr Hg Hb) as [Hlen Hback].
  split; [exact Hlen|]. split; [exact Hback|].
  intros r' g' b' Hr' Hg' Hb' E.
  destruct (Hread r' g' b' Hr' Hg' Hb') as [_ Hback'].
  rewrite E in Hback'. congruence.
Qed.

Lemma X21_witness :
  is_component 137 /\ is_component 180 /\ is_component 250 /\
  read_color (utils.color_to_hex 137 180 250) = Some (137, 180, 250).
Proof.
  assert (H1 : is_component 137) by (unfold is_component; lia).
  assert (H2 : is_component 180) by (unfold is_component; lia).
  assert (H3 : is_component 250) by (unfold is_component; lia).
  split; [exact H1|]. split; [exact H2|]. split; [exact H3|].
  exact (proj1 (proj2 (X21_color_text_reads_back 137 180 250 H1 H2 H3))).
Defined.

(** *** The magnifier *)

Lemma py_range_bounds (start stop step x : Z) :
  0 < step -> In x (py_range start stop step) -> start <= x < stop.
Proof.
  unfold py_range. intros Hs Hin. apply in_map_iff in Hin as (k & <- & Hk).
  apply in_seq in Hk.
  pose proof (Z.mul_div_le (stop - start + step - 1) step Hs) as Hle.
  remember ((stop - start + step - 1) / step) as n.
  assert (Hk' : Z.of_nat k < n) by lia.
  nia.
Qed.

(** Where the image is placed along one axis. *)
Lemma magnifier_placement (p extent : Z) :
  let m := if p + 24 + 120 + 4 >? extent then p - 120 - 24 else p + 24 in
  (p + 24 <= m \/ m + 120 + 24 <= p) /\
  (293 <= extent -> 0 <= p < extent -> 0 <= m - 2 /\ m - 2 + 124 <= extent).
Proof. cbv zeta. destruct (p + 24 + 120 + 4 >? extent) eqn:E; lia. Qed.

(** What the copy of the 30-pixel square around a pointer on the
    Snapshot holds. *)
Lemma magnifier_source (sw sh : Z) (pos : QPoint.t) :
  on_snapshot sw sh pos ->
  let copied :=
    QPixmap_copy sw sh (QRect.xywh (QPoint.x pos - 15) (QPoint.y pos - 15) 30 30) in
  (forall qx qy, QRect.contains copied qx qy = true <->
     QPoint.x pos - 15 <= qx <= QPoint.x pos + 14 /\
     QPoint.y pos - 15 <= qy <= QPoint.y pos + 14 /\
     0 <= qx < sw /\ 0 <= qy < sh) /\
  QRect.contains copied (QPoint.x pos) (QPoint.y pos) = true /\
  (15 <= QPoint.x pos <= sw - 15 -> 15 <= QPoint.y pos <= sh - 15 ->
   copied = QRect.xywh (QPoint.x pos - 15) (QPoint.y pos - 15) 30 30).
Proof.
  intros (Hx & Hy & Hsw & Hsh). cbv zeta.
  set (px := QPoint.x pos) in *. set (py := QPoint.y pos) in *.
  set (src := QRect.xywh (px - 15) (py - 15) 30 30).
  destruct (pixmap_rect_fits sw sh) as (Himg & Hifit & Hiin);
    [unfold INT_MAX; lia | unfold INT_MAX; lia |].
  assert (Hsrc : has_pixels src).
  { unfold has_pixels, src, QRect.xywh, QRect.width, QRect.height. cbn. lia. }
  assert (Hsfit : fits_int src).
  { unfold fits_int, src, QRect.xywh, QRect.width, QRect.height, INT_MAX. cbn. lia. }
  assert (Hsin : forall qx qy, QRect.contains src qx qy = true <->
            px - 15 <= qx <= px + 14 /\ py - 15 <= qy <= py + 14).
  { intros qx qy. rewrite (contains_has_pixels src qx qy Hsrc).
    unfold src, QRect.xywh, QRect.left, QRect.right, QRect.top, QRect.bottom. cbn. lia. }
  assert (S1 : QRect.contains (QRect.xywh 0 0 sw sh) px py = true) by (apply Hiin; lia).
  assert (S2 : QRect.contains src px py = true) by (apply Hsin; lia).
  destruct (intersected_overlapping (QRect.xywh 0 0 sw sh) src px py
              Himg Hifit Hsrc Hsfit S1 S2) as (Ec & _ & _ & Hcin).
  cbv zeta in Ec, Hcin.
  unfold QPixmap_copy. cbv zeta.
  replace (QRect.isEmpty src) with false
    by (unfold QRect.isEmpty, src, QRect.xywh; cbn; symmetry; apply orb_false_iff; lia).
  split; [|split].
  - intros qx qy. rewrite Hcin, Hiin, Hsin. tauto.
  - apply Hcin. auto.
  - intros Hcx Hcy. rewrite Ec. unfold src, QRect.xywh. cbn. f_equal; lia.
Qed.

Lemma draw_magnifier_ok (s : overlay.RegionSelector) (sw sh width height : Z) :
  magnifies (overlay.current_pos s) sw sh width height
    (overlay._draw_magnifier s sw sh width height).
Proof.
  unfold overlay._draw_magnifier, overlay.magnifier_size, overlay.magnifier_zoom.
  cbv zeta. change (120 / 4) with 30. change (30 / 2) with 15. change (120 / 2) with 60.
  change (120 + 4) with 124.
  destruct (magnifier_placement (QPoint.x (overlay.current_pos s)) width) as [Cx Fx].
  destruct (magnifier_placement (QPoint.y (overlay.current_pos s)) height) as [Cy Fy].
  cbv zeta in Cx, Fx, Cy, Fy.
  set (px := QPoint.x (overlay.current_pos s)) in *.
  set (py := QPoint.y (overlay.current_pos s)) in *.
  set (mx := if px + 24 + 120 + 4 >? width then px - 120 - 24 else px + 24) in *.
  set (my := if py + 24 + 120 + 4 >? height then py - 120 - 24 else py + 24) in *.
  clearbody mx my.
  eexists mx, my, _, _. split; [reflexivity|].
  split; [|split; [exact Cx|split; [exact Cy|split; [exact Fx|split; [exact Fy|]]]]].
  - cbn [QPoint.x QPoint.y].
    constructor; [cbn; lia|]. constructor; [cbn; lia|].
    apply Forall_app. split; apply List.Forall_forall; intros op Hop;
      apply in_map_iff in Hop as (g & <- & Hg);
      apply py_range_bounds in Hg; cbn; lia.
  - intros Hon. exact (magnifier_source sw sh (overlay.current_pos s) Hon).
Qed.

(** X7.  The magnifier of the Region Selector and that of the Window
    Picker paint a 120-pixel image in a 124-pixel frame.  Every line drawn
    on top (the cross at the centre, and in the Region Selector the pixel
    grid) stays within the square that begins at the corner of the image
    and is 120 pixels long, hence inside the frame.  The image is placed
    24 pixels away from the pointer on both axes, so it never covers the
    pixel it enlarges, and on a widget at least 293 pixels wide and high
    that holds the pointer the frame lies inside the widget.  With the
    pointer on the Snapshot, the image is made of those pixels of the
    30-pixel square around the pointer that are on the Snapshot, because
    the copy is clipped; the pointer's pixel is among them, and they are
    the whole square when the pointer is at least 15 pixels away from the
    edges of the Snapshot. *)
Theorem X7_magnifier_keeps_clear_of_the_pointer :
  forall (s : overlay.RegionSelector) (F : Type) (fl : PyFloat F)
         (pk : window_picker.WindowPicker F) (sw sh width height : Z),
    magnifies (overlay.current_pos s) sw sh width height
      (overlay._draw_magnifier s sw sh width height) /\
    magnifies (window_picker.current_pos pk) sw sh width height
      (window_picker._draw_magnifier pk sw sh width height).
Proof.
  intros s F fl pk sw sh width height. split; [apply draw_magnifier_ok|].
  unfold window_picker._draw_magnifier, window_picker._magnifier_size,
    window_picker._magnifier_zoom.
  cbv zeta. change (120 / 4) with 30. change (30 / 2) with 15. change (120 / 2) with 60.
  change (120 + 4) with 124.
  destruct (magnifier_placement (QPoint.x (window_picker.current_pos pk)) width) as [Cx Fx].
  destruct (magnifier_placement (QPoint.y (window_picker.current_pos pk)) height) as [Cy Fy].
  cbv zeta in Cx, Fx, Cy, Fy.
  set (px := QPoint.x (window_picker.current_pos pk)) in *.
  set (py := QPoint.y (window_picker.current_pos pk)) in *.
  set (mx := if px + 24 + 120 + 4 >? width then px - 120 - 24 else px + 24) in *.
  set (my := if py + 24 + 120 + 4 >? height then py - 120 - 24 else py + 24) in *.
  clearbody mx my.
  eexists mx, my, _, _. split; [reflexivity|].
  split; [|split; [exact Cx|split; [exact Cy|split; [exact Fx|split; [exact Fy|]]]]].
  - constructor; [cbn; lia|]. constructor; [cbn; lia|]. constructor.
  - intros Hon. exact (magnifier_source sw sh (window_picker.current_pos pk) Hon).
Qed.

(** Near the edge of the Snapshot the copy is clipped: with the pointer
    at (5,500) on a 1920x1080 Snapshot only 20 of the 30 columns of the
    square are copied. *)
Example magnifier_source_is_clipped :
  QPixmap_copy 1920 1080 (QRect.xywh (5 - 15) (500 - 15) 30 30) = QRect.xywh 0 485 20 30.
Proof. reflexivity. Qed.

End GeometryFurther.

